(** * rita: descriptor parsing, recursive expansion and manifest diffing

    A shallow embedding of the parts of [rita] that parse Argo CD
    Application / ApplicationSet descriptors ([rita/argocd.py],
    [rita/models.py]), expand app-of-apps trees ([rita/helm.py],
    [render_recursive]) and diff two rendered manifest streams
    ([rita/commands/render.py], [_diff_manifests]), together with the
    helpers around them: chart and registry names, the expansion of a
    single ApplicationSet, the applications touched by a change, and the
    storage keys, token-expiry test and chart cache of [rita/storage.py].

    Conventions.
    - A Python [str] is a [string]; a character stands for a code point
      below 256, and strings compare by code point as in Python.
    - A Python [dict] keyed by strings is a [gmap string _]; a [TypedDict]
      declared with [total=False] is a record of optional fields, typed as
      the declaration says.
    - A call that can raise returns a [result]; external collaborators
      (the YAML loader, the file system, the Helm binary, [difflib], the
      scheduler of the worker pool) are parameters of the sections that
      use them. *)

From Stdlib Require Import ZArith Ascii.
From stdpp Require Import base option list gmap strings sorting pretty.

Local Open Scope Z_scope.

(** ** Python string primitives *)

Module Py.

(** [s.startswith(prefix)] *)
Fixpoint startswith (s prefix : string) {struct prefix} : bool :=
  match prefix with
  | EmptyString => true
  | String p prefix' =>
      match s with
      | EmptyString => false
      | String c s' => if decide (c = p) then startswith s' prefix' else false
      end
  end.

(** [s[n:]] *)
Fixpoint drop (n : nat) (s : string) : string :=
  match n, s with
  | O, _ => s
  | S _, EmptyString => EmptyString
  | S n', String _ s' => drop n' s'
  end.

(** [sub in s] *)
Fixpoint contains (s sub : string) : bool :=
  startswith s sub ||
  match s with
  | EmptyString => false
  | String _ s' => contains s' sub
  end.

(** The scan behind [str.replace] for a non-empty [old]: left to right,
    a match at the cursor emits [new] and moves the cursor past the
    match ([skip] counts the characters of the match still to pass). *)
Fixpoint replace_scan (old new : string) (skip : nat) (s : string) : string :=
  match s with
  | EmptyString => EmptyString
  | String c s' =>
      match skip with
      | S k => replace_scan old new k s'
      | O =>
          if startswith s old
          then new +:+ replace_scan old new (Nat.pred (String.length old)) s'
          else String c (replace_scan old new O s')
      end
  end.

(** [str.replace] with an empty [old] puts [new] around every character. *)
Fixpoint replace_empty (new s : string) : string :=
  match s with
  | EmptyString => new
  | String c s' => new +:+ String c (replace_empty new s')
  end.

(** [s.replace(old, new)] *)
Definition replace (s old new : string) : string :=
  match old with
  | EmptyString => replace_empty new s
  | String _ _ => replace_scan old new O s
  end.

(** The scan behind [str.split(sep)] for a non-empty [sep]; the head of
    the result is the piece being read. *)
Fixpoint split_scan (sep : string) (skip : nat) (s : string) : list string :=
  match s with
  | EmptyString => [EmptyString]
  | String c s' =>
      match skip with
      | S k => split_scan sep k s'
      | O =>
          if startswith s sep
          then EmptyString :: split_scan sep (Nat.pred (String.length sep)) s'
          else match split_scan sep O s' with
               | piece :: pieces => String c piece :: pieces
               | [] => [String c EmptyString]
               end
      end
  end.

(** [s.split(sep)] for a non-empty [sep] (Python raises on an empty one). *)
Definition split (s sep : string) : list string := split_scan sep O s.

(** The characters at which [str.splitlines] ends a line (code points
    below 256): LF, VT, FF, CR, FS, GS, RS and NEL. *)
Definition is_linebreak (c : ascii) : bool :=
  let n := N_of_ascii c in
  ((10 <=? n) && (n <=? 13) || (28 <=? n) && (n <=? 30) || (n =? 133))%N.

(** [s.splitlines(keepends=True)]; CR followed by LF ends one line. *)
Fixpoint splitlines_keepends (s : string) : list string :=
  match s with
  | EmptyString => []
  | String c s' =>
      let ends_here :=
        is_linebreak c
        && negb (bool_decide (c = "013"%char) && startswith s' (String "010"%char EmptyString)) in
      if ends_here then String c EmptyString :: splitlines_keepends s'
      else match splitlines_keepends s' with
           | [] => [String c EmptyString]
           | line :: lines => String c line :: lines
           end
  end.

(** [l[:n]] for an integer [n] (a negative [n] counts from the end). *)
Definition slice_to {A : Type} (l : list A) (n : Z) : list A :=
  if bool_decide (0 <= n) then take (Z.to_nat n) l
  else take (length l - Z.to_nat (- n)) l.

(** [sep.join(parts)] *)
Fixpoint join (sep : string) (parts : list string) : string :=
  match parts with
  | [] => EmptyString
  | [p] => p
  | p :: ps => p +:+ sep +:+ join sep ps
  end.

(** [str.isspace] on one character (code points below 256). *)
Definition isspace (c : ascii) : bool :=
  let n := N_of_ascii c in
  ((9 <=? n) && (n <=? 13) || (28 <=? n) && (n <=? 32)
   || (n =? 133) || (n =? 160))%N.

(** [s.lstrip()] *)
Fixpoint lstrip (s : string) : string :=
  match s with
  | EmptyString => EmptyString
  | String c s' => if isspace c then lstrip s' else s
  end.

(** [s.rstrip()] *)
Fixpoint rstrip (s : string) : string :=
  match s with
  | EmptyString => EmptyString
  | String c s' =>
      match rstrip s' with
      | EmptyString => if isspace c then EmptyString else String c EmptyString
      | r => String c r
      end
  end.

(** [s.strip()] *)
Definition strip (s : string) : string := rstrip (lstrip s).

End Py.

(** ** Exceptions and results *)

(** A Python exception object: its class, what [str(e)] gives, and
    [e.__cause__].  Only the class that [render_recursive] tests for is
    told apart; every other subclass of [Exception] is named. *)
Inductive exn_class : Type :=
| AWSTokenExpiredError
| OtherException (qualname : string).

#[warnings="-register-all"]
Inductive exn : Type :=
| Exn (cls : exn_class) (str : string) (cause : option exn).

Inductive result (A : Type) : Type :=
| Ok (a : A)
| Raise (e : exn).
Arguments Ok {A} a.
Arguments Raise {A} e.

(** ** Descriptor model ([rita/models.py]) *)

(** A YAML value kept as an opaque payload ([dict[str, Any]]). *)
#[warnings="-register-all"]
Inductive yaml_value : Type :=
| YNull
| YBool (b : bool)
| YInt (z : Z)
| YStr (s : string)
| YSeq (l : list yaml_value)
| YMap (m : list (string * yaml_value)).

Definition Path := string.

Module ArgoAppConfig.
Record t : Type := Build {
  name : string;
  chart_repo : string;
  chart_name : string;
  chart_version : string;
  values_files : list string;
  namespace : string;
  release_name : string;
  is_local_chart : bool;
  source_file : option Path;
  oci_chart_name : option string;
  values_object : option yaml_value;
  is_kustomize : bool;
  kustomize_path : option string;
  plain_manifests_path : option string
}.

(** The dataclass constructor followed by [__post_init__]:
    an unset [oci_chart_name] becomes [chart_name]. *)
Definition init (name chart_repo chart_name chart_version : string)
    (values_files : list string) (namespace release_name : string)
    (is_local_chart : bool) (source_file : option Path)
    (oci_chart_name : option string) (values_object : option yaml_value)
    (is_kustomize : bool) (kustomize_path plain_manifests_path : option string) : t :=
  Build name chart_repo chart_name chart_version values_files namespace
    release_name is_local_chart source_file
    (match oci_chart_name with
     | None => Some chart_name
     | Some o => Some o
     end)
    values_object is_kustomize kustomize_path plain_manifests_path.
End ArgoAppConfig.

(** ** [TypedDict]s of [rita/argocd.py] *)

Module ArgoHelmConfig.
Record t : Type := Build {
  releaseName : option string;
  valueFiles : option (list string);
  valuesObject : option yaml_value
}.
(** The empty dict [{}]. *)
Definition empty : t := Build None None None.
End ArgoHelmConfig.

Module ArgoMetadata.
Record t : Type := Build {
  name : option string;
  namespace : option string
}.
Definition empty : t := Build None None.
End ArgoMetadata.

Module ArgoDestination.
Record t : Type := Build {
  server : option string;
  namespace : option string
}.
Definition empty : t := Build None None.
End ArgoDestination.

Module ArgoSource.
Record t : Type := Build {
  repoURL : option string;
  chart : option string;
  targetRevision : option string;
  path : option string;
  ref : option string;
  helm : option ArgoHelmConfig.t
}.
Definition empty : t := Build None None None None None None.
End ArgoSource.

(** An element of a list generator: a dict of strings, which may carry
    keys beyond the declared ones ([extra_fields] keeps them all). *)
Abbreviation ArgoGeneratorElement := (gmap string string).

Module ArgoListGenerator.
Record t : Type := Build {
  elements : option (list ArgoGeneratorElement)
}.
End ArgoListGenerator.

Module ArgoGenerator.
(** The key is [list] in the source. *)
Record t : Type := Build {
  list_ : option ArgoListGenerator.t
}.
End ArgoGenerator.

Module ArgoApplicationSetTemplateSpec.
Record t : Type := Build {
  sources : option (list ArgoSource.t);
  destination : option ArgoDestination.t
}.
Definition empty : t := Build None None.
End ArgoApplicationSetTemplateSpec.

Module ArgoApplicationSetTemplate.
Record t : Type := Build {
  spec : option ArgoApplicationSetTemplateSpec.t
}.
Definition empty : t := Build None.
End ArgoApplicationSetTemplate.

(** [ArgoApplicationSpec] and [ArgoApplicationSetSpec] read the same
    [spec] mapping; one record holds the keys of both. *)
Module ArgoSpec.
Record t : Type := Build {
  source : option ArgoSource.t;
  sources : option (list ArgoSource.t);
  destination : option ArgoDestination.t;
  generators : option (list ArgoGenerator.t);
  template : option ArgoApplicationSetTemplate.t
}.
Definition empty : t := Build None None None None None.
End ArgoSpec.

Module ArgoDocument.
Record t : Type := Build {
  apiVersion : option string;
  kind : option string;
  metadata : option ArgoMetadata.t;
  spec : option ArgoSpec.t
}.
End ArgoDocument.

(** What the YAML loader hands back for one document: a non-empty
    mapping, or a value that [doc and isinstance(doc, dict)] rejects. *)
Inductive yaml_doc : Type :=
| YDoc (d : ArgoDocument.t)
| YOther.

(** The YAML library.  [safe_load] gives [None] for a [yaml.YAMLError];
    [safe_load_all] is lazy: it yields the documents it could read and
    then, when the flag is set, raises. *)
Class YamlLoader : Type := {
  safe_load : string -> option yaml_doc;
  safe_load_all : string -> list yaml_doc * bool
}.

(** The file system as the parser sees it. *)
Class FileSystem : Type := {
  path_exists : Path -> bool;
  read_text : Path -> option string;
  _is_kustomize_directory : string -> bool
}.

Module ArgoAppSetGeneratorElement.
Record t : Type := Build {
  name : string;
  chart_name : string;
  chart_version : string;
  values_file : string;
  namespace : string;
  wave : string;
  depends_on : option string;
  extra_fields : gmap string string
}.
End ArgoAppSetGeneratorElement.

Module ArgoAppSetConfig.
Record t : Type := Build {
  name : string;
  namespace : string;
  chart_repo : string;
  destination_server : string;
  destination_namespace : string;
  generator_elements : list ArgoAppSetGeneratorElement.t;
  template_spec : ArgoApplicationSetTemplateSpec.t;
  source_file : option Path;
  values_overlay : option yaml_value
}.

(** [ArgoAppSetConfig.to_app_configs] ([values_root] is unused). *)
Definition to_app_configs `{FileSystem} (self : t)
    (chart_path_resolver : string -> Path) (values_root : Path)
  : list ArgoAppConfig.t :=
  foldl (fun apps elem =>
    let origin :=
      default (ArgoAppSetGeneratorElement.chart_name elem)
              (ArgoAppSetGeneratorElement.extra_fields elem !! "origin") in
    let local_chart_path := chart_path_resolver origin in
    let is_local := path_exists local_chart_path in
    let values_files :=
      if decide (ArgoAppSetGeneratorElement.values_file elem = "") then []
      else ["kubernetes/" +:+ origin +:+ "/" +:+
            ArgoAppSetGeneratorElement.values_file elem] in
    let oci_chart_name := "helm-charts/" +:+ origin in
    let app :=
      ArgoAppConfig.init
        (ArgoAppSetGeneratorElement.name elem)
        (chart_repo self)
        origin
        (ArgoAppSetGeneratorElement.chart_version elem)
        values_files
        (destination_namespace self)
        (ArgoAppSetGeneratorElement.name elem)
        is_local
        (source_file self)
        (Some oci_chart_name)
        (values_overlay self)
        false None None in
    apps ++ [app]) [] (generator_elements self).
End ArgoAppSetConfig.

(** ** Descriptor parser ([rita/argocd.py]) *)

(** [doc and isinstance(doc, dict) and doc.get("kind") == kind] *)
Definition doc_of_kind (k : string) (doc : yaml_doc) : option ArgoDocument.t :=
  match doc with
  | YDoc d => if decide (ArgoDocument.kind d = Some k) then Some d else None
  | YOther => None
  end.

(** The loop [for doc in yaml.safe_load_all(content): if ...: return doc]:
    the documents are read one at a time, so a match is returned before
    any later parse error is met. *)
Fixpoint first_of_kind (k : string) (docs : list yaml_doc) : option ArgoDocument.t :=
  match docs with
  | [] => None
  | doc :: docs' =>
      match doc_of_kind k doc with
      | Some d => Some d
      | None => first_of_kind k docs'
      end
  end.

Definition _find_application_document `{YamlLoader} `{FileSystem}
    (app_path : Path) : option ArgoDocument.t :=
  match read_text app_path with
  | None => None
  | Some content => first_of_kind "Application" (safe_load_all content).1
  end.

Definition _find_applicationset_document `{YamlLoader}
    (content : string) : option ArgoDocument.t :=
  first_of_kind "ApplicationSet" (safe_load_all content).1.

(** Truth value of a source dict: false only for [{}]. *)
Definition source_truthy (src : ArgoSource.t) : bool :=
  match src with
  | ArgoSource.Build None None None None None None => false
  | _ => true
  end.

(** Truth value of an optional string ([None] and [""] are false). *)
Definition str_truthy (s : option string) : bool :=
  match s with
  | None | Some EmptyString => false
  | Some _ => true
  end.

(** The shared prologue of the source scans:
    [sources = spec.get("sources", []); source = spec.get("source");
     if source and not sources: sources = [source]]. *)
Definition spec_sources (spec : ArgoSpec.t) : list ArgoSource.t :=
  let sources := default [] (ArgoSpec.sources spec) in
  match ArgoSpec.source spec with
  | Some source =>
      if source_truthy source && bool_decide (sources = [])
      then [source] else sources
  | None => sources
  end.

Definition _find_chart_source (spec : ArgoSpec.t) : option ArgoSource.t :=
  let sources := spec_sources spec in
  match sources with
  | [] => None
  | _ =>
      match List.find (fun src => bool_decide (is_Some (ArgoSource.chart src))) sources with
      | Some src => Some src
      | None => List.find (fun src => bool_decide (is_Some (ArgoSource.path src))) sources
      end
  end.

(** [_extract_values_files] *)
Definition _extract_values_files (helm_config : ArgoHelmConfig.t) : list string :=
  let raw_value_files := default [] (ArgoHelmConfig.valueFiles helm_config) in
  foldl (fun values_files vf =>
           if Py.startswith vf "$values/"
           then values_files ++ [Py.replace vf "$values/" ""]
           else values_files ++ [vf])
        [] raw_value_files.

(** [chart_name.split("/")[-1]] when ["/" in chart_name]. *)
Definition _extract_local_chart_name (chart_name : string) : string :=
  if Py.contains chart_name "/"
  then default EmptyString (last (Py.split chart_name "/"))
  else chart_name.

(** The three variables the classification loop of
    [parse_argocd_application] assigns. *)
Record source_selection : Type := Selection {
  helm_source : option ArgoSource.t;
  kustomize_source_path : option string;
  plain_manifests_path : option string
}.

(** One iteration of [for src in sources] in [parse_argocd_application]. *)
Definition classify_source `{FileSystem}
    (sel : source_selection) (src : ArgoSource.t) : source_selection :=
  let sel1 :=
    if bool_decide (is_Some (ArgoSource.chart src))
       && bool_decide (helm_source sel = None)
    then Selection (Some src) (kustomize_source_path sel) (plain_manifests_path sel)
    else sel in
  if bool_decide (is_Some (ArgoSource.path src))
     && negb (str_truthy (ArgoSource.ref src))
  then
    match ArgoSource.path src with
    | Some path =>
        if str_truthy (Some path) then
          if _is_kustomize_directory path
          then Selection (helm_source sel1) (Some path) (plain_manifests_path sel1)
          else Selection (helm_source sel1) (kustomize_source_path sel1) (Some path)
        else sel1
    | None => sel1
    end
  else sel1.

Definition classify_sources `{FileSystem}
    (sources : list ArgoSource.t) : source_selection :=
  foldl classify_source (Selection None None None) sources.

Definition parse_argocd_application `{YamlLoader} `{FileSystem}
    (app_path : Path) (chart_path_resolver : string -> Path)
  : option ArgoAppConfig.t :=
  match _find_application_document app_path with
  | None => None
  | Some doc =>
      let metadata := default ArgoMetadata.empty (ArgoDocument.metadata doc) in
      let spec := default ArgoSpec.empty (ArgoDocument.spec doc) in
      let name := default EmptyString (ArgoMetadata.name metadata) in
      let destination := default ArgoDestination.empty (ArgoSpec.destination spec) in
      let namespace := default "default" (ArgoDestination.namespace destination) in
      match _find_chart_source spec with
      | None => None
      | Some chart_source =>
          let sources := spec_sources spec in
          let sel := classify_sources sources in
          if bool_decide (helm_source sel = None)
             && str_truthy (kustomize_source_path sel)
          then
            Some (ArgoAppConfig.init name "" "" "" [] namespace name false
                    (Some app_path) None None true (kustomize_source_path sel) None)
          else
            let hs := helm_source sel in
            let chart_repo :=
              match hs with
              | Some h => default EmptyString (ArgoSource.repoURL h)
              | None => EmptyString
              end in
            let chart_name :=
              match hs with
              | Some h => default EmptyString (ArgoSource.chart h)
              | None => EmptyString
              end in
            let chart_version :=
              match hs with
              | Some h => default "latest" (ArgoSource.targetRevision h)
              | None => "latest"
              end in
            let helm_config :=
              match hs with
              | Some h => default ArgoHelmConfig.empty (ArgoSource.helm h)
              | None => ArgoHelmConfig.empty
              end in
            let release_name := default name (ArgoHelmConfig.releaseName helm_config) in
            let values_files := _extract_values_files helm_config in
            let values_object := ArgoHelmConfig.valuesObject helm_config in
            let local_chart_name := _extract_local_chart_name chart_name in
            let is_local_chart :=
              if decide (chart_name = "") then false
              else path_exists (chart_path_resolver local_chart_name) in
            Some (ArgoAppConfig.init name chart_repo
                    (if is_local_chart then local_chart_name else chart_name)
                    chart_version values_files namespace release_name
                    is_local_chart (Some app_path) (Some chart_name) values_object
                    (str_truthy (kustomize_source_path sel))
                    (kustomize_source_path sel) (plain_manifests_path sel))
      end
  end.

(** The generator loop shared by [parse_applicationset_from_manifest] and
    [_parse_applicationset_from_doc]: every element of every generator
    that has a [list] key is appended, in order. *)
Definition generator_element_of (namespace : string) (elem : ArgoGeneratorElement)
  : ArgoAppSetGeneratorElement.t :=
  ArgoAppSetGeneratorElement.Build
    (default EmptyString (elem !! "name"))
    (default EmptyString (elem !! "origin"))
    (default EmptyString (elem !! "version"))
    (default EmptyString (elem !! "valuesFile"))
    namespace
    (default "0" (elem !! "wave"))
    (elem !! "dependsOn")
    elem.

Definition collect_generator_elements (namespace : string)
    (generators : list ArgoGenerator.t) : list ArgoAppSetGeneratorElement.t :=
  foldl (fun generator_elements gen =>
    match ArgoGenerator.list_ gen with
    | Some list_gen =>
        let elements := default [] (ArgoListGenerator.elements list_gen) in
        foldl (fun acc elem => acc ++ [generator_element_of namespace elem])
              generator_elements elements
    | None => generator_elements
    end) [] generators.

(** The loop [for source in sources: if "chart" in source: ...; break]. *)
Definition template_chart_source (sources : list ArgoSource.t)
  : string * option yaml_value :=
  match List.find (fun source => bool_decide (is_Some (ArgoSource.chart source))) sources with
  | Some source =>
      let chart_repo := default EmptyString (ArgoSource.repoURL source) in
      let helm_config := default ArgoHelmConfig.empty (ArgoSource.helm source) in
      (chart_repo, ArgoHelmConfig.valuesObject helm_config)
  | None => (EmptyString, None)
  end.

Definition _parse_applicationset_from_doc (doc : ArgoDocument.t)
    (source_file : option Path) : option ArgoAppSetConfig.t :=
  let metadata := default ArgoMetadata.empty (ArgoDocument.metadata doc) in
  let spec := default ArgoSpec.empty (ArgoDocument.spec doc) in
  let name := default EmptyString (ArgoMetadata.name metadata) in
  let namespace := default "argocd" (ArgoMetadata.namespace metadata) in
  let generators := default [] (ArgoSpec.generators spec) in
  let generator_elements := collect_generator_elements namespace generators in
  let template := default ArgoApplicationSetTemplate.empty (ArgoSpec.template spec) in
  let template_spec :=
    default ArgoApplicationSetTemplateSpec.empty
            (ArgoApplicationSetTemplate.spec template) in
  let destination :=
    default ArgoDestination.empty
            (ArgoApplicationSetTemplateSpec.destination template_spec) in
  let dest_server :=
    default "https://kubernetes.default.svc" (ArgoDestination.server destination) in
  let dest_namespace := default "default" (ArgoDestination.namespace destination) in
  let sources := default [] (ArgoApplicationSetTemplateSpec.sources template_spec) in
  let '(chart_repo, values_overlay) := template_chart_source sources in
  Some (ArgoAppSetConfig.Build name namespace chart_repo dest_server dest_namespace
          generator_elements template_spec source_file values_overlay).

(** [parse_applicationset_from_manifest]: the first ApplicationSet document
    of the content; the body repeats [_parse_applicationset_from_doc]
    (with [dict(...)] copies, which a value model does not tell apart). *)
Definition parse_applicationset_from_manifest `{YamlLoader}
    (manifest_content : string) (source_file : option Path)
  : option ArgoAppSetConfig.t :=
  match _find_applicationset_document manifest_content with
  | None => None
  | Some doc =>
      let metadata := default ArgoMetadata.empty (ArgoDocument.metadata doc) in
      let spec := default ArgoSpec.empty (ArgoDocument.spec doc) in
      let name := default EmptyString (ArgoMetadata.name metadata) in
      let namespace := default "argocd" (ArgoMetadata.namespace metadata) in
      let generators := default [] (ArgoSpec.generators spec) in
      let generator_elements := collect_generator_elements namespace generators in
      let template :=
        default ArgoApplicationSetTemplate.empty (ArgoSpec.template spec) in
      let template_spec :=
        default ArgoApplicationSetTemplateSpec.empty
                (ArgoApplicationSetTemplate.spec template) in
      let destination :=
        default ArgoDestination.empty
                (ArgoApplicationSetTemplateSpec.destination template_spec) in
      let dest_server :=
        default "https://kubernetes.default.svc" (ArgoDestination.server destination) in
      let dest_namespace :=
        default "default" (ArgoDestination.namespace destination) in
      let sources :=
        default [] (ArgoApplicationSetTemplateSpec.sources template_spec) in
      let '(chart_repo, values_overlay) := template_chart_source sources in
      Some (ArgoAppSetConfig.Build name namespace chart_repo dest_server
              dest_namespace generator_elements template_spec source_file
              values_overlay)
  end.

Definition _parse_application_from_doc `{FileSystem} (doc : ArgoDocument.t)
    (source_file : option Path) (chart_path_resolver : string -> Path)
  : option ArgoAppConfig.t :=
  let metadata := default ArgoMetadata.empty (ArgoDocument.metadata doc) in
  let spec := default ArgoSpec.empty (ArgoDocument.spec doc) in
  let name := default EmptyString (ArgoMetadata.name metadata) in
  let destination := default ArgoDestination.empty (ArgoSpec.destination spec) in
  let namespace := default "default" (ArgoDestination.namespace destination) in
  match _find_chart_source spec with
  | None => None
  | Some chart_source =>
      if negb (source_truthy chart_source) then None else
      let repo_url := default EmptyString (ArgoSource.repoURL chart_source) in
      let chart := default EmptyString (ArgoSource.chart chart_source) in
      let target_revision := default "latest" (ArgoSource.targetRevision chart_source) in
      let helm := default ArgoHelmConfig.empty (ArgoSource.helm chart_source) in
      let values_files := _extract_values_files helm in
      let values_object := ArgoHelmConfig.valuesObject helm in
      let release_name := default name (ArgoHelmConfig.releaseName helm) in
      let local_chart_name := _extract_local_chart_name chart in
      let is_local_chart := path_exists (chart_path_resolver local_chart_name) in
      Some (ArgoAppConfig.init name repo_url
              (if is_local_chart then local_chart_name else chart)
              target_revision values_files namespace release_name is_local_chart
              source_file (Some chart) values_object false None None)
  end.

(** One iteration of [for doc in docs] in
    [parse_argocd_resources_from_manifest]. *)
Definition collect_resource `{FileSystem} (source_file : option Path)
    (chart_path_resolver : string -> Path)
    (acc : list ArgoAppConfig.t * list ArgoAppSetConfig.t) (doc : yaml_doc)
  : list ArgoAppConfig.t * list ArgoAppSetConfig.t :=
  match doc with
  | YOther => acc
  | YDoc d =>
      let api_version := default EmptyString (ArgoDocument.apiVersion d) in
      let kind := default EmptyString (ArgoDocument.kind d) in
      if bool_decide (kind = "Application") && Py.contains api_version "argoproj.io"
      then
        match _parse_application_from_doc d source_file chart_path_resolver with
        | Some app => (acc.1 ++ [app], acc.2)
        | None => acc
        end
      else if bool_decide (kind = "ApplicationSet")
              && Py.contains api_version "argoproj.io"
      then
        match _parse_applicationset_from_doc d source_file with
        | Some appset => (acc.1, acc.2 ++ [appset])
        | None => acc
        end
      else acc
  end.

Definition parse_argocd_resources_from_manifest `{YamlLoader} `{FileSystem}
    (manifest_content : string) (source_file : option Path)
    (chart_path_resolver : string -> Path)
  : list ArgoAppConfig.t * list ArgoAppSetConfig.t :=
  let '(docs, yaml_error) := safe_load_all manifest_content in
  if yaml_error then ([], [])
  else foldl (collect_resource source_file chart_path_resolver) ([], []) docs.

(** ** Recursive expansion ([rita/helm.py]) *)

(** What a run of the engine does to the outside world, in order. *)
Inductive event : Type :=
| HelmTemplate (app_name : string)
| WriteRendered (output_dir : Path)
| WriteCombined (output_dir : Path).

(** The renderer and the two writers of [rita/helm.py] that
    [render_recursive] calls; each one returns or raises. *)
Class Renderer : Type := {
  render_helm_chart_to_string :
    ArgoAppConfig.t -> Path -> (string -> Path) -> bool ->
    result (bool * string * string);
  _write_rendered_output : string -> Path -> result Z;
  _write_combined_recursive_output : Path -> result unit
}.

(** [concurrent.futures.as_completed]: the order in which the submitted
    tasks finish. *)
Class WorkerPool : Type := {
  as_completed : forall A : Type, list A -> list A
}.

(** A computation that needs recursion fuel, may raise, and leaves a
    trace of events: [None] is fuel exhaustion. *)
Definition M (A : Type) : Type := option (result A * list event).

Definition ret {A : Type} (a : A) : M A := Some (Ok a, []).

Definition bind {A B : Type} (m : M A) (k : A -> M B) : M B :=
  match m with
  | None => None
  | Some (Raise e, t) => Some (Raise e, t)
  | Some (Ok a, t) =>
      match k a with
      | None => None
      | Some (r, t') => Some (r, t ++ t')
      end
  end.

(** A call to a collaborator: the event, then its result. *)
Definition call {A : Type} (ev : event) (r : result A) : M A := Some (r, [ev]).

Notation "'let*' p := m 'in' k" := (bind m (fun p => k))
  (at level 10, p pattern, m at level 100, k at level 200, only parsing).

(** [pathlib]'s [output_dir / name] for a relative [name]. *)
Definition path_join (dir : Path) (name : string) : Path := dir +:+ "/" +:+ name.

(** [isinstance(e, AWSTokenExpiredError)] *)
Definition is_token_expired (e : exn) : bool :=
  match e with
  | Exn AWSTokenExpiredError _ _ => true
  | Exn (OtherException _) _ _ => false
  end.

Definition exn_str (e : exn) : string :=
  match e with Exn _ s _ => s end.

Definition exn_cause (e : exn) : option exn :=
  match e with Exn _ _ c => c end.

(** [raise e from None] clears [__cause__]. *)
Definition from_None (e : exn) : exn :=
  match e with Exn c s _ => Exn c s None end.

(** What a child task hands back: [(app_name, success, msg, rendered)]. *)
Definition child_result : Type := string * bool * string * list string.

(** [_render_child_app], over the function it calls back into; the call
    leaves [parallel] and [max_workers] at their defaults. *)
Definition _render_child_app
    (render_recursive :
       ArgoAppConfig.t -> Path -> Path -> (string -> Path) -> bool -> Z -> Z ->
       bool -> Z -> M (bool * string * list string))
    (child_app : ArgoAppConfig.t) (output_dir repo_root : Path)
    (chart_path_resolver : string -> Path) (include_crds : bool)
    (max_depth current_depth : Z) : M child_result :=
  let child_output_dir := path_join output_dir (ArgoAppConfig.name child_app) in
  let* (success, msg, grandchildren) :=
     render_recursive child_app child_output_dir repo_root chart_path_resolver
       include_crds max_depth (current_depth + 1) true 4 in
  ret (ArgoAppConfig.name child_app, success, msg, grandchildren).

(** The body of both loops for a child that returned. *)
Definition record_child (r : child_result) (st : list string * list string)
  : list string * list string :=
  let '(app_name, child_success, child_msg, grandchildren) := r in
  let '(all_rendered, child_errors) := st in
  if child_success then (all_rendered ++ grandchildren, child_errors)
  else (all_rendered, child_errors ++ [app_name +:+ ": " +:+ child_msg]).

(** [for future in as_completed(futures)] with its [try]/[except]:
    [futures] pairs each finished task with the name it was submitted
    under. *)
Fixpoint gather_completed (futures : list (string * result child_result))
    (st : list string * list string) : result (list string * list string) :=
  match futures with
  | [] => Ok st
  | (submitted_name, Ok r) :: rest => gather_completed rest (record_child r st)
  | (submitted_name, Raise e) :: rest =>
      if is_token_expired e then Raise e
      else
        match exn_cause e with
        | Some cause =>
            if is_token_expired cause then Raise (from_None cause)
            else gather_completed rest
                   (st.1, st.2 ++ [submitted_name +:+ ": " +:+ exn_str e])
        | None =>
            gather_completed rest
              (st.1, st.2 ++ [submitted_name +:+ ": " +:+ exn_str e])
        end
  end.

(** The [with ThreadPoolExecutor(...)] block: every submitted task runs to
    its end (the block waits for all of them when it is left, also by an
    exception), and the results are handled in completion order. *)
Definition run_pool `{WorkerPool} (max_workers : Z)
    (tasks : list (string * M child_result))
    (st : list string * list string) : M (list string * list string) :=
  if bool_decide (max_workers <= 0) then
    Some (Raise (Exn (OtherException "ValueError")
                     "max_workers must be greater than 0" None), [])
  else
    match mapM (fun task : string * M child_result =>
                  match task.2 with
                  | None => None
                  | Some (r, t) => Some (task.1, r, t)
                  end) tasks with
    | None => None
    | Some finished =>
        let completed := as_completed _ finished in
        Some (gather_completed (map (fun f => (f.1.1, f.1.2)) completed) st,
              concat (map (fun f => f.2) completed))
    end.

(** The sequential loop [for child_app in all_child_apps]: no handler, so
    the first child that raises ends the loop. *)
Fixpoint run_sequential (tasks : list (M child_result))
    (st : list string * list string) : M (list string * list string) :=
  match tasks with
  | [] => ret st
  | task :: rest =>
      let* r := task in
      run_sequential rest (record_child r st)
  end.

(** The children of a level: the Applications nested in the rendered
    content, then the children of each nested ApplicationSet. *)
Definition discover_children `{YamlLoader} `{FileSystem}
    (app : ArgoAppConfig.t) (rendered_content : string) (repo_root : Path)
    (chart_path_resolver : string -> Path) : list ArgoAppConfig.t :=
  let '(child_apps, child_appsets) :=
    parse_argocd_resources_from_manifest rendered_content
      (ArgoAppConfig.source_file app) chart_path_resolver in
  foldl (fun all_child_apps appset =>
           all_child_apps ++ ArgoAppSetConfig.to_app_configs appset
                               chart_path_resolver repo_root)
        child_apps child_appsets.

(** The result of a level from what its loop gathered. *)
Definition level_result (msg : string) (total_children : Z)
    (st : list string * list string) : bool * string * list string :=
  let '(all_rendered, child_errors) := st in
  if bool_decide (total_children > 0) then
    let error_msg :=
      match child_errors with
      | [] => EmptyString
      | _ :: _ => " (errors: " +:+ Py.join "; " child_errors +:+ ")"
      end in
    (true,
     "Rendered with " +:+ pretty (Z.of_nat (length all_rendered) - 1)
       +:+ " nested resources" +:+ error_msg,
     all_rendered)
  else (true, msg, all_rendered).

(** The body of [render_recursive]; [self] is the function itself, called
    through [_render_child_app] for the children. *)
Definition render_recursive_body `{YamlLoader} `{FileSystem} `{Renderer} `{WorkerPool}
    (self :
       ArgoAppConfig.t -> Path -> Path -> (string -> Path) -> bool -> Z -> Z ->
       bool -> Z -> M (bool * string * list string))
    (app : ArgoAppConfig.t) (output_dir repo_root : Path)
    (chart_path_resolver : string -> Path) (include_crds : bool)
    (max_depth current_depth : Z) (parallel : bool) (max_workers : Z)
  : M (bool * string * list string) :=
  if bool_decide (current_depth >= max_depth) then
    ret (true, "Max recursion depth (" +:+ pretty max_depth +:+ ") reached", [])
  else
    let* (success, rendered_content, msg) :=
       call (HelmTemplate (ArgoAppConfig.name app))
            (render_helm_chart_to_string app repo_root chart_path_resolver
               include_crds) in
    if negb success then ret (false, msg, []) else
    let* _ := call (WriteRendered output_dir)
                   (_write_rendered_output rendered_content output_dir) in
    let all_child_apps :=
      discover_children app rendered_content repo_root chart_path_resolver in
    let all_rendered := [ArgoAppConfig.name app] in
    let child_errors := [] in
    let child_task child_app :=
      _render_child_app self child_app output_dir repo_root chart_path_resolver
        include_crds max_depth current_depth in
    let* st :=
       match all_child_apps with
       | [] => ret (all_rendered, child_errors)
       | _ :: _ =>
           let* st :=
             (if parallel && bool_decide (Z.of_nat (length all_child_apps) > 1)
              then
                run_pool max_workers
                  (map (fun child_app =>
                          (ArgoAppConfig.name child_app, child_task child_app))
                       all_child_apps)
                  (all_rendered, child_errors)
              else
                run_sequential (map child_task all_child_apps)
                  (all_rendered, child_errors)) in
           let* _ := call (WriteCombined output_dir)
                          (_write_combined_recursive_output output_dir) in
           ret st
       end in
    let total_children := Z.of_nat (length all_child_apps) in
    ret (level_result msg total_children st).

(** A call that finds no fuel left. *)
Definition out_of_fuel
  : ArgoAppConfig.t -> Path -> Path -> (string -> Path) -> bool -> Z -> Z ->
    bool -> Z -> M (bool * string * list string) :=
  fun _ _ _ _ _ _ _ _ _ => None.

(** [render_recursive] with [fuel] levels of recursion below it. *)
Fixpoint render_recursive_fuel `{YamlLoader} `{FileSystem} `{Renderer} `{WorkerPool}
    (fuel : nat)
  : ArgoAppConfig.t -> Path -> Path -> (string -> Path) -> bool -> Z -> Z ->
    bool -> Z -> M (bool * string * list string) :=
  render_recursive_body
    match fuel with
    | O => out_of_fuel
    | S fuel' => render_recursive_fuel fuel'
    end.

(** [render_recursive]: each call descends one level and the descent
    stops at [max_depth], so [max_depth - current_depth] levels of fuel
    are enough (see [render_recursive_returns]). *)
Definition render_recursive `{YamlLoader} `{FileSystem} `{Renderer} `{WorkerPool}
    (app : ArgoAppConfig.t) (output_dir repo_root : Path)
    (chart_path_resolver : string -> Path) (include_crds : bool)
    (max_depth current_depth : Z) (parallel : bool) (max_workers : Z)
  : M (bool * string * list string) :=
  render_recursive_fuel (Z.to_nat (max_depth - current_depth)) app output_dir
    repo_root chart_path_resolver include_crds max_depth current_depth parallel
    max_workers.

(** ** Diff engine ([rita/commands/render.py]) *)

(** [difflib.unified_diff(a, b, fromfile=..., tofile=..., n=...)], as a
    list of lines. *)
Class Difflib : Type := {
  unified_diff : list string -> list string -> string -> string -> Z -> list string
}.

(** The built-in [hash] on strings. *)
Class PyHash : Type := {
  hash : string -> Z
}.

(** The line feed, and the document separator of a manifest stream. *)
Definition LF : string := String "010"%char EmptyString.
Definition doc_separator : string := LF +:+ "---" +:+ LF.

Definition _get_manifest_name (doc : ArgoDocument.t) : string :=
  let kind := default "Unknown" (ArgoDocument.kind doc) in
  let metadata := default ArgoMetadata.empty (ArgoDocument.metadata doc) in
  let name := default "unnamed" (ArgoMetadata.name metadata) in
  let namespace := default EmptyString (ArgoMetadata.namespace metadata) in
  if decide (namespace = "") then kind +:+ "/" +:+ name
  else kind +:+ "/" +:+ namespace +:+ "/" +:+ name.

(** One iteration of the loop of [parse_docs]. *)
Definition parse_doc `{YamlLoader} `{PyHash}
    (result : gmap string (string * yaml_doc)) (raw : string)
  : gmap string (string * yaml_doc) :=
  let raw := Py.strip raw in
  if decide (raw = "") then result
  else
    match safe_load raw with
    | Some (YDoc doc) =>
        let identity := _get_manifest_name doc in
        <[identity := (raw, YDoc doc)]> result
    | Some YOther => result
    | None => <["unparseable-" +:+ pretty (hash raw) := (raw, YOther)]> result
    end.

(** The local function [parse_docs] of [_diff_manifests]. *)
Definition parse_docs `{YamlLoader} `{PyHash} (docs_raw : list string)
  : gmap string (string * yaml_doc) :=
  foldl parse_doc ∅ docs_raw.

(** [docs.get(identity, ("", {}))[0]] *)
Definition raw_of (docs : gmap string (string * yaml_doc)) (identity : string) : string :=
  (default (EmptyString, YOther) (docs !! identity)).1.

(** The lines of an added ([sign = "+"], [title = "+++ NEW: "]) or removed
    ([sign = "-"], [title = "--- REMOVED: "]) block. *)
Definition listing_block (title sign identity : string) (lines : list string)
    (max_lines_per_manifest : Z) : list string :=
  let diff_lines := [title +:+ identity +:+ LF] in
  let diff_lines :=
    foldl (fun acc line => acc ++ [sign +:+ Py.rstrip line +:+ LF])
          diff_lines (Py.slice_to lines max_lines_per_manifest) in
  if bool_decide (Z.of_nat (length lines) > max_lines_per_manifest)
  then diff_lines ++
       ["... (" +:+ pretty (Z.of_nat (length lines) - max_lines_per_manifest)
        +:+ " more lines)" +:+ LF]
  else diff_lines.

(** The body of [for identity in sorted(all_identities)]: the lines of
    the block of [identity], or [None] where the loop [continue]s. *)
Definition diff_block `{Difflib}
    (baseline_docs new_docs : gmap string (string * yaml_doc))
    (max_lines_per_manifest : Z) (identity : string) : option (list string) :=
  let baseline_raw := raw_of baseline_docs identity in
  let new_raw := raw_of new_docs identity in
  if decide (baseline_raw = new_raw) then None
  else
    let baseline_lines :=
      if decide (baseline_raw = "") then [] else Py.splitlines_keepends baseline_raw in
    let new_lines :=
      if decide (new_raw = "") then [] else Py.splitlines_keepends new_raw in
    if decide (baseline_raw = "") then
      Some (listing_block "+++ NEW: " "+" identity new_lines max_lines_per_manifest)
    else if decide (new_raw = "") then
      Some (listing_block "--- REMOVED: " "-" identity baseline_lines
              max_lines_per_manifest)
    else
      let diff :=
        unified_diff baseline_lines new_lines ("baseline/" +:+ identity)
          ("current/" +:+ identity) 150 in
      match diff with
      | [] => None
      | _ :: _ =>
          if bool_decide (Z.of_nat (length diff) > max_lines_per_manifest)
          then Some (Py.slice_to diff max_lines_per_manifest ++
                     ["... (truncated, showing first " +:+
                      pretty max_lines_per_manifest +:+ " lines)" +:+ LF])
          else Some diff
      end.

(** [sorted(set(baseline_docs.keys()) | set(new_docs.keys()))] *)
Definition sorted_identities (baseline_docs new_docs : gmap string (string * yaml_doc))
  : list string :=
  merge_sort String.le (elements (dom baseline_docs ∪ dom new_docs)).

Definition _diff_manifests `{YamlLoader} `{PyHash} `{Difflib}
    (baseline_content new_content : string) (max_lines_per_manifest : Z)
  : bool * string :=
  let baseline_docs_raw := Py.split baseline_content doc_separator in
  let new_docs_raw := Py.split new_content doc_separator in
  let baseline_docs := parse_docs baseline_docs_raw in
  let new_docs := parse_docs new_docs_raw in
  let diffs :=
    foldl (fun diffs identity =>
             match diff_block baseline_docs new_docs max_lines_per_manifest identity with
             | Some diff_lines => diffs ++ [Py.join "" diff_lines]
             | None => diffs
             end)
          [] (sorted_identities baseline_docs new_docs) in
  match diffs with
  | [] => (false, EmptyString)
  | _ :: _ => (true, Py.join LF diffs)
  end.

(** ** Template variables ([resolve_template_variables]) *)

(** The part of Python's [re] syntax the two patterns of this function
    use: single characters, [\s], [.], the greedy star and the lazy plus,
    and one capturing group around a piece. *)
Inductive char_class : Type :=
| Literal (c : ascii)
| Whitespace
| AnyButNewline.

Inductive quantifier : Type :=
| Once
| GreedyStar
| LazyPlus.

Record piece : Type := Piece {
  piece_quantifier : quantifier;
  piece_class : char_class;
  piece_captured : bool
}.

Definition in_class (cls : char_class) (c : ascii) : bool :=
  match cls with
  | Literal l => bool_decide (c = l)
  | Whitespace => Py.isspace c
  | AnyButNewline => negb (bool_decide (c = "010"%char))
  end.

(** [s[:n]] for a natural [n]. *)
Fixpoint str_take (n : nat) (s : string) : string :=
  match n, s with
  | O, _ => EmptyString
  | S _, EmptyString => EmptyString
  | S n', String c s' => String c (str_take n' s')
  end.

(** A match found by the backtracking matcher: how many characters it
    spans and what group 1 holds. *)
Definition found : Type := nat * option string.

(** [cls*]: take as many characters as the class allows, and give them
    back one at a time while the rest of the pattern fails. *)
Fixpoint greedy_star (cls : char_class) (rest : nat -> string -> option found)
    (k : nat) (cur : string) : option found :=
  match cur with
  | String c cur' =>
      if in_class cls c then
        match greedy_star cls rest (S k) cur' with
        | Some r => Some r
        | None => rest k cur
        end
      else rest k cur
  | EmptyString => rest k cur
  end.

(** [cls+?] after its first character: try the rest of the pattern
    first, and take one more character only when it fails. *)
Fixpoint lazy_more (cls : char_class) (rest : nat -> string -> option found)
    (k : nat) (cur : string) : option found :=
  match rest k cur with
  | Some r => Some r
  | None =>
      match cur with
      | String c cur' => if in_class cls c then lazy_more cls rest (S k) cur' else None
      | EmptyString => None
      end
  end.

(** The match of a piece that took the first [k] characters of [s],
    from the match [r] of the rest of the pattern behind them. *)
Definition behind (captured : bool) (s : string) (k : nat) (r : option found)
  : option found :=
  match r with
  | Some (n, group) =>
      Some ((k + n)%nat, if captured then Some (str_take k s) else group)
  | None => None
  end.

(** The matcher anchored at the start of [s] ([pattern.match]). *)
Fixpoint match_here (re : list piece) (s : string) : option found :=
  match re with
  | [] => Some (O, None)
  | Piece q cls captured :: re' =>
      let rest (k : nat) (cur : string) : option found :=
        behind captured s k (match_here re' cur) in
      match q with
      | Once =>
          match s with
          | String c s' => if in_class cls c then rest 1%nat s' else None
          | EmptyString => None
          end
      | GreedyStar => greedy_star cls rest O s
      | LazyPlus =>
          match s with
          | String c s' => if in_class cls c then lazy_more cls rest 1%nat s' else None
          | EmptyString => None
          end
      end
  end.

(** [re.sub(pattern, repl, s)] for a pattern that matches no empty
    string: the leftmost match is replaced and the scan goes on after it
    ([skip] counts the characters of the match still to pass). *)
Fixpoint sub_scan (re : list piece) (repl : string -> option string -> string)
    (skip : nat) (s : string) : string :=
  match s with
  | EmptyString => EmptyString
  | String c s' =>
      match skip with
      | S k => sub_scan re repl k s'
      | O =>
          match match_here re s with
          | Some (S n, group) => repl (str_take (S n) s) group +:+ sub_scan re repl n s'
          | _ => String c (sub_scan re repl O s')
          end
      end
  end.

Definition re_sub (re : list piece) (repl : string -> option string -> string)
    (s : string) : string := sub_scan re repl O s.

Definition lit (c : ascii) : piece := Piece Once (Literal c) false.

(** The pattern [\{\{\s*`\{\{`\s*\}\}(.+?)\{\{\s*`\}\}`\s*\}\}]. *)
Definition escaped_variable_pattern : list piece :=
  [lit "{"; lit "{"; Piece GreedyStar Whitespace false;
   lit "`"; lit "{"; lit "{"; lit "`"; Piece GreedyStar Whitespace false;
   lit "}"; lit "}";
   Piece LazyPlus AnyButNewline true;
   lit "{"; lit "{"; Piece GreedyStar Whitespace false;
   lit "`"; lit "}"; lit "}"; lit "`"; Piece GreedyStar Whitespace false;
   lit "}"; lit "}"]%char.

(** The pattern [\{\{(.+?)\}\}]. *)
Definition variable_pattern : list piece :=
  [lit "{"; lit "{"; Piece LazyPlus AnyButNewline true; lit "}"; lit "}"]%char.

(** The replacement template ["{{\1}}"]. *)
Definition plain_variable (whole : string) (group : option string) : string :=
  "{{" +:+ default EmptyString group +:+ "}}".

(** [str(value)] for the values of the variable map. *)
Class PyStr (V : Type) : Type := str : V -> string.

(** The local function [replace_var]. *)
Definition replace_var {V : Type} `{PyStr V} (variables : gmap string V)
    (whole : string) (group : option string) : string :=
  let var_name := Py.strip (default EmptyString group) in
  match variables !! var_name with
  | Some value => str value
  | None => whole
  end.

Definition resolve_template_variables {V : Type} `{PyStr V}
    (template_str : string) (variables : gmap string V) : string :=
  let unescaped := re_sub escaped_variable_pattern plain_variable template_str in
  re_sub variable_pattern (replace_var variables) unescaped.

(** ** Fixtures

    Small concrete worlds (a YAML loader and a file system given by
    tables) and inputs, on which the definitions above are run. *)

Module Fixtures.

(** A loader that knows the documents of the listed contents and reads
    every other content as an empty stream. *)
Definition table_loader (streams : list (string * (list yaml_doc * bool)))
    (singles : list (string * option yaml_doc)) : YamlLoader :=
  {| safe_load := fun raw =>
       default (Some YOther) (snd <$> List.find (fun e => bool_decide (e.1 = raw)) singles);
     safe_load_all := fun content =>
       default ([], false)
         (snd <$> List.find (fun e => bool_decide (e.1 = content)) streams) |}.

(** A file system with the listed files, existing paths and
    kustomization directories. *)
Definition table_fs (files : list (Path * string)) (existing kustomize_dirs : list Path)
  : FileSystem :=
  {| path_exists := fun p => bool_decide (p ∈ existing);
     read_text := fun p => snd <$> List.find (fun e => bool_decide (e.1 = p)) files;
     _is_kustomize_directory := fun p => bool_decide (p ∈ kustomize_dirs) |}.

Definition chart_path_resolver (chart_name : string) : Path := "charts/" +:+ chart_name.

Definition path_source (path : string) : ArgoSource.t :=
  ArgoSource.Build (Some "https://github.com/example/repo") None None (Some path) None None.

Definition chart_source (chart : string) : ArgoSource.t :=
  ArgoSource.Build (Some "ghcr.io/example") (Some chart) (Some "1.0.0") None None None.

Definition application_doc (name : string) (sources : list ArgoSource.t) : ArgoDocument.t :=
  ArgoDocument.Build (Some "argoproj.io/v1alpha1") (Some "Application")
    (Some (ArgoMetadata.Build (Some name) None))
    (Some (ArgoSpec.Build None (Some sources)
             (Some (ArgoDestination.Build None (Some "prod"))) None None)).

(** An Application with two Kustomize overlays and two plain
    directories among its sources. *)
Definition multi_sources : list ArgoSource.t :=
  [chart_source "web"; path_source "overlays/first"; path_source "manifests/first";
   chart_source "api"; path_source "overlays/second"; path_source "manifests/second"].

Definition multi_fs : FileSystem :=
  table_fs [("apps/multi.yaml", "multi")] []
    ["overlays/first"; "overlays/second"].

Definition multi_loader : YamlLoader :=
  table_loader [("multi", ([YDoc (application_doc "multi" multi_sources)], false))] [].

Definition helm_values (files : list string) : ArgoHelmConfig.t :=
  ArgoHelmConfig.Build None (Some files) None.

End Fixtures.

(** ** Reference definitions

    Notions the statements below are phrased with. *)

(** What the loop of [_extract_values_files] does to one entry. *)
Definition strip_values_alias (vf : string) : string :=
  if Py.startswith vf "$values/" then Py.replace vf "$values/" "" else vf.

(** The path a source contributes to the Kustomize ([kustomize = true])
    or to the plain-manifests ([kustomize = false]) slot of
    [parse_argocd_application], if any. *)
Definition path_candidate `{FileSystem} (kustomize : bool) (src : ArgoSource.t)
  : option string :=
  match ArgoSource.path src with
  | Some path =>
      if negb (str_truthy (ArgoSource.ref src)) && str_truthy (Some path)
         && bool_decide (_is_kustomize_directory path = kustomize)
      then Some path else None
  | None => None
  end.

Definition has_chart (src : ArgoSource.t) : bool :=
  bool_decide (is_Some (ArgoSource.chart src)).

(** The elements of the list generators of an ApplicationSet document,
    in document order. *)
Definition list_generator_elements (doc : ArgoDocument.t) : list ArgoGeneratorElement :=
  let spec := default ArgoSpec.empty (ArgoDocument.spec doc) in
  concat ((fun gen =>
             match ArgoGenerator.list_ gen with
             | Some list_gen => default [] (ArgoListGenerator.elements list_gen)
             | None => []
             end) <$> default [] (ArgoSpec.generators spec)).

(** The [template.spec] of an ApplicationSet document. *)
Definition template_spec_of (doc : ArgoDocument.t) : ArgoApplicationSetTemplateSpec.t :=
  let spec := default ArgoSpec.empty (ArgoDocument.spec doc) in
  let template := default ArgoApplicationSetTemplate.empty (ArgoSpec.template spec) in
  default ArgoApplicationSetTemplateSpec.empty (ArgoApplicationSetTemplate.spec template).

(** [template.spec.destination.namespace], ["default"] when not given. *)
Definition destination_namespace_of (doc : ArgoDocument.t) : string :=
  match ArgoApplicationSetTemplateSpec.destination (template_spec_of doc) with
  | Some destination => default "default" (ArgoDestination.namespace destination)
  | None => "default"
  end.

(** The [helm.valuesObject] of the first chart-bearing template source. *)
Definition values_overlay_of (doc : ArgoDocument.t) : option yaml_value :=
  match List.find has_chart
          (default [] (ArgoApplicationSetTemplateSpec.sources (template_spec_of doc))) with
  | Some source =>
      match ArgoSource.helm source with
      | Some helm_config => ArgoHelmConfig.valuesObject helm_config
      | None => None
      end
  | None => None
  end.

(** The [origin] of a generator element. *)
Definition origin_of (elem : ArgoGeneratorElement) : string :=
  default EmptyString (elem !! "origin").

Module AppSetFixture.
(** An ApplicationSet stream with two list generators around a generator
    of another kind. *)
Definition appset_doc : ArgoDocument.t :=
  ArgoDocument.Build (Some "argoproj.io/v1alpha1") (Some "ApplicationSet")
    (Some (ArgoMetadata.Build (Some "features") (Some "argocd")))
    (Some (ArgoSpec.Build None None None
       (Some [ArgoGenerator.Build (Some (ArgoListGenerator.Build (Some
                [ {[ "name" := "app-config"; "origin" := "patient-app-config";
                     "version" := "0.1.11"; "valuesFile" := "feature-values.yaml" ]} ])));
              ArgoGenerator.Build None;
              ArgoGenerator.Build (Some (ArgoListGenerator.Build (Some
                [ {[ "name" := "app-stack"; "origin" := "test-chart";
                     "version" := "0.2.14"; "dependsOn" := "app-config" ]} ])))])
       (Some (ArgoApplicationSetTemplate.Build (Some
          (ArgoApplicationSetTemplateSpec.Build
             (Some [ArgoSource.Build (Some "https://github.com/example/values")
                      None None None (Some "values") None;
                    ArgoSource.Build (Some "ghcr.io/example") (Some "helm-charts/x")
                      None None None
                      (Some (ArgoHelmConfig.Build None None
                               (Some (YMap [("enabled", YBool true)]))))])
             (Some (ArgoDestination.Build None (Some "test-namespace"))))))))).

Definition appset_loader : YamlLoader :=
  Fixtures.table_loader [("appset", ([YOther; YDoc appset_doc], true))] [].
End AppSetFixture.

(** What makes the handler of the pool loop re-raise: the exception is an
    [AWSTokenExpiredError], or its [__cause__] is one. *)
Definition auth_signal (e : exn) : bool :=
  is_token_expired e ||
  match exn_cause e with
  | Some cause => is_token_expired cause
  | None => false
  end.

(** The exception the handler re-raises for [e]. *)
Definition reraised (e : exn) : exn :=
  if is_token_expired e then e
  else match exn_cause e with
       | Some cause => from_None cause
       | None => e
       end.

(** The entry the pool loop records for a task that raised, and the one
    both loops record for a child that returned a failure. *)
Definition raised_entry (name : string) (e : exn) : string :=
  name +:+ ": " +:+ exn_str e.

Definition failed_entry (name msg : string) : string := name +:+ ": " +:+ msg.

(** A small app-of-apps tree: [root] renders to a stream with the
    Applications [a], [b] and [c]; [solo] renders to a stream with [b]
    alone; every other chart renders to a stream without descriptors. *)
Module TreeFixture.

Definition app (name : string) : ArgoAppConfig.t :=
  ArgoAppConfig.init name "ghcr.io/example" name "1.0.0" [] "prod" name false None
    (Some name) None false None None.

Definition child_doc (name : string) : yaml_doc :=
  YDoc (Fixtures.application_doc name [Fixtures.chart_source name]).

Definition loader : YamlLoader :=
  Fixtures.table_loader
    [("root-out", ([child_doc "a"; child_doc "b"; child_doc "c"], false));
     ("solo-out", ([child_doc "b"], false))] [].

Definition fs : FileSystem := Fixtures.table_fs [] [] [].

(** A renderer in which chart [b] does [b_does]; writes succeed. *)
Definition renderer (b_does : result (bool * string * string)) : Renderer :=
  {| render_helm_chart_to_string := fun app _ _ _ =>
       if decide (ArgoAppConfig.name app = "root") then Ok (true, "root-out", "Chart pulled from OCI")
       else if decide (ArgoAppConfig.name app = "solo") then Ok (true, "solo-out", "Chart pulled from OCI")
       else if decide (ArgoAppConfig.name app = "b") then b_does
       else Ok (true, "leaf-out", "Chart pulled from OCI");
     _write_rendered_output := fun _ _ => Ok 1;
     _write_combined_recursive_output := fun _ => Ok tt |}.

Definition in_order : WorkerPool := {| as_completed := fun A l => l |}.
Definition last_first : WorkerPool := {| as_completed := fun A l => rev l |}.

Definition os_error : exn :=
  Exn (OtherException "OSError") "[Errno 28] No space left on device" None.

Definition token_expired : exn :=
  Exn AWSTokenExpiredError "AWS SSO token has expired. Run: aws sso login" None.

Definition wrapped_token_expired : exn :=
  Exn (OtherException "RuntimeError") "chart cache unavailable" (Some token_expired).

Definition helm_failure : result (bool * string * string) :=
  Ok (false, "", "Helm template failed: boom").

End TreeFixture.

(** What a child task hands to its parent for the outcome [r] of the
    child's own [render_recursive] call. *)
Definition task_result (name : string) (r : result (bool * string * list string))
  : result child_result :=
  match r with
  | Ok (success, msg, grandchildren) => Ok (name, success, msg, grandchildren)
  | Raise e => Raise e
  end.

(** The key under which [parse_docs] files a raw document, if it keeps
    it: the manifest name of a mapping, a hash key for text the loader
    rejects, nothing for blank text and for values that are no mapping. *)
Definition identity_of `{YamlLoader} `{PyHash} (raw : string) : option string :=
  let raw := Py.strip raw in
  if decide (raw = "") then None
  else
    match safe_load raw with
    | Some (YDoc doc) => Some (_get_manifest_name doc)
    | Some YOther => None
    | None => Some ("unparseable-" +:+ pretty (hash raw))
    end.

(** The truncation notes of the diff blocks. *)
Definition more_lines_note (hidden : Z) : string :=
  "... (" +:+ pretty hidden +:+ " more lines)" +:+ LF.

Definition truncated_note (shown : Z) : string :=
  "... (truncated, showing first " +:+ pretty shown +:+ " lines)" +:+ LF.

(** A manifest stream in which the identity [ConfigMap/prod/settings]
    occurs twice around a Service, and the same stream without the first
    occurrence. *)
Module DiffFixture.

Definition configmap_doc : ArgoDocument.t :=
  ArgoDocument.Build (Some "v1") (Some "ConfigMap")
    (Some (ArgoMetadata.Build (Some "settings") (Some "prod"))) None.

Definition service_doc : ArgoDocument.t :=
  ArgoDocument.Build (Some "v1") (Some "Service")
    (Some (ArgoMetadata.Build (Some "web") None)) None.

Definition loader : YamlLoader :=
  Fixtures.table_loader []
    [("kind: ConfigMap # old", Some (YDoc configmap_doc));
     ("kind: ConfigMap # new", Some (YDoc configmap_doc));
     ("kind: Service", Some (YDoc service_doc));
     ("{{ broken", None)].

Definition hasher : PyHash := {| hash := fun raw => Z.of_nat (String.length raw) |}.

(** A stand-in for [difflib]: the two labels, then both sides. *)
Definition difflib : Difflib :=
  {| unified_diff := fun a b fromfile tofile n =>
       if decide (a = b) then []
       else ["--- " +:+ fromfile +:+ LF; "+++ " +:+ tofile +:+ LF]
            ++ (String.app "-" <$> a) ++ (String.app "+" <$> b) |}.

Definition with_duplicate : string :=
  "kind: ConfigMap # old" +:+ doc_separator +:+ "kind: Service"
    +:+ doc_separator +:+ "kind: ConfigMap # new".

Definition without_duplicate : string :=
  "kind: Service" +:+ doc_separator +:+ "kind: ConfigMap # new".

End DiffFixture.

(** *** The diff blocks, as the specification words them *)

(** The line cap of a block ([max_lines_per_manifest] by default). *)
Definition line_cap : nat := 250.

(** One listed line of an added or removed document. *)
Definition listed (sign line : string) : string := sign +:+ Py.rstrip line +:+ LF.

(** An added ([title = "+++ NEW: "], [sign = "+"]) or removed block: the
    identity, then at most [line_cap] lines of the document, then a note
    when lines were left out. *)
Definition listing (title sign identity : string) (lines : list string) : list string :=
  (title +:+ identity +:+ LF)
    :: (listed sign <$> take line_cap lines)
    ++ (if decide (line_cap < length lines)%nat
        then [more_lines_note (Z.of_nat (length lines) - Z.of_nat line_cap)]
        else []).

(** A changed block: the unified diff, cut after [line_cap] lines. *)
Definition capped (diff : list string) : list string :=
  if decide (line_cap < length diff)%nat
  then take line_cap diff ++ [truncated_note (Z.of_nat line_cap)]
  else diff.

(** The block of an identity between two identity-to-text maps; an empty
    block is no block. *)
Definition block_of `{Difflib} (baseline_docs new_docs : gmap string (string * yaml_doc))
    (identity : string) : list string :=
  let baseline_raw := raw_of baseline_docs identity in
  let new_raw := raw_of new_docs identity in
  if decide (baseline_raw = new_raw) then []
  else if decide (baseline_raw = "") then
    listing "+++ NEW: " "+" identity (Py.splitlines_keepends new_raw)
  else if decide (new_raw = "") then
    listing "--- REMOVED: " "-" identity (Py.splitlines_keepends baseline_raw)
  else
    capped (unified_diff (Py.splitlines_keepends baseline_raw)
              (Py.splitlines_keepends new_raw)
              ("baseline/" +:+ identity) ("current/" +:+ identity) 150).


(** *** Patterns and template variables, as the specification words them *)

(** Every character of [u] is in the class. *)
Fixpoint all_in (cls : char_class) (u : string) : bool :=
  match u with
  | EmptyString => true
  | String c u' => in_class cls c && all_in cls u'
  end.

(** The language of a pattern: [Matches re w group] when the text [w] as
    a whole is matched by [re], group 1 holding [group]; no order among
    the ways to match is implied. *)
Inductive Matches : list piece -> string -> option string -> Prop :=
| Matches_nil : Matches [] EmptyString None
| Matches_once cls captured re c w group :
    in_class cls c = true ->
    Matches re w group ->
    Matches (Piece Once cls captured :: re) (String c w)
      (if captured then Some (String c EmptyString) else group)
| Matches_star cls captured re u w group :
    all_in cls u = true ->
    Matches re w group ->
    Matches (Piece GreedyStar cls captured :: re) (u +:+ w)
      (if captured then Some u else group)
| Matches_plus cls captured re u w group :
    all_in cls u = true -> u <> EmptyString ->
    Matches re w group ->
    Matches (Piece LazyPlus cls captured :: re) (u +:+ w)
      (if captured then Some u else group).

(** [whole] is a template variable [{{name}}]: a name of one or more
    characters, none of them a line feed, between double braces. *)
Definition is_variable (whole name : string) : Prop :=
  whole = "{{" +:+ name +:+ "}}"
  /\ name <> EmptyString /\ all_in AnyButNewline name = true.

(** [whole] is the escaped idiom for the variable [name]: the escaped
    opening braces, the name, the escaped closing braces, with optional
    white space inside the outer braces. *)
Definition is_escaped_variable (whole name : string) : Prop :=
  exists ws1 ws2 ws3 ws4 : string,
    all_in Whitespace ws1 = true /\ all_in Whitespace ws2 = true
    /\ all_in Whitespace ws3 = true /\ all_in Whitespace ws4 = true
    /\ whole = "{{" +:+ ws1 +:+ "`{{`" +:+ ws2 +:+ "}}" +:+ name
               +:+ "{{" +:+ ws3 +:+ "`}}`" +:+ ws4 +:+ "}}"
    /\ name <> EmptyString /\ all_in AnyButNewline name = true.

(** [Rewrites occurs repl s out]: [out] is [s] read from left to right,
    where, at the first position at which an occurrence starts, the
    occurrence with the shortest name is replaced by what [repl] gives
    for it and reading goes on after it, and every other character is
    copied. *)
Inductive Rewrites (occurs : string -> string -> Prop)
    (repl : string -> string -> string) : string -> string -> Prop :=
| Rewrites_end : Rewrites occurs repl EmptyString EmptyString
| Rewrites_copy c s out :
    (forall whole name rest, occurs whole name -> String c s <> whole +:+ rest) ->
    Rewrites occurs repl s out ->
    Rewrites occurs repl (String c s) (String c out)
| Rewrites_replace whole name rest out :
    occurs whole name ->
    (forall whole' name' rest',
       occurs whole' name' -> whole +:+ rest = whole' +:+ rest' ->
       (String.length name <= String.length name')%nat) ->
    Rewrites occurs repl rest out ->
    Rewrites occurs repl (whole +:+ rest) (repl whole name +:+ out).

(** What a variable is replaced by: the string form of its value when
    the stripped name is in the map, itself otherwise. *)
Definition substitution {V : Type} `{PyStr V} (variables : gmap string V)
    (whole name : string) : string :=
  match variables !! Py.strip name with
  | Some value => str value
  | None => whole
  end.

(** What the escaped idiom is replaced by. *)
Definition unescaped_variable (whole name : string) : string :=
  "{{" +:+ name +:+ "}}".

Module TemplateFixture.
Definition str_of_string : PyStr string := fun s => s.
Definition element : gmap string string :=
  {[ "origin" := "foo"; "version" := "1.2.3" ]}.
End TemplateFixture.

(** ** Further Python string primitives *)

Module PyText.

(** [str.lower] on one character (code points below 256): the letters
    A-Z and the Latin-1 capitals other than the multiplication sign. *)
Definition lower_char (c : ascii) : ascii :=
  let n := N_of_ascii c in
  if ((65 <=? n) && (n <=? 90)
      || (192 <=? n) && (n <=? 222) && negb (n =? 215))%N
  then ascii_of_N (n + 32) else c.

(** [s.lower()] *)
Fixpoint lower (s : string) : string :=
  match s with
  | EmptyString => EmptyString
  | String c s' => String (lower_char c) (lower s')
  end.

(** [s.endswith(suffix)] *)
Definition endswith (s suffix : string) : bool :=
  bool_decide (String.length suffix <= String.length s)%nat
  && bool_decide (Py.drop (String.length s - String.length suffix) s = suffix).

(** The rightmost occurrence of a non-empty [sep] in [s]: what stands
    before it and what stands after it. *)
Fixpoint rpartition (sep s : string) : option (string * string) :=
  match s with
  | EmptyString => None
  | String c s' =>
      match rpartition sep s' with
      | Some (before, after) => Some (String c before, after)
      | None =>
          if Py.startswith s sep
          then Some (EmptyString, Py.drop (String.length sep) s)
          else None
      end
  end.

(** [s.rsplit(sep, 1)] for a non-empty [sep]. *)
Definition rsplit1 (s sep : string) : list string :=
  match rpartition sep s with
  | Some (before, after) => [before; after]
  | None => [s]
  end.

(** [s[:-n]] for a positive [n]. *)
Definition drop_last (n : nat) (s : string) : string :=
  str_take (String.length s - n) s.

End PyText.

(** ** Chart names ([rita/argocd.py], [rita/helm.py]) *)

Definition appset_charts : list string :=
  ["feature-deployment"; "pharma-feature-deployment"].

Definition is_applicationset_chart (chart_name : string) : bool :=
  existsb (fun appset => Py.contains (PyText.lower chart_name) appset) appset_charts.

(** [app.oci_chart_name or ""] *)
Definition is_appset_producing_app (app : ArgoAppConfig.t) : bool :=
  is_applicationset_chart (ArgoAppConfig.chart_name app)
  || is_applicationset_chart (default EmptyString (ArgoAppConfig.oci_chart_name app)).

(** [extract_applicationsets_from_rendered]: the handler swallows an
    error of the loader, and the documents appended before it stay. *)
Definition extract_applicationsets_from_rendered `{YamlLoader}
    (rendered_content : string) : list ArgoDocument.t :=
  foldl (fun appsets doc =>
           match doc_of_kind "ApplicationSet" doc with
           | Some d => appsets ++ [d]
           | None => appsets
           end)
        [] (safe_load_all rendered_content).1.

Definition OCI_REGISTRY_INDICATORS : list string :=
  ["ghcr.io"; "gcr.io"; "azurecr.io"; "dkr.ecr."; "pkg.dev"; "docker.io";
   "registry.io"; "quay.io"].

Definition TRADITIONAL_REPO_INDICATORS : list string :=
  ["github.io"; "charts."; "/charts"; "/helm"; "hub.jupyter.org"; "tigera.io"].

Definition is_oci_registry (repo_url : string) : bool :=
  let repo_lower := PyText.lower repo_url in
  if Py.startswith repo_lower "oci://" then true
  else if existsb (fun indicator => Py.contains repo_lower indicator)
            TRADITIONAL_REPO_INDICATORS
  then false
  else existsb (fun indicator => Py.contains repo_lower indicator)
         OCI_REGISTRY_INDICATORS.

Definition _extract_registry_host (registry_url : string) : string :=
  let registry := Py.replace (Py.replace registry_url "https://" "") "http://" "" in
  if Py.contains registry "/"
  then default EmptyString (head (Py.split registry "/"))
  else registry.

Module KustomizeFixture.
(** An Application without a chart: a plain directory and a Kustomize
    overlay. *)
Definition sources : list ArgoSource.t :=
  [Fixtures.path_source "manifests"; Fixtures.path_source "overlays/prod"].

Definition fs : FileSystem :=
  Fixtures.table_fs [("apps/overlay.yaml", "overlay")] [] ["overlays/prod"].

Definition loader : YamlLoader :=
  Fixtures.table_loader
    [("overlay", ([YDoc (Fixtures.application_doc "overlay" sources)], false))] [].
End KustomizeFixture.

(** What the loop of a level gathers from the children that returned:
    the resources of those that succeeded, and an entry for each one that
    failed. *)
Definition rendered_of (results : list child_result) : list string :=
  concat ((fun r : child_result =>
             let '(app_name, child_success, child_msg, grandchildren) := r in
             if child_success then grandchildren else []) <$> results).

Definition errors_of (results : list child_result) : list string :=
  omap (fun r : child_result =>
          let '(app_name, child_success, child_msg, grandchildren) := r in
          if child_success then None else Some (failed_entry app_name child_msg))
       results.

(** What [_get_manifest_name] reads off a document: kind, namespace and
    name, with the defaults of its [get] calls. *)
Definition manifest_key (doc : ArgoDocument.t) : string * string * string :=
  let metadata := default ArgoMetadata.empty (ArgoDocument.metadata doc) in
  (default "Unknown" (ArgoDocument.kind doc),
   default EmptyString (ArgoMetadata.namespace metadata),
   default "unnamed" (ArgoMetadata.name metadata)).

(** ** Storage keys ([rita/storage.py]) *)

Module ManifestRef.
Record t : Type := Build {
  env : string;
  app_name : string;
  git_ref : option string
}.

(** The property [key]. *)
Definition key (self : t) : string :=
  if str_truthy (git_ref self)
  then env self +:+ "/" +:+ app_name self +:+ "/"
         +:+ default EmptyString (git_ref self) +:+ "/_all.yaml"
  else env self +:+ "/" +:+ app_name self +:+ "/_all.yaml".
End ManifestRef.

Module ChartRef.
Record t : Type := Build {
  chart_name : string;
  version : string
}.

Definition key (self : t) : string :=
  "_chart_cache/" +:+ chart_name self +:+ "/" +:+ version self +:+ ".tgz".
End ChartRef.

(** The key arithmetic of [S3StorageBackend]; [prefix] is [self.prefix],
    and [keys] are the keys of the objects the paginator yields, page
    after page. *)
Module S3StorageBackend.

Definition _get_key (prefix : string) (ref : ManifestRef.t) : string :=
  prefix +:+ "/" +:+ ManifestRef.key ref.

Definition _get_chart_key (prefix : string) (ref : ChartRef.t) : string :=
  prefix +:+ "/" +:+ ChartRef.key ref.

(** The body of the loop of [list_manifests]: the reference appended
    for one key, if any. *)
Definition manifest_ref_of_key (prefix key : string) : option ManifestRef.t :=
  if PyText.endswith key "/_all.yaml" then
    let rel_key := Py.drop (String.length prefix + 1) key in
    let parts := Py.split rel_key "/" in
    match parts with
    | env_name :: app_name :: third :: rest =>
        Some (ManifestRef.Build env_name app_name
                (match rest with
                 | [] => None
                 | _ :: _ => Some third
                 end))
    | _ => None
    end
  else None.

Definition list_manifests (prefix : string) (keys : list string) : list ManifestRef.t :=
  foldl (fun refs key =>
           match manifest_ref_of_key prefix key with
           | Some ref => refs ++ [ref]
           | None => refs
           end)
        [] keys.

(** The body of the loop of [list_cached_charts]. *)
Definition chart_ref_of_key (self_prefix key : string) : option ChartRef.t :=
  let prefix := self_prefix +:+ "/_chart_cache/" in
  if PyText.endswith key ".tgz" then
    let rel_key := Py.drop (String.length prefix) key in
    match PyText.rsplit1 rel_key "/" with
    | [chart_name; archive] =>
        Some (ChartRef.Build chart_name (PyText.drop_last 4 archive))
    | _ => None
    end
  else None.

Definition list_cached_charts (self_prefix : string) (keys : list string)
  : list ChartRef.t :=
  foldl (fun refs key =>
           match chart_ref_of_key self_prefix key with
           | Some ref => refs ++ [ref]
           | None => refs
           end)
        [] keys.

End S3StorageBackend.

(** [format_timedelta], from [int(delta.total_seconds())]. *)
Definition format_timedelta (total_seconds : Z) : string :=
  if bool_decide (total_seconds < 60) then pretty total_seconds +:+ "s ago"
  else if bool_decide (total_seconds < 3600)
  then pretty (total_seconds `div` 60) +:+ "m ago"
  else if bool_decide (total_seconds < 86400)
  then pretty (total_seconds `div` 3600) +:+ "h ago"
  else pretty (total_seconds `div` 86400) +:+ "d ago".

(** ** Token expiry and the chart cache ([rita/storage.py]) *)

(** [type(e).__name__]: the last component of the qualified name. *)
Definition exn_type_name (e : exn) : string :=
  match e with
  | Exn AWSTokenExpiredError _ _ => "AWSTokenExpiredError"
  | Exn (OtherException qualname) _ _ =>
      default EmptyString (last (Py.split qualname "."))
  end.

(** [AWSTokenExpiredError(profile)] *)
Definition AWSTokenExpiredError_init (profile : option string) : exn :=
  Exn AWSTokenExpiredError
      (if str_truthy profile
       then "AWS SSO token has expired. Run: aws sso login --profile "
              +:+ default EmptyString profile
       else "AWS SSO token has expired. Run: aws sso login")
      None.

(** [raise e from cause] sets [__cause__]. *)
Definition raise_from (e cause : exn) : exn :=
  match e with Exn cls s _ => Exn cls s (Some cause) end.

Definition _is_token_expired_error (error : exn) : bool :=
  let error_str := PyText.lower (exn_str error) in
  let error_type := exn_type_name error in
  Py.contains error_str "token"
  && (Py.contains error_str "expired" || Py.contains error_str "refresh failed")
  || bool_decide (error_type = "TokenRetrievalError").

(** What [download_cached_chart] does with its cache and with the
    destination directory; each step returns or raises. *)
Class ChartCache : Type := {
  cache_profile : option string;
  chart_exists : ChartRef.t -> result bool;
  download_chart : ChartRef.t -> Path -> result bool;
  extract_archive : Path -> Path -> result unit;
  directory_exists : Path -> result bool;
  subdirectories : Path -> result (list Path)
}.

(** The two handlers [except Exception as e] of [download_cached_chart]. *)
Definition cache_failure `{ChartCache} (label : string) (e : exn)
  : result (bool * string * option Path) :=
  if _is_token_expired_error e
  then Raise (raise_from (AWSTokenExpiredError_init cache_profile) e)
  else Ok (false, label +:+ exn_str e, None).

Definition download_cached_chart `{ChartCache} (chart_name version : string)
    (dest_dir : Path) : result (bool * string * option Path) :=
  let ref := ChartRef.Build chart_name version in
  match chart_exists ref with
  | Raise e => cache_failure "Cache check failed: " e
  | Ok false => Ok (false, "Chart not found in cache", None)
  | Ok true =>
      let tgz_path := path_join dest_dir (chart_name +:+ "-" +:+ version +:+ ".tgz") in
      match download_chart ref tgz_path with
      | Raise e => cache_failure "Error loading from cache: " e
      | Ok false => Ok (false, "Failed to download from cache", None)
      | Ok true =>
          match extract_archive tgz_path dest_dir with
          | Raise e => cache_failure "Error loading from cache: " e
          | Ok _ =>
              let chart_dir := path_join dest_dir chart_name in
              match directory_exists chart_dir with
              | Raise e => cache_failure "Error loading from cache: " e
              | Ok true =>
                  Ok (true, "Chart loaded from S3 cache (v" +:+ version +:+ ")",
                      Some chart_dir)
              | Ok false =>
                  match subdirectories dest_dir with
                  | Raise e => cache_failure "Error loading from cache: " e
                  | Ok (subdir :: _) =>
                      Ok (true, "Chart loaded from S3 cache (v" +:+ version +:+ ")",
                          Some subdir)
                  | Ok [] =>
                      Ok (false, "Chart extracted but directory not found", None)
                  end
              end
          end
      end
  end.

Module CacheFixture.
(** A cache whose existence check fails with [e]. *)
Definition failing (e : exn) : ChartCache :=
  {| cache_profile := Some "dev";
     chart_exists := fun _ => Raise e;
     download_chart := fun _ _ => Ok true;
     extract_archive := fun _ _ => Ok tt;
     directory_exists := fun _ => Ok true;
     subdirectories := fun _ => Ok [] |}.

Definition sso_error : exn :=
  Exn (OtherException "TokenRetrievalError") "SSO session is not available" None.
End CacheFixture.

(** ** Applications touched by a change ([rita/commands/render.py]) *)

(** [rita.repository.list_apps_for_env]: the applications of an
    environment, or the exception that reading them raises. *)
Class AppCatalog : Type := {
  list_apps_for_env : string -> result (list ArgoAppConfig.t)
}.

(** [any(conditions)] for one application and one changed file. *)
Definition touches (app : ArgoAppConfig.t) (changed_file : string) : bool :=
  ArgoAppConfig.is_local_chart app
    && Py.startswith changed_file ("charts/" +:+ ArgoAppConfig.chart_name app +:+ "/")
  || Py.startswith changed_file ("kubernetes/" +:+ ArgoAppConfig.name app +:+ "/")
  || bool_decide (changed_file ∈ ArgoAppConfig.values_files app).

(** The loop [for app in apps] with its inner loop, which stops at the
    first changed file that touches the application. *)
Definition affected_in_env (changed_files : list string) (env : string)
    (apps : list ArgoAppConfig.t)
    (affected : list (string * ArgoAppConfig.t * string))
  : list (string * ArgoAppConfig.t * string) :=
  foldl (fun affected app =>
           match List.find (touches app) changed_files with
           | Some changed_file => affected ++ [(env, app, changed_file)]
           | None => affected
           end)
        affected apps.

(** The loop [for env in envs]. *)
Fixpoint affected_from `{AppCatalog} (changed_files envs : list string)
    (affected : list (string * ArgoAppConfig.t * string))
  : result (list (string * ArgoAppConfig.t * string)) :=
  match envs with
  | [] => Ok affected
  | env :: envs' =>
      match list_apps_for_env env with
      | Raise e => Raise e
      | Ok apps =>
          affected_from changed_files envs'
            (affected_in_env changed_files env apps affected)
      end
  end.

Definition _find_affected_apps `{AppCatalog} (changed_files envs : list string)
  : result (list (string * ArgoAppConfig.t * string)) :=
  affected_from changed_files envs [].

Module CatalogFixture.
Definition web : ArgoAppConfig.t :=
  ArgoAppConfig.init "web" "" "web-chart" "1.0.0" ["values/web.yaml"] "prod" "web" true
    None None None false None None.

Definition api : ArgoAppConfig.t :=
  ArgoAppConfig.init "api" "ghcr.io/example" "api" "2.0.0" [] "prod" "api" false
    None None None false None None.

Definition catalog : AppCatalog :=
  {| list_apps_for_env := fun env =>
       if decide (env = "dev") then Ok [web; api] else Ok [] |}.
End CatalogFixture.

(** ** Expansion of one ApplicationSet ([rita/helm.py]) *)


(** [Path.mkdir(parents=True, exist_ok=True)] and writing a text file. *)
Class OutputFiles : Type := {
  mkdir : Path -> result unit;
  write_text : Path -> string -> result unit
}.









Module ExpansionFixture.
(** The chart [features] renders to the ApplicationSet stream of
    [AppSetFixture]; of its children, [app-config] renders and
    [app-stack] fails. *)
Definition renderer : Renderer :=
  {| render_helm_chart_to_string := fun app _ _ _ =>
       if decide (ArgoAppConfig.name app = "features")
       then Ok (true, "appset", "Chart pulled from OCI")
       else if decide (ArgoAppConfig.name app = "app-config")
       then Ok (true, "kind: ConfigMap", "Chart pulled from OCI")
       else Ok (false, "", "Helm template failed: boom");
     _write_rendered_output := fun _ _ => Ok 1;
     _write_combined_recursive_output := fun _ => Ok tt |}.

Definition files : OutputFiles :=
  {| mkdir := fun _ => Ok tt; write_text := fun _ _ => Ok tt |}.
End ExpansionFixture.

(** * Properties *)

(** ** Python strings *)

Lemma app_cons (c : ascii) (s t : string) : String c s +:+ t = String c (s +:+ t).
Proof. reflexivity. Qed.

Lemma app_empty_l (s : string) : "" +:+ s = s.
Proof. reflexivity. Qed.

Lemma startswith_app (old rest : string) : Py.startswith (old +:+ rest) old = true.
Proof.
  induction old as [|c old IH]; [done|].
  rewrite app_cons. cbn [Py.startswith].
  destruct (decide (c = c)); [apply IH | done].
Qed.

Lemma contains_startswith (s sub : string) :
  Py.contains s sub = false -> Py.startswith s sub = false.
Proof. destruct s; simpl; intros H; by apply orb_false_iff in H as [? _]. Qed.

(** Without an occurrence of [old], the scan copies its input. *)
Lemma replace_scan_absent (old new s : string) :
  Py.contains s old = false -> Py.replace_scan old new O s = s.
Proof.
  induction s as [|c s IH]; [done|].
  intros H. pose proof (contains_startswith _ _ H) as Hs.
  cbn [Py.replace_scan]. rewrite Hs. f_equal. apply IH.
  simpl in H. by apply orb_false_iff in H as [_ ?].
Qed.

(** Characters under [skip] are passed over. *)
Lemma replace_scan_skip (old new u rest : string) :
  Py.replace_scan old new (String.length u) (u +:+ rest) = Py.replace_scan old new O rest.
Proof.
  induction u as [|c u IH]; [done|].
  rewrite app_cons. cbn [String.length Py.replace_scan]. apply IH.
Qed.

(** Stripping the alias from [old ++ rest] gives [rest] when [rest] holds
    no further occurrence of it. *)
Lemma replace_leading_only (c : ascii) (old rest : string) :
  Py.contains rest (String c old) = false ->
  Py.replace (String c old +:+ rest) (String c old) "" = rest.
Proof.
  intros H. unfold Py.replace. rewrite app_cons. cbn [Py.replace_scan].
  rewrite <- app_cons, startswith_app. cbn [Nat.pred String.length].
  rewrite replace_scan_skip. by rewrite replace_scan_absent.
Qed.

(** ** Values extraction *)

Lemma extract_values_files_map (helm_config : ArgoHelmConfig.t) :
  _extract_values_files helm_config =
  strip_values_alias <$> default [] (ArgoHelmConfig.valueFiles helm_config).
Proof.
  unfold _extract_values_files.
  generalize (default [] (ArgoHelmConfig.valueFiles helm_config)). intros l.
  enough (forall acc,
    foldl (fun values_files vf =>
             if Py.startswith vf "$values/"
             then values_files ++ [Py.replace vf "$values/" ""]
             else values_files ++ [vf]) acc l = acc ++ (strip_values_alias <$> l))
    as Hgen by apply (Hgen []).
  induction l as [|vf l IH]; intros acc; [by rewrite app_nil_r|].
  cbn [foldl]. rewrite IH, fmap_cons. unfold strip_values_alias.
  destruct (Py.startswith vf "$values/"); by rewrite <- app_assoc.
Qed.

(** C8 (the code departs from the claim). [_extract_values_files] removes
    every occurrence of the [$values/] alias from an entry that starts
    with it, not the leading one only: the rest of the path is not
    returned verbatim when it holds the alias again. *)
Theorem extract_values_files_strips_every_alias :
  _extract_values_files (Fixtures.helm_values ["$values/envs/$values/prod.yaml"])
  = ["envs/prod.yaml"]
  /\ _extract_values_files (Fixtures.helm_values ["$values/envs/$values/prod.yaml"])
     <> ["envs/$values/prod.yaml"].
Proof. split; [reflexivity | discriminate]. Qed.

Lemma extract_values_files_leading_only (helm_config : ArgoHelmConfig.t) (i : nat) (rest : string) :
  default [] (ArgoHelmConfig.valueFiles helm_config) !! i = Some ("$values/" +:+ rest) ->
  Py.contains rest "$values/" = false ->
  _extract_values_files helm_config !! i = Some rest.
Proof.
  intros Hi Hrest. rewrite extract_values_files_map, list_lookup_fmap, Hi.
  cbn [fmap option_fmap option_map]. f_equal. unfold strip_values_alias.
  rewrite startswith_app. by apply replace_leading_only.
Qed.

Lemma extract_values_files_verbatim (helm_config : ArgoHelmConfig.t) (i : nat) (vf : string) :
  default [] (ArgoHelmConfig.valueFiles helm_config) !! i = Some vf ->
  Py.startswith vf "$values/" = false ->
  _extract_values_files helm_config !! i = Some vf.
Proof.
  intros Hi Hvf. rewrite extract_values_files_map, list_lookup_fmap, Hi.
  cbn [fmap option_fmap option_map]. f_equal. unfold strip_values_alias. by rewrite Hvf.
Qed.

Lemma extract_values_files_length (helm_config : ArgoHelmConfig.t) :
  length (_extract_values_files helm_config)
  = length (default [] (ArgoHelmConfig.valueFiles helm_config)).
Proof. by rewrite extract_values_files_map, length_fmap. Qed.

(** ** Source classification ([parse_argocd_application]) *)

Section classification.
Context `{FileSystem}.

Lemma classify_source_helm (sel : source_selection) (src : ArgoSource.t) :
  helm_source (classify_source sel src) =
  match helm_source sel with
  | Some h => Some h
  | None => if has_chart src then Some src else None
  end.
Proof.
  unfold classify_source, has_chart.
  destruct (helm_source sel) as [h|] eqn:Hh.
  - rewrite (bool_decide_eq_false_2 (Some h = None)) by done.
    rewrite andb_false_r.
    repeat (case_match; cbn [helm_source]; try done).
  - rewrite (bool_decide_eq_true_2 (None = None)) by done. rewrite andb_true_r.
    repeat (case_match; cbn [helm_source]; try done).
Qed.

Lemma classify_source_paths (kustomize : bool) (sel : source_selection) (src : ArgoSource.t) :
  (if kustomize then kustomize_source_path else plain_manifests_path)
    (classify_source sel src) =
  match path_candidate kustomize src with
  | Some p => Some p
  | None => (if kustomize then kustomize_source_path else plain_manifests_path) sel
  end.
Proof.
  unfold classify_source, path_candidate.
  match goal with |- context [if ?b then Selection (Some src) _ _ else sel] =>
    set (sel1 := if b then _ else sel) end.
  assert (kustomize_source_path sel1 = kustomize_source_path sel
          /\ plain_manifests_path sel1 = plain_manifests_path sel) as [Hk Hp].
  { subst sel1. by case_match. }
  clearbody sel1.
  destruct (ArgoSource.path src) as [p|]; cbn [is_Some]; last first.
  { rewrite bool_decide_eq_false_2 by (by intros [??]). by destruct kustomize. }
  rewrite bool_decide_eq_true_2 by eauto. rewrite andb_true_l.
  destruct (str_truthy (ArgoSource.ref src)); cbn [negb andb];
    [by destruct kustomize|].
  destruct (str_truthy (Some p)); cbn [andb]; [|by destruct kustomize].
  destruct (_is_kustomize_directory p), kustomize; by cbn.
Qed.

Lemma classify_sources_helm_from (sel : source_selection) (sources : list ArgoSource.t) :
  helm_source (foldl classify_source sel sources) =
  match helm_source sel with
  | Some h => Some h
  | None => List.find has_chart sources
  end.
Proof.
  revert sel. induction sources as [|src sources IH]; intros sel; cbn [foldl List.find].
  { by destruct (helm_source sel). }
  rewrite IH, classify_source_helm.
  destruct (helm_source sel); [done|]. by destruct (has_chart src).
Qed.

Lemma classify_sources_paths_from (kustomize : bool) (sel : source_selection)
    (sources : list ArgoSource.t) :
  (if kustomize then kustomize_source_path else plain_manifests_path)
    (foldl classify_source sel sources) =
  match last (omap (path_candidate kustomize) sources) with
  | Some p => Some p
  | None => (if kustomize then kustomize_source_path else plain_manifests_path) sel
  end.
Proof.
  revert sel. induction sources as [|src sources IH]; intros sel; cbn [foldl omap list_omap].
  { done. }
  rewrite IH, classify_source_paths.
  destruct (path_candidate kustomize src) as [p|]; [|done].
  rewrite last_cons. by destruct (last _).
Qed.

(** The Helm source that is honoured is the first chart-bearing entry. *)
Lemma classify_sources_helm (sources : list ArgoSource.t) :
  helm_source (classify_sources sources) = List.find has_chart sources.
Proof. apply classify_sources_helm_from. Qed.

(** The Kustomize path that is honoured is that of the last entry with a
    Kustomize directory, and likewise for plain manifests. *)
Lemma classify_sources_kustomize (sources : list ArgoSource.t) :
  kustomize_source_path (classify_sources sources)
  = last (omap (path_candidate true) sources).
Proof.
  unfold classify_sources. rewrite (classify_sources_paths_from true).
  by destruct (last _).
Qed.

Lemma classify_sources_plain (sources : list ArgoSource.t) :
  plain_manifests_path (classify_sources sources)
  = last (omap (path_candidate false) sources).
Proof.
  unfold classify_sources. rewrite (classify_sources_paths_from false).
  by destruct (last _).
Qed.
End classification.

(** C7 (the code departs from the claim). Of several Kustomize paths, or
    several plain-manifests paths, [parse_argocd_application] keeps the
    last one, not the first; only the Helm source is the first of its
    kind. *)
Theorem parse_application_keeps_last_path :
  let app :=
    @parse_argocd_application Fixtures.multi_loader Fixtures.multi_fs
      "apps/multi.yaml" Fixtures.chart_path_resolver in
  ArgoAppConfig.oci_chart_name <$> app = Some (Some "web")
  /\ ArgoAppConfig.kustomize_path <$> app = Some (Some "overlays/second")
  /\ ArgoAppConfig.plain_manifests_path <$> app = Some (Some "manifests/second")
  /\ ArgoAppConfig.kustomize_path <$> app <> Some (Some "overlays/first")
  /\ ArgoAppConfig.plain_manifests_path <$> app <> Some (Some "manifests/first").
Proof. vm_compute. repeat split; congruence. Qed.

(** ** ApplicationSet expansion *)

Lemma collect_generator_elements_map (namespace : string) (generators : list ArgoGenerator.t) :
  collect_generator_elements namespace generators =
  generator_element_of namespace <$>
    concat ((fun gen =>
               match ArgoGenerator.list_ gen with
               | Some list_gen => default [] (ArgoListGenerator.elements list_gen)
               | None => []
               end) <$> generators).
Proof.
  unfold collect_generator_elements.
  assert (Hinner : forall (elements : list ArgoGeneratorElement) acc,
    foldl (fun acc elem => acc ++ [generator_element_of namespace elem]) acc elements
    = acc ++ (generator_element_of namespace <$> elements)).
  { induction elements as [|e es IH]; intros acc; cbn [foldl].
    - by rewrite app_nil_r.
    - rewrite IH, fmap_cons. by rewrite <- app_assoc. }
  match goal with |- foldl ?f [] _ = _ =>
    enough (forall acc, foldl f acc generators = acc ++
      (generator_element_of namespace <$>
         concat ((fun gen =>
               match ArgoGenerator.list_ gen with
               | Some list_gen => default [] (ArgoListGenerator.elements list_gen)
               | None => []
               end) <$> generators))) as Hgen by apply (Hgen [])
  end.
  induction generators as [|gen gens IH]; intros acc; cbn [foldl].
  - by rewrite app_nil_r.
  - rewrite IH, fmap_cons. cbn [concat]. rewrite fmap_app.
    destruct (ArgoGenerator.list_ gen) as [list_gen|]; [|done].
    by rewrite Hinner, <- app_assoc.
Qed.

Section expansion.
Context `{FileSystem}.

(** The child [to_app_configs] builds from one generator element. *)
Lemma to_app_configs_map (appset : ArgoAppSetConfig.t)
    (chart_path_resolver : string -> Path) (values_root : Path) :
  exists child_of : ArgoAppSetGeneratorElement.t -> ArgoAppConfig.t,
    ArgoAppSetConfig.to_app_configs appset chart_path_resolver values_root
    = child_of <$> ArgoAppSetConfig.generator_elements appset
    /\ forall elem,
       let origin :=
         default (ArgoAppSetGeneratorElement.chart_name elem)
                 (ArgoAppSetGeneratorElement.extra_fields elem !! "origin") in
       ArgoAppConfig.namespace (child_of elem)
         = ArgoAppSetConfig.destination_namespace appset
       /\ ArgoAppConfig.values_object (child_of elem)
         = ArgoAppSetConfig.values_overlay appset
       /\ ArgoAppConfig.chart_name (child_of elem) = origin
       /\ ArgoAppConfig.oci_chart_name (child_of elem) = Some ("helm-charts/" +:+ origin)
       /\ ArgoAppConfig.release_name (child_of elem) = ArgoAppSetGeneratorElement.name elem
       /\ ArgoAppConfig.values_files (child_of elem)
          = if decide (ArgoAppSetGeneratorElement.values_file elem = "") then []
            else ["kubernetes/" +:+ origin +:+ "/" +:+
                  ArgoAppSetGeneratorElement.values_file elem].
Proof.
  unfold ArgoAppSetConfig.to_app_configs.
  match goal with |- context [foldl (fun apps elem => apps ++ [@?f elem]) [] _] =>
    exists f end.
  split; [|by intros elem; cbn].
  generalize (ArgoAppSetConfig.generator_elements appset). intros l.
  match goal with |- foldl ?g [] l = ?f <$> l =>
    enough (forall acc, foldl g acc l = acc ++ (f <$> l)) as Hgen by apply (Hgen [])
  end.
  induction l as [|e l IH]; intros acc; cbn [foldl].
  - by rewrite app_nil_r.
  - by rewrite IH, fmap_cons, <- app_assoc.
Qed.
End expansion.

Lemma parse_applicationset_from_doc_fields (doc : ArgoDocument.t)
    (source_file : option Path) :
  exists appset,
    _parse_applicationset_from_doc doc source_file = Some appset
    /\ ArgoAppSetConfig.generator_elements appset
       = generator_element_of (ArgoAppSetConfig.namespace appset)
           <$> list_generator_elements doc
    /\ ArgoAppSetConfig.destination_namespace appset = destination_namespace_of doc
    /\ ArgoAppSetConfig.values_overlay appset = values_overlay_of doc.
Proof.
  unfold _parse_applicationset_from_doc.
  destruct (template_chart_source _) as [chart_repo values_overlay] eqn:Hsrc.
  eexists. split; [reflexivity|].
  cbn [ArgoAppSetConfig.generator_elements ArgoAppSetConfig.namespace
       ArgoAppSetConfig.destination_namespace ArgoAppSetConfig.values_overlay].
  split; [apply collect_generator_elements_map|]. split.
  - unfold destination_namespace_of, template_spec_of.
    by destruct (ArgoApplicationSetTemplateSpec.destination _).
  - unfold values_overlay_of, template_spec_of, has_chart.
    unfold template_chart_source in Hsrc.
    destruct (List.find _ _) as [source|]; [|by simplify_eq].
    simplify_eq. by destruct (ArgoSource.helm source).
Qed.

(** The two entry points parse a document alike. *)
Lemma parse_applicationset_from_manifest_doc `{YamlLoader}
    (manifest_content : string) (source_file : option Path) :
  parse_applicationset_from_manifest manifest_content source_file =
  match _find_applicationset_document manifest_content with
  | Some doc => _parse_applicationset_from_doc doc source_file
  | None => None
  end.
Proof. reflexivity. Qed.

(** C4. Parsing an ApplicationSet document and expanding it gives one
    child per list-generator element, in order; every child carries the
    destination namespace and the values overlay of the ApplicationSet,
    the element's [origin] as chart name, ["helm-charts/" + origin] as OCI
    chart name, the element's name as release name, and
    ["kubernetes/" + origin + "/" + valuesFile] as only values file when
    the element gives a (non-empty) values file, none otherwise. *)
Theorem applicationset_expansion `{YamlLoader} `{FileSystem}
    (manifest_content : string) (source_file : option Path) (doc : ArgoDocument.t)
    (chart_path_resolver : string -> Path) (values_root : Path) :
  _find_applicationset_document manifest_content = Some doc ->
  exists appset,
    parse_applicationset_from_manifest manifest_content source_file = Some appset
    /\ ArgoAppSetConfig.destination_namespace appset = destination_namespace_of doc
    /\ ArgoAppSetConfig.values_overlay appset = values_overlay_of doc
    /\ let children :=
         ArgoAppSetConfig.to_app_configs appset chart_path_resolver values_root in
       let elements := list_generator_elements doc in
       length children = length elements
       /\ forall (i : nat) (elem : ArgoGeneratorElement),
            elements !! i = Some elem ->
            exists child,
              children !! i = Some child
              /\ ArgoAppConfig.namespace child = destination_namespace_of doc
              /\ ArgoAppConfig.values_object child = values_overlay_of doc
              /\ ArgoAppConfig.chart_name child = origin_of elem
              /\ ArgoAppConfig.oci_chart_name child
                 = Some ("helm-charts/" +:+ origin_of elem)
              /\ ArgoAppConfig.release_name child = default EmptyString (elem !! "name")
              /\ ArgoAppConfig.values_files child
                 = match elem !! "valuesFile" with
                   | None | Some EmptyString => []
                   | Some values_file =>
                       ["kubernetes/" +:+ origin_of elem +:+ "/" +:+ values_file]
                   end.
Proof.
  intros Hdoc. rewrite parse_applicationset_from_manifest_doc, Hdoc.
  destruct (parse_applicationset_from_doc_fields doc source_file)
    as (appset & Hparse & Helems & Hns & Hov).
  exists appset. split; [done|]. split; [done|]. split; [done|].
  destruct (to_app_configs_map appset chart_path_resolver values_root)
    as (child_of & -> & Hchild).
  rewrite Helems, <- list_fmap_compose. cbn zeta. split.
  { by rewrite length_fmap. }
  intros i elem Hi. eexists. rewrite list_lookup_fmap, Hi. split; [reflexivity|].
  destruct (Hchild (generator_element_of (ArgoAppSetConfig.namespace appset) elem))
    as (H1 & H2 & H3 & H4 & H5 & H6).
  cbn [compose]. rewrite H1, H2, H3, H4, H5, H6.
  cbn [generator_element_of ArgoAppSetGeneratorElement.chart_name
       ArgoAppSetGeneratorElement.extra_fields ArgoAppSetGeneratorElement.name
       ArgoAppSetGeneratorElement.values_file].
  assert (default (default "" (elem !! "origin")) (elem !! "origin") = origin_of elem)
    as -> by (unfold origin_of; by destruct (elem !! "origin")).
  repeat (split; [done|]).
  destruct (elem !! "valuesFile") as [[|c vf]|]; done.
Qed.

Lemma applicationset_expansion_witness :
  exists appset,
    @parse_applicationset_from_manifest AppSetFixture.appset_loader "appset" None
      = Some appset
    /\ length (@ArgoAppSetConfig.to_app_configs (Fixtures.table_fs [] [] []) appset
                 Fixtures.chart_path_resolver "repo") = 2%nat.
Proof.
  destruct (@applicationset_expansion AppSetFixture.appset_loader
              (Fixtures.table_fs [] [] []) "appset" None AppSetFixture.appset_doc
              Fixtures.chart_path_resolver "repo" eq_refl)
    as (appset & Hparse & _ & _ & Hlen & _).
  exists appset. split; [exact Hparse | exact Hlen].
Defined.

Lemma elem_of_concat {A : Type} (x : A) (ls : list (list A)) :
  x ∈ concat ls <-> exists l : list A, x ∈ l /\ l ∈ ls.
Proof.
  rewrite list_elem_of_In, in_concat. split.
  - intros (l & ? & ?). exists l. by rewrite !list_elem_of_In.
  - intros (l & ? & ?). exists l. by rewrite <- !list_elem_of_In.
Qed.

Lemma match_cons {A B : Type} (l : list A) (x y : B) :
  l <> [] -> match l with [] => x | _ :: _ => y end = y.
Proof. by destruct l. Qed.

Lemma list_elem_of_singleton_2 {A : Type} (x : A) : x ∈ [x].
Proof. by apply list_elem_of_singleton. Qed.

(** ** Recursive expansion *)

(** *** The computation type *)

Lemma bind_ok {A B : Type} (a : A) (t : list event) (k : A -> M B) :
  bind (Some (Ok a, t)) k =
  match k a with
  | None => None
  | Some (r, t') => Some (r, t ++ t')
  end.
Proof. reflexivity. Qed.

Lemma bind_raise {A B : Type} (e : exn) (t : list event) (k : A -> M B) :
  bind (Some (Raise e, t)) k = Some (Raise e, t).
Proof. reflexivity. Qed.

Lemma bind_is_Some {A B : Type} (m : M A) (k : A -> M B) :
  is_Some m -> (forall a, is_Some (k a)) -> is_Some (bind m k).
Proof.
  intros [[[a|e] t] ->] Hk; cbn; [|eauto].
  destruct (Hk a) as [[r t'] ->]. eauto.
Qed.

(** *** The loops *)

(** The state of the pool loop after the tasks of [futures], none of which
    makes the handler re-raise. *)
Lemma gather_completed_captures (futures : list (string * result child_result))
    (st : list string * list string) :
  Forall (fun f => forall e, f.2 = Raise e -> auth_signal e = false) futures ->
  exists st',
    gather_completed futures st = Ok st'
    /\ (forall entry, entry ∈ st.2 -> entry ∈ st'.2)
    /\ (forall (name : string) (e : exn),
          (name, Raise e) ∈ futures -> raised_entry name e ∈ st'.2)
    /\ (forall (name : string) (r : child_result), (name, Ok r) ∈ futures ->
          if r.1.1.2 then forall x, x ∈ r.2 -> x ∈ st'.1
          else failed_entry r.1.1.1 r.1.2 ∈ st'.2)
    /\ (forall x, x ∈ st.1 -> x ∈ st'.1).
Proof.
  intros Hall. revert st.
  induction Hall as [|[name [r|e]] futures Hf _ IH]; intros st.
  - exists st. split; [done|]. repeat split; try done; intros ?? Hin; by apply elem_of_nil in Hin.
  - cbn [gather_completed]. destruct (IH (record_child r st)) as (st' & -> & Hkeep & Hraise & Hok & Hrend).
    exists st'. split; [done|].
    assert (Hst2 : forall entry, entry ∈ st.2 -> entry ∈ (record_child r st).2).
    { intros entry Hin. destruct r as [[[n b] m] g], st as [ar ce]. cbn.
      destruct b; cbn; [done|]. apply elem_of_app. by left. }
    assert (Hst1 : forall x, x ∈ st.1 -> x ∈ (record_child r st).1).
    { intros x Hin. destruct r as [[[n b] m] g], st as [ar ce]. cbn.
      destruct b; cbn; [|done]. apply elem_of_app. by left. }
    repeat split.
    + intros entry Hin. auto.
    + intros n e Hin. apply elem_of_cons in Hin as [Heq|Hin]; [done|].
      by apply (Hraise n).
    + intros n r' Hin. apply elem_of_cons in Hin as [Heq|Hin]; [|by apply (Hok n)].
      simplify_eq. destruct r as [[[n' b] m] g], st as [ar ce]. cbn in *.
      destruct b; cbn in *.
      * intros x Hx. apply Hrend. apply elem_of_app. by right.
      * apply Hkeep. apply elem_of_app. right. unfold failed_entry. apply list_elem_of_singleton_2.
    + auto.
  - cbn [gather_completed]. pose proof (Hf e eq_refl) as Hsig. cbn in Hsig.
    unfold auth_signal in Hsig. apply orb_false_iff in Hsig as [He Hc]. rewrite He.
    set (st1 := (st.1, st.2 ++ [name +:+ ": " +:+ exn_str e])).
    assert (gather_completed futures st1 =
            match exn_cause e with
            | Some cause =>
                if is_token_expired cause then Raise (from_None cause)
                else gather_completed futures st1
            | None => gather_completed futures st1
            end) as <-.
    { destruct (exn_cause e); [by rewrite Hc | done]. }
    destruct (IH st1) as (st' & -> & Hkeep & Hraise & Hok & Hrend).
    exists st'. split; [done|]. repeat split.
    + intros entry Hin. apply Hkeep. subst st1. cbn. apply elem_of_app. by left.
    + intros n e' Hin. apply elem_of_cons in Hin as [Heq|Hin]; [|by apply (Hraise n)].
      simplify_eq. apply Hkeep. subst st1. cbn. apply elem_of_app. right.
      unfold raised_entry. apply list_elem_of_singleton_2.
    + intros n r Hin. apply elem_of_cons in Hin as [Heq|Hin]; [done|].
      by apply (Hok n).
    + intros x Hin. apply Hrend. by subst st1.
Qed.

Lemma is_token_expired_from_None (e : exn) :
  is_token_expired (from_None e) = is_token_expired e.
Proof. by destruct e as [[]]. Qed.

Lemma reraised_token_expired (e : exn) :
  auth_signal e = true -> is_token_expired (reraised e) = true.
Proof.
  unfold auth_signal, reraised. destruct (is_token_expired e) eqn:He; [done|].
  cbn. destruct (exn_cause e) as [cause|]; [|done].
  by rewrite is_token_expired_from_None.
Qed.

(** Whatever leaves the pool loop as an exception is the re-raise of a
    task's token expiry. *)
Lemma gather_completed_raise_inv (futures : list (string * result child_result))
    (st : list string * list string) (e' : exn) :
  gather_completed futures st = Raise e' ->
  exists (name : string) (e : exn),
    (name, Raise e) ∈ futures /\ auth_signal e = true /\ e' = reraised e.
Proof.
  revert st. induction futures as [|[name [r|e]] futures IH]; intros st; cbn [gather_completed].
  - done.
  - intros (n & e & Hin & ?)%IH. exists n, e. split; [by right|done].
  - unfold auth_signal, reraised.
    destruct (is_token_expired e) eqn:He.
    { intros [= <-]. exists name, e. rewrite He. repeat split. by left. }
    destruct (exn_cause e) as [cause|] eqn:Hcause.
    + destruct (is_token_expired cause) eqn:Hc.
      { intros [= <-]. exists name, e. rewrite He, Hcause, Hc. repeat split. by left. }
      intros (n & e0 & Hin & ?)%IH. exists n, e0. split; [by right|done].
    + intros (n & e0 & Hin & ?)%IH. exists n, e0. split; [by right|done].
Qed.

(** A task that raised a token expiry, directly or as a cause, makes the
    pool loop raise. *)
Lemma gather_completed_aborts (futures : list (string * result child_result))
    (st : list string * list string) (name : string) (e : exn) :
  (name, Raise e) ∈ futures -> auth_signal e = true ->
  exists e', gather_completed futures st = Raise e' /\ is_token_expired e' = true.
Proof.
  intros Hin Hsig.
  destruct (gather_completed futures st) as [st'|e'] eqn:Hg.
  - exfalso.
    assert (Hnone : Forall (fun f => forall e, f.2 = Raise e -> auth_signal e = false) futures
                    -> False).
    { intros Hall. rewrite Forall_forall in Hall.
      specialize (Hall _ Hin e eq_refl). congruence. }
    clear Hin. revert st Hg Hnone.
    induction futures as [|[n [r|e0]] futures IH]; intros st Hg Hnone.
    + apply Hnone. constructor.
    + cbn [gather_completed] in Hg. eapply IH; [exact Hg|].
      intros Hall. apply Hnone. constructor; [done|exact Hall].
    + cbn [gather_completed] in Hg.
      destruct (is_token_expired e0) eqn:He0; [done|].
      destruct (exn_cause e0) as [cause|] eqn:Hcause.
      * destruct (is_token_expired cause) eqn:Hc; [done|].
        eapply IH; [exact Hg|]. intros Hall. apply Hnone. constructor; [|exact Hall].
        intros e1 [= <-]. unfold auth_signal. by rewrite He0, Hcause, Hc.
      * eapply IH; [exact Hg|]. intros Hall. apply Hnone. constructor; [|exact Hall].
        intros e1 [= <-]. unfold auth_signal. by rewrite He0, Hcause.
  - exists e'. split; [done|].
    apply gather_completed_raise_inv in Hg as (n & e0 & _ & Hs & ->).
    by apply reraised_token_expired.
Qed.

Lemma render_child_app_outcome
    (self : ArgoAppConfig.t -> Path -> Path -> (string -> Path) -> bool -> Z -> Z ->
            bool -> Z -> M (bool * string * list string))
    (child_app : ArgoAppConfig.t) (output_dir repo_root : Path)
    (chart_path_resolver : string -> Path) (include_crds : bool)
    (max_depth current_depth : Z) :
  _render_child_app self child_app output_dir repo_root chart_path_resolver
    include_crds max_depth current_depth =
  match self child_app (path_join output_dir (ArgoAppConfig.name child_app)) repo_root
          chart_path_resolver include_crds max_depth (current_depth + 1) true 4 with
  | None => None
  | Some (r, t) => Some (task_result (ArgoAppConfig.name child_app) r, t)
  end.
Proof.
  unfold _render_child_app.
  destruct (self _ _ _ _ _ _ _ _ _) as [[[[[s m] g]|e] t]|]; cbn; [|done..].
  by rewrite app_nil_r.
Qed.

Section pool.
Context `{WorkerPool}.

Lemma run_pool_finished (max_workers : Z) (tasks : list (string * M child_result))
    (finished : list (string * result child_result * list event))
    (st : list string * list string) :
  0 < max_workers ->
  Forall2 (fun task f => task.2 = Some (f.1.2, f.2) /\ task.1 = f.1.1) tasks finished ->
  run_pool max_workers tasks st =
  Some (gather_completed ((fun f => (f.1.1, f.1.2)) <$> as_completed _ finished) st,
        concat ((fun f => f.2) <$> as_completed _ finished)).
Proof.
  intros Hw Hall. unfold run_pool.
  rewrite bool_decide_eq_false_2 by lia.
  match goal with |- context [mapM ?f tasks] =>
    assert (mapM f tasks = Some finished) as -> end; [|done].
  apply mapM_Some. eapply Forall2_impl; [exact Hall|].
  intros [n m] [[n' r] t]. cbn. by intros [-> ->].
Qed.
End pool.

Section level.
Context `{YamlLoader} `{FileSystem} `{Renderer} `{WorkerPool}.
Hypothesis as_completed_permutation : forall (A : Type) (l : list A), as_completed A l ≡ₚ l.

(** A level whose render succeeded and that hands two or more children
    to the pool. *)
Lemma pool_level
    (self : ArgoAppConfig.t -> Path -> Path -> (string -> Path) -> bool -> Z -> Z ->
            bool -> Z -> M (bool * string * list string))
    (app : ArgoAppConfig.t) (output_dir repo_root : Path)
    (chart_path_resolver : string -> Path) (include_crds : bool)
    (max_depth current_depth max_workers : Z) (content msg : string) (n : Z)
    (outcome : ArgoAppConfig.t -> result (bool * string * list string) * list event) :
  current_depth < max_depth -> 0 < max_workers ->
  render_helm_chart_to_string app repo_root chart_path_resolver include_crds
    = Ok (true, content, msg) ->
  _write_rendered_output content output_dir = Ok n ->
  let children := discover_children app content repo_root chart_path_resolver in
  (1 < length children)%nat ->
  (forall child, child ∈ children ->
     self child (path_join output_dir (ArgoAppConfig.name child)) repo_root
       chart_path_resolver include_crds max_depth (current_depth + 1) true 4
     = Some (outcome child)) ->
  exists (futures : list (string * result child_result)) (pool_trace : list event),
    (forall (name : string) (r : result child_result),
       (name, r) ∈ futures <->
       exists child, child ∈ children /\ name = ArgoAppConfig.name child
                     /\ r = task_result name (outcome child).1)
    /\ (forall ev, ev ∈ pool_trace <-> exists child, child ∈ children /\ ev ∈ (outcome child).2)
    /\ render_recursive_body self app output_dir repo_root chart_path_resolver
         include_crds max_depth current_depth true max_workers =
       let before := [HelmTemplate (ArgoAppConfig.name app); WriteRendered output_dir] in
       match gather_completed futures ([ArgoAppConfig.name app], []) with
       | Raise e => Some (Raise e, before ++ pool_trace)
       | Ok st =>
           match _write_combined_recursive_output output_dir with
           | Raise e => Some (Raise e, before ++ pool_trace ++ [WriteCombined output_dir])
           | Ok _ =>
               Some (Ok (level_result msg (Z.of_nat (length children)) st),
                     before ++ pool_trace ++ [WriteCombined output_dir])
           end
       end.
Proof.
  intros Hdepth Hw Hrender Hwrite children Hlen Hself.
  set (finished := (fun c => (ArgoAppConfig.name c,
                              task_result (ArgoAppConfig.name c) (outcome c).1,
                              (outcome c).2)) <$> children).
  exists ((fun f => (f.1.1, f.1.2)) <$> as_completed _ finished),
         (concat ((fun f => f.2) <$> as_completed _ finished)).
  split; [|split].
  - intros name r. rewrite list_elem_of_fmap. split.
    + intros ([[n' r'] t] & [= -> ->] & Hin). rewrite as_completed_permutation in Hin.
      apply list_elem_of_fmap in Hin as (child & [= -> -> ->] & Hin). eauto.
    + intros (child & Hin & -> & ->).
      exists (ArgoAppConfig.name child,
              task_result (ArgoAppConfig.name child) (outcome child).1, (outcome child).2).
      split; [done|]. rewrite as_completed_permutation.
      apply list_elem_of_fmap. eauto.
  - intros ev. rewrite elem_of_concat. split.
    + intros (t & Hev & Hin). apply list_elem_of_fmap in Hin as (f & -> & Hin).
      rewrite as_completed_permutation in Hin.
      apply list_elem_of_fmap in Hin as (child & -> & Hin). eauto.
    + intros (child & Hin & Hev). exists (outcome child).2. split; [done|].
      apply list_elem_of_fmap.
      exists (ArgoAppConfig.name child,
              task_result (ArgoAppConfig.name child) (outcome child).1, (outcome child).2).
      split; [done|]. rewrite as_completed_permutation. apply list_elem_of_fmap. eauto.
  - unfold render_recursive_body.
    rewrite bool_decide_eq_false_2 by lia. rewrite Hrender.
    cbn [call bind negb]. rewrite Hwrite. cbn [bind].
    fold children.
    assert (Hpool :
      run_pool max_workers
        (map (fun child_app =>
                (ArgoAppConfig.name child_app,
                 _render_child_app self child_app output_dir repo_root
                   chart_path_resolver include_crds max_depth current_depth))
             children)
        ([ArgoAppConfig.name app], []) =
      Some (gather_completed ((fun f => (f.1.1, f.1.2)) <$> as_completed _ finished)
              ([ArgoAppConfig.name app], []),
            concat ((fun f => f.2) <$> as_completed _ finished))).
    { apply run_pool_finished; [done|]. subst finished.
      apply Forall2_fmap, Forall_Forall2_diag, Forall_forall.
      intros child Hin. cbn. split; [|done].
      rewrite render_child_app_outcome, (Hself child Hin). by destruct (outcome child). }
    rewrite match_cons by (intros Hnil; rewrite Hnil in Hlen; cbn in Hlen; lia).
    rewrite bool_decide_eq_true_2 by lia. cbn [andb]. rewrite Hpool.
    destruct (gather_completed _ _) as [st|e]; cbn [bind]; [|done].
    unfold call. destruct (_write_combined_recursive_output output_dir); cbn; [|done].
    by rewrite <- !app_assoc.
Qed.
End level.

(** *** Termination *)

Lemma run_sequential_is_Some (tasks : list (M child_result)) (st : list string * list string) :
  Forall is_Some tasks -> is_Some (run_sequential tasks st).
Proof.
  intros Hall. revert st. induction Hall as [|task tasks Htask _ IH]; intros st.
  - by eexists.
  - cbn [run_sequential]. apply bind_is_Some; [done|]. intros r. apply IH.
Qed.

Lemma run_pool_is_Some `{WorkerPool} (max_workers : Z)
    (tasks : list (string * M child_result)) (st : list string * list string) :
  Forall (fun task => is_Some task.2) tasks -> is_Some (run_pool max_workers tasks st).
Proof.
  intros Hall. unfold run_pool. case_bool_decide; [by eexists|].
  match goal with |- context [mapM ?f tasks] =>
    assert (is_Some (mapM f tasks)) as [finished ->] end; [|by eexists].
  apply mapM_is_Some. eapply Forall_impl; [exact Hall|].
  intros [n m] [[r t] Hm]. cbn in *. rewrite Hm. by eexists.
Qed.

Section termination.
Context `{YamlLoader} `{FileSystem} `{Renderer} `{WorkerPool}.

Lemma render_recursive_body_is_Some
    (self : ArgoAppConfig.t -> Path -> Path -> (string -> Path) -> bool -> Z -> Z ->
            bool -> Z -> M (bool * string * list string))
    (app : ArgoAppConfig.t) (output_dir repo_root : Path)
    (chart_path_resolver : string -> Path) (include_crds : bool)
    (max_depth current_depth : Z) (parallel : bool) (max_workers : Z) :
  (current_depth < max_depth ->
   forall child dir,
     is_Some (self child dir repo_root chart_path_resolver include_crds max_depth
                (current_depth + 1) true 4)) ->
  is_Some (render_recursive_body self app output_dir repo_root chart_path_resolver
             include_crds max_depth current_depth parallel max_workers).
Proof.
  intros Hself. unfold render_recursive_body.
  case_bool_decide as Hdepth; [by eexists|].
  assert (Hlt : current_depth < max_depth) by lia. specialize (Hself Hlt).
  apply bind_is_Some; [by eexists|]. intros [[success content] msg].
  destruct success; cbn [negb]; [|by eexists].
  apply bind_is_Some; [by eexists|]. intros _.
  assert (Htask : forall child,
    is_Some (_render_child_app self child output_dir repo_root chart_path_resolver
               include_crds max_depth current_depth)).
  { intros child. rewrite render_child_app_outcome.
    destruct (Hself child (path_join output_dir (ArgoAppConfig.name child))) as [[r t] ->].
    by eexists. }
  apply bind_is_Some; [|by eexists].
  destruct (discover_children _ _ _ _) as [|c cs] eqn:Hchildren; [by eexists|].
  apply bind_is_Some; [|intros st; apply bind_is_Some; by eexists].
  destruct (parallel && _).
  - apply run_pool_is_Some, Forall_fmap, Forall_forall. intros child _. apply Htask.
  - apply run_sequential_is_Some, Forall_fmap, Forall_forall. intros child _. apply Htask.
Qed.

Lemma render_recursive_fuel_is_Some (fuel : nat)
    (app : ArgoAppConfig.t) (output_dir repo_root : Path)
    (chart_path_resolver : string -> Path) (include_crds : bool)
    (max_depth current_depth : Z) (parallel : bool) (max_workers : Z) :
  (Z.to_nat (max_depth - current_depth) <= fuel)%nat ->
  is_Some (render_recursive_fuel fuel app output_dir repo_root chart_path_resolver
             include_crds max_depth current_depth parallel max_workers).
Proof.
  revert app output_dir current_depth parallel max_workers.
  induction fuel as [|fuel IH]; intros app output_dir current_depth parallel max_workers Hfuel;
    cbn [render_recursive_fuel]; apply render_recursive_body_is_Some; intros Hlt child dir.
  - lia.
  - apply IH. lia.
Qed.

(** [render_recursive] returns or raises on every input: the fuel it
    starts with is never used up. *)
Lemma render_recursive_returns
    (app : ArgoAppConfig.t) (output_dir repo_root : Path)
    (chart_path_resolver : string -> Path) (include_crds : bool)
    (max_depth current_depth : Z) (parallel : bool) (max_workers : Z) :
  is_Some (render_recursive app output_dir repo_root chart_path_resolver include_crds
             max_depth current_depth parallel max_workers).
Proof. by apply render_recursive_fuel_is_Some. Qed.

(** Below the depth bound, [render_recursive] is its body over itself. *)
Lemma render_recursive_unfold
    (app : ArgoAppConfig.t) (output_dir repo_root : Path)
    (chart_path_resolver : string -> Path) (include_crds : bool)
    (max_depth current_depth : Z) (parallel : bool) (max_workers : Z) :
  current_depth < max_depth ->
  render_recursive app output_dir repo_root chart_path_resolver include_crds
    max_depth current_depth parallel max_workers =
  render_recursive_body
    (fun child dir root resolver crds max_depth' depth' parallel' workers' =>
       render_recursive_fuel (Z.to_nat (max_depth - (current_depth + 1)))
         child dir root resolver crds max_depth' depth' parallel' workers')
    app output_dir repo_root chart_path_resolver include_crds
    max_depth current_depth parallel max_workers.
Proof.
  intros Hlt. unfold render_recursive.
  replace (Z.to_nat (max_depth - current_depth))
    with (S (Z.to_nat (max_depth - (current_depth + 1)))) by lia.
  reflexivity.
Qed.

(** C3. At or beyond the depth bound [render_recursive] renders nothing
    (no Helm invocation, no file written) and returns success, the
    message [Max recursion depth (max_depth) reached] and no rendered
    resource. *)
Theorem render_recursive_at_max_depth
    (app : ArgoAppConfig.t) (output_dir repo_root : Path)
    (chart_path_resolver : string -> Path) (include_crds : bool)
    (max_depth current_depth : Z) (parallel : bool) (max_workers : Z) :
  current_depth >= max_depth ->
  render_recursive app output_dir repo_root chart_path_resolver include_crds
    max_depth current_depth parallel max_workers
  = Some (Ok (true, "Max recursion depth (" +:+ pretty max_depth +:+ ") reached", []), []).
Proof.
  intros Hdepth. unfold render_recursive.
  destruct (Z.to_nat _); cbn [render_recursive_fuel]; unfold render_recursive_body;
    by rewrite bool_decide_eq_true_2.
Qed.
End termination.

Lemma render_recursive_at_max_depth_witness :
  @render_recursive TreeFixture.loader TreeFixture.fs
    (TreeFixture.renderer TreeFixture.helm_failure) TreeFixture.in_order
    (TreeFixture.app "root") "out" "repo" Fixtures.chart_path_resolver true 5 5 true 4
  = Some (Ok (true, "Max recursion depth (5) reached", []), []).
Proof.
  apply (@render_recursive_at_max_depth TreeFixture.loader TreeFixture.fs
           (TreeFixture.renderer TreeFixture.helm_failure) TreeFixture.in_order
           (TreeFixture.app "root") "out" "repo" Fixtures.chart_path_resolver true
           5 5 true 4).
  lia.
Defined.

Section pool_boundary.
Context `{YamlLoader} `{FileSystem} `{Renderer} `{WorkerPool}.
Hypothesis as_completed_permutation : forall (A : Type) (l : list A), as_completed A l ≡ₚ l.

(** A pooled level of [render_recursive], in terms of the outcomes of
    its children's own [render_recursive] calls. *)
Lemma render_recursive_pool_level
    (app : ArgoAppConfig.t) (output_dir repo_root : Path)
    (chart_path_resolver : string -> Path) (include_crds : bool)
    (max_depth current_depth max_workers : Z) (content msg : string) (n : Z) :
  current_depth < max_depth -> 0 < max_workers ->
  render_helm_chart_to_string app repo_root chart_path_resolver include_crds
    = Ok (true, content, msg) ->
  _write_rendered_output content output_dir = Ok n ->
  let children := discover_children app content repo_root chart_path_resolver in
  let task child :=
    render_recursive child (path_join output_dir (ArgoAppConfig.name child)) repo_root
      chart_path_resolver include_crds max_depth (current_depth + 1) true 4 in
  (1 < length children)%nat ->
  exists (futures : list (string * result child_result)) (pool_trace : list event),
    (forall (name : string) (r : result child_result),
       (name, r) ∈ futures <->
       exists child r' t, child ∈ children /\ name = ArgoAppConfig.name child
                          /\ task child = Some (r', t) /\ r = task_result name r')
    /\ (forall ev, ev ∈ pool_trace <->
          exists child r t, child ∈ children /\ task child = Some (r, t) /\ ev ∈ t)
    /\ render_recursive app output_dir repo_root chart_path_resolver
         include_crds max_depth current_depth true max_workers =
       let before := [HelmTemplate (ArgoAppConfig.name app); WriteRendered output_dir] in
       match gather_completed futures ([ArgoAppConfig.name app], []) with
       | Raise e => Some (Raise e, before ++ pool_trace)
       | Ok st =>
           match _write_combined_recursive_output output_dir with
           | Raise e => Some (Raise e, before ++ pool_trace ++ [WriteCombined output_dir])
           | Ok _ =>
               Some (Ok (level_result msg (Z.of_nat (length children)) st),
                     before ++ pool_trace ++ [WriteCombined output_dir])
           end
       end.
Proof.
  intros Hdepth Hw Hrender Hwrite children task Hlen.
  set (outcome := fun child => default (Ok (true, EmptyString, []), []) (task child)).
  assert (Htask : forall child, task child = Some (outcome child)).
  { intros child. subst outcome. cbn beta.
    destruct (render_recursive_returns child
                (path_join output_dir (ArgoAppConfig.name child)) repo_root
                chart_path_resolver include_crds max_depth (current_depth + 1) true 4)
      as [o Ho].
    subst task. cbn beta. by rewrite Ho. }
  destruct (pool_level as_completed_permutation
              (fun child dir root resolver crds max_depth' depth' parallel' workers' =>
                 render_recursive_fuel (Z.to_nat (max_depth - (current_depth + 1)))
                   child dir root resolver crds max_depth' depth' parallel' workers')
              app output_dir repo_root chart_path_resolver include_crds max_depth
              current_depth max_workers content msg n outcome Hdepth Hw Hrender Hwrite
              Hlen)
    as (futures & pool_trace & Hfut & Htrace & Hbody).
  { intros child _. apply (Htask child). }
  exists futures, pool_trace. split; [|split].
  - intros name r. rewrite Hfut. split.
    + intros (child & Hin & -> & ->). exists child, (outcome child).1, (outcome child).2.
      rewrite Htask. by destruct (outcome child).
    + intros (child & r' & t & Hin & -> & Ht & ->). exists child.
      rewrite Htask in Ht. injection Ht as Ht. by rewrite Ht.
  - intros ev. rewrite Htrace. split.
    + intros (child & Hin & Hev). exists child, (outcome child).1, (outcome child).2.
      rewrite Htask. by destruct (outcome child).
    + intros (child & r' & t & Hin & Ht & Hev). exists child.
      rewrite Htask in Ht. injection Ht as Ht. by rewrite Ht.
  - rewrite render_recursive_unfold by done. exact Hbody.
Qed.

(** C2. At a level that hands its children to the worker pool, a child
    task that raises [AWSTokenExpiredError], directly or as the cause of
    the exception it raises, makes the whole call raise that
    [AWSTokenExpiredError]; nothing but such a token expiry leaves the
    pool as an exception; and when no task raises one, the call returns
    and every task that raised is recorded as a [name: message] entry of
    the errors in the result message. *)
Theorem token_expiry_alone_crosses_the_pool
    (app : ArgoAppConfig.t) (output_dir repo_root : Path)
    (chart_path_resolver : string -> Path) (include_crds : bool)
    (max_depth current_depth max_workers : Z) (content msg : string) (n : Z) :
  current_depth < max_depth -> 0 < max_workers ->
  render_helm_chart_to_string app repo_root chart_path_resolver include_crds
    = Ok (true, content, msg) ->
  _write_rendered_output content output_dir = Ok n ->
  _write_combined_recursive_output output_dir = Ok tt ->
  let children := discover_children app content repo_root chart_path_resolver in
  let task child :=
    render_recursive child (path_join output_dir (ArgoAppConfig.name child)) repo_root
      chart_path_resolver include_crds max_depth (current_depth + 1) true 4 in
  let whole :=
    render_recursive app output_dir repo_root chart_path_resolver include_crds
      max_depth current_depth true max_workers in
  (1 < length children)%nat ->
  (forall child e t,
     child ∈ children -> task child = Some (Raise e, t) -> auth_signal e = true ->
     exists e' t', whole = Some (Raise e', t') /\ is_token_expired e' = true)
  /\ (forall e' t',
        whole = Some (Raise e', t') ->
        is_token_expired e' = true
        /\ exists child e t,
             child ∈ children /\ task child = Some (Raise e, t)
             /\ auth_signal e = true /\ e' = reraised e)
  /\ ((forall child e t,
         child ∈ children -> task child = Some (Raise e, t) -> auth_signal e = false) ->
      exists (rendered errors : list string) (t' : list event),
        whole =
          Some (Ok (true,
                    "Rendered with " +:+ pretty (Z.of_nat (length rendered) - 1)
                      +:+ " nested resources" +:+
                      match errors with
                      | [] => EmptyString
                      | _ :: _ => " (errors: " +:+ Py.join "; " errors +:+ ")"
                      end,
                    rendered), t')
        /\ forall child e t,
             child ∈ children -> task child = Some (Raise e, t) ->
             raised_entry (ArgoAppConfig.name child) e ∈ errors).
Proof.
  intros Hdepth Hw Hrender Hwrite Hcombined children task whole Hlen.
  destruct (render_recursive_pool_level app output_dir repo_root chart_path_resolver
              include_crds max_depth current_depth max_workers content msg n
              Hdepth Hw Hrender Hwrite Hlen)
    as (futures & pool_trace & Hfut & _ & Hwhole).
  fold children task in Hfut. fold whole in Hwhole.
  rewrite Hcombined in Hwhole. cbn zeta in Hwhole.
  split; [|split].
  - intros child e t Hin Htask Hsig.
    assert (Hf : (ArgoAppConfig.name child, Raise e) ∈ futures).
    { apply Hfut. exists child, (Raise e), t. repeat split; done. }
    destruct (gather_completed_aborts futures ([ArgoAppConfig.name app], []) _ _ Hf Hsig)
      as (e' & Hg & He').
    rewrite Hg in Hwhole. eauto.
  - intros e' t' Hraise. rewrite Hwhole in Hraise.
    destruct (gather_completed futures _) as [st|e0] eqn:Hg; [done|].
    injection Hraise as -> _.
    apply gather_completed_raise_inv in Hg as (name & e & Hin & Hsig & ->).
    split; [by apply reraised_token_expired|].
    apply Hfut in Hin as (child & r' & t & Hin & -> & Htask & Hr).
    destruct r' as [[[s m] g]|e1]; [done|]. injection Hr as <-.
    exists child, e, t. done.
  - intros Hnone.
    destruct (gather_completed_captures futures ([ArgoAppConfig.name app], []))
      as (st & Hg & _ & Hentries & _).
    { apply Forall_forall. intros [name r] Hin e Hr. cbn in Hr. subst r.
      apply Hfut in Hin as (child & r' & t & Hin & -> & Htask & Hr).
      destruct r' as [[[s m] g]|e1]; [done|]. injection Hr as <-. eauto. }
    rewrite Hg in Hwhole. destruct st as [rendered errors].
    exists rendered, errors. eexists. split.
    + rewrite Hwhole. unfold level_result.
      rewrite bool_decide_eq_true_2 by (unfold children in Hlen; lia). reflexivity.
    + intros child e t Hin Htask. apply (Hentries (ArgoAppConfig.name child) e).
      apply Hfut. exists child, (Raise e), t. done.
Qed.

End pool_boundary.

Lemma in_order_permutation (A : Type) (l : list A) :
  @as_completed TreeFixture.in_order A l ≡ₚ l.
Proof. reflexivity. Defined.

Lemma token_expiry_alone_crosses_the_pool_witness :
  exists e' t',
    @render_recursive TreeFixture.loader TreeFixture.fs
      (TreeFixture.renderer (Raise TreeFixture.wrapped_token_expired))
      TreeFixture.in_order (TreeFixture.app "root") "out" "repo"
      Fixtures.chart_path_resolver true 5 0 true 4
    = Some (Raise e', t')
    /\ is_token_expired e' = true.
Proof.
  pose proof (@token_expiry_alone_crosses_the_pool TreeFixture.loader TreeFixture.fs
                (TreeFixture.renderer (Raise TreeFixture.wrapped_token_expired))
                TreeFixture.in_order in_order_permutation
                (TreeFixture.app "root") "out" "repo" Fixtures.chart_path_resolver true
                5 0 4 "root-out" "Chart pulled from OCI" 1
                ltac:(lia) ltac:(lia) eq_refl eq_refl eq_refl ltac:(vm_compute; lia))
    as [Habort _].
  refine (Habort (TreeFixture.app "b") TreeFixture.wrapped_token_expired
            [HelmTemplate "b"] _ _ _).
  - apply list_elem_of_In. vm_compute. right. left. reflexivity.
  - vm_compute. reflexivity.
  - reflexivity.
Defined.

(** C1 (the code departs from the claim). The sequential loop, which also
    serves a level with a single child, has no handler: there a child
    that raises a non-authentication exception ends the whole call with
    that exception, where the pooled loop records [name: message] and
    goes on. *)
Theorem lone_child_exception_aborts :
  let world := TreeFixture.renderer (Raise TreeFixture.os_error) in
  let run name parallel :=
    @render_recursive TreeFixture.loader TreeFixture.fs world TreeFixture.in_order
      (TreeFixture.app name) "out" "repo" Fixtures.chart_path_resolver true 5 0
      parallel 4 in
  run "solo" true
    = Some (Raise TreeFixture.os_error,
            [HelmTemplate "solo"; WriteRendered "out"; HelmTemplate "b"])
  /\ run "root" false
    = Some (Raise TreeFixture.os_error,
            [HelmTemplate "root"; WriteRendered "out"; HelmTemplate "a";
             WriteRendered "out/a"; HelmTemplate "b"])
  /\ run "root" true
    = Some (Ok (true,
                "Rendered with 2 nested resources (errors: b: [Errno 28] No space left on device)",
                ["root"; "a"; "c"]),
            [HelmTemplate "root"; WriteRendered "out"; HelmTemplate "a";
             WriteRendered "out/a"; HelmTemplate "b"; HelmTemplate "c";
             WriteRendered "out/c"; WriteCombined "out"]).
Proof. repeat split; vm_compute; reflexivity. Qed.

(** ** Diff engine *)

(** The accumulating loop over the identities, as a list comprehension. *)
Lemma foldl_append_omap {A B C : Type} (f : A -> option B) (g : B -> C)
    (l : list A) (acc : list C) :
  foldl (fun diffs x => match f x with Some d => diffs ++ [g d] | None => diffs end) acc l
  = acc ++ omap (fun x => g <$> f x) l.
Proof.
  revert acc. induction l as [|x l IH]; intros acc; cbn [foldl omap list_omap].
  - by rewrite app_nil_r.
  - rewrite IH. destruct (f x); [by rewrite <- app_assoc | done].
Qed.

Section diff.
Context `{YamlLoader} `{PyHash} `{Difflib}.

Lemma diff_manifests_blocks (baseline_content new_content : string)
    (max_lines_per_manifest : Z) :
  let baseline_docs := parse_docs (Py.split baseline_content doc_separator) in
  let new_docs := parse_docs (Py.split new_content doc_separator) in
  let diffs :=
    omap (fun identity =>
            Py.join "" <$> diff_block baseline_docs new_docs max_lines_per_manifest identity)
         (sorted_identities baseline_docs new_docs) in
  _diff_manifests baseline_content new_content max_lines_per_manifest =
  match diffs with
  | [] => (false, EmptyString)
  | _ :: _ => (true, Py.join LF diffs)
  end.
Proof.
  cbn zeta. unfold _diff_manifests.
  set (b := parse_docs (Py.split baseline_content doc_separator)).
  set (n := parse_docs (Py.split new_content doc_separator)).
  match goal with |- context [foldl ?f [] ?l] =>
    assert (foldl f [] l =
            omap (fun identity =>
                    Py.join "" <$> diff_block b n max_lines_per_manifest identity) l) as ->
  end; [|done].
  exact (foldl_append_omap (diff_block b n max_lines_per_manifest) (Py.join "") _ []).
Qed.

Lemma diff_block_same (docs : gmap string (string * yaml_doc))
    (max_lines_per_manifest : Z) (identity : string) :
  diff_block docs docs max_lines_per_manifest identity = None.
Proof. unfold diff_block. by rewrite decide_True. Qed.

(** C5. A manifest stream diffed against itself has no difference:
    [hasDiff] is false and the diff text is empty, whatever documents
    the stream holds and in whatever order. *)
Theorem diff_manifests_same (content : string) (max_lines_per_manifest : Z) :
  _diff_manifests content content max_lines_per_manifest = (false, EmptyString).
Proof.
  rewrite diff_manifests_blocks. cbn zeta.
  generalize (parse_docs (Py.split content doc_separator)). intros docs.
  assert (omap (fun identity =>
                  Py.join "" <$> diff_block docs docs max_lines_per_manifest identity)
               (sorted_identities docs docs) = []) as ->; [|done].
  induction (sorted_identities docs docs) as [|identity ids IH]; [done|].
  cbn [omap list_omap]. by rewrite diff_block_same.
Qed.

(** *** Duplicate identities *)

(** A raw document is either skipped or filed under its identity. *)
Lemma parse_doc_cases (raw : string) :
  (identity_of raw = None /\ forall docs, parse_doc docs raw = docs)
  \/ (exists identity kept,
        identity_of raw = Some identity
        /\ forall docs, parse_doc docs raw = <[identity := (Py.strip raw, kept)]> docs).
Proof.
  unfold identity_of, parse_doc. cbn zeta.
  destruct (decide (Py.strip raw = "")); [by left|].
  destruct (safe_load (Py.strip raw)) as [[doc|]|]; [right|by left|right]; eauto.
Qed.

(** An entry that a later document of the same identity overwrites
    leaves no mark on the map. *)
Lemma parse_docs_overwritten (docs_raw : list string)
    (docs : gmap string (string * yaml_doc)) (identity : string)
    (entry : string * yaml_doc) :
  Exists (fun raw => identity_of raw = Some identity) docs_raw ->
  foldl parse_doc (<[identity := entry]> docs) docs_raw = foldl parse_doc docs docs_raw.
Proof.
  intros Hex. revert docs.
  induction docs_raw as [|raw docs_raw IH]; intros docs; [by apply Exists_nil in Hex|].
  cbn [foldl].
  destruct (parse_doc_cases raw) as [[Hid Hskip]|(k & kept & Hid & Hfile)].
  - rewrite !Hskip. apply IH. apply Exists_cons in Hex as [Hex|Hex]; [congruence|done].
  - rewrite !Hfile. destruct (decide (k = identity)) as [->|Hne].
    + by rewrite insert_insert_eq.
    + rewrite insert_insert_ne by done. apply IH.
      apply Exists_cons in Hex as [Hex|Hex]; [congruence|done].
Qed.

Lemma parse_docs_app (front back : list string) :
  parse_docs (front ++ back) = foldl parse_doc (parse_docs front) back.
Proof. unfold parse_docs. apply foldl_app. Qed.

(** The text kept for an identity is that of the last document filed
    under it. *)
Lemma parse_docs_last (front back : list string) (raw identity : string) :
  identity_of raw = Some identity ->
  Forall (fun later => identity_of later <> Some identity) back ->
  raw_of (parse_docs (front ++ raw :: back)) identity = Py.strip raw.
Proof.
  intros Hid Hback. rewrite parse_docs_app. cbn [foldl].
  destruct (parse_doc_cases raw) as [[Hnone _]|(k & kept & Hk & Hfile)]; [congruence|].
  assert (k = identity) as -> by congruence. rewrite Hfile.
  generalize (parse_docs front). intros docs.
  assert (Hgen : forall docs : gmap string (string * yaml_doc),
            raw_of docs identity = Py.strip raw ->
            raw_of (foldl parse_doc docs back) identity = Py.strip raw).
  { clear docs. induction Hback as [|later back Hlater _ IH]; intros docs Hdocs; [done|].
    cbn [foldl]. apply IH.
    destruct (parse_doc_cases later) as [[_ Hskip]|(k & kept' & Hk' & Hfile')].
    - by rewrite Hskip.
    - rewrite Hfile'. unfold raw_of in *. rewrite lookup_insert_ne; [done|congruence]. }
  apply Hgen. unfold raw_of. by rewrite lookup_insert_eq.
Qed.

(** C10. When two parseable documents of a stream share an identity, the
    map of the stream is the map of the stream without the earlier one,
    so the earlier one is absent from every diff, on the baseline side
    and on the current side alike; the text compared for the identity is
    that of its last document. *)
Theorem duplicate_identity_last_wins
    (content : string) (front middle back : list string) (earlier later : string)
    (doc1 doc2 : ArgoDocument.t) :
  Py.split content doc_separator = front ++ earlier :: middle ++ later :: back ->
  Py.strip earlier <> "" -> Py.strip later <> "" ->
  safe_load (Py.strip earlier) = Some (YDoc doc1) ->
  safe_load (Py.strip later) = Some (YDoc doc2) ->
  _get_manifest_name doc1 = _get_manifest_name doc2 ->
  parse_docs (Py.split content doc_separator)
    = parse_docs (front ++ middle ++ later :: back)
  /\ (forall (content' other : string) (max_lines_per_manifest : Z),
        Py.split content' doc_separator = front ++ middle ++ later :: back ->
        _diff_manifests content other max_lines_per_manifest
          = _diff_manifests content' other max_lines_per_manifest
        /\ _diff_manifests other content max_lines_per_manifest
          = _diff_manifests other content' max_lines_per_manifest)
  /\ (Forall (fun raw => identity_of raw <> Some (_get_manifest_name doc2)) back ->
      raw_of (parse_docs (Py.split content doc_separator)) (_get_manifest_name doc2)
        = Py.strip later).
Proof.
  intros Hsplit Hne1 Hne2 Hdoc1 Hdoc2 Hname.
  assert (Hid1 : identity_of earlier = Some (_get_manifest_name doc2)).
  { unfold identity_of. cbn zeta. rewrite decide_False by done.
    by rewrite Hdoc1, Hname. }
  assert (Hid2 : identity_of later = Some (_get_manifest_name doc2)).
  { unfold identity_of. cbn zeta. rewrite decide_False by done. by rewrite Hdoc2. }
  assert (Hmap : parse_docs (Py.split content doc_separator)
                 = parse_docs (front ++ middle ++ later :: back)).
  { rewrite Hsplit, !parse_docs_app. cbn [foldl].
    destruct (parse_doc_cases earlier) as [[Hnone _]|(k & kept & Hk & Hfile)];
      [congruence|].
    rewrite Hfile. assert (k = _get_manifest_name doc2) as -> by congruence.
    apply parse_docs_overwritten, Exists_app. right. by left. }
  split; [exact Hmap|]. split.
  - intros content' other max_lines Hsplit'.
    unfold _diff_manifests. by rewrite Hmap, Hsplit'.
  - intros Hback. rewrite Hmap.
    rewrite (app_assoc front middle). by apply parse_docs_last.
Qed.

(** *** Blocks *)

Lemma listing_block_listing (title sign identity : string) (lines : list string) :
  listing_block title sign identity lines (Z.of_nat line_cap)
  = listing title sign identity lines.
Proof.
  unfold listing_block, listing. cbn zeta.
  assert (Hfold : forall (l acc : list string),
    foldl (fun acc line => acc ++ [sign +:+ Py.rstrip line +:+ LF]) acc l
    = acc ++ (listed sign <$> l)).
  { induction l as [|x l IH]; intros acc; cbn [foldl].
    - by rewrite app_nil_r.
    - by rewrite IH, fmap_cons, <- app_assoc. }
  rewrite Hfold. unfold Py.slice_to.
  rewrite (bool_decide_eq_true_2 (0 <= Z.of_nat line_cap)) by lia. rewrite Nat2Z.id.
  case_bool_decide; case_decide; try lia; [|by rewrite app_nil_r].
  by rewrite <- app_assoc.
Qed.

(** [diff_block] with the default cap gives the block of the identity,
    or nothing where the block is empty. *)
Lemma diff_block_block_of (baseline_docs new_docs : gmap string (string * yaml_doc))
    (identity : string) :
  diff_block baseline_docs new_docs 250 identity =
  match block_of baseline_docs new_docs identity with
  | [] => None
  | lines => Some lines
  end.
Proof.
  unfold diff_block, block_of. cbn zeta.
  destruct (decide (raw_of baseline_docs identity = raw_of new_docs identity)) as [|Hne];
    [done|].
  destruct (decide (raw_of baseline_docs identity = "")) as [Hb|Hb].
  { destruct (decide (raw_of new_docs identity = "")) as [Hn|Hn]; [congruence|].
    change 250 with (Z.of_nat line_cap). by rewrite listing_block_listing. }
  destruct (decide (raw_of new_docs identity = "")) as [Hn|Hn].
  { change 250 with (Z.of_nat line_cap). by rewrite listing_block_listing. }
  destruct (unified_diff _ _ _ _ _) as [|line diff] eqn:Hdiff; [done|].
  unfold capped, Py.slice_to. rewrite (bool_decide_eq_true_2 (0 <= 250)) by lia.
  change (Z.to_nat 250) with line_cap.
  case_bool_decide; case_decide; try (unfold line_cap in *; lia); [|done].
  by destruct (take line_cap (line :: diff)) eqn:Htake.
Qed.

Lemma StronglySorted_filter {A : Type} (R : relation A) (P : A -> Prop)
    `{forall x, Decision (P x)} (l : list A) :
  StronglySorted R l -> StronglySorted R (filter P l).
Proof.
  induction 1 as [|x l Hl IH Hx]; [constructor|].
  rewrite filter_cons. case_decide; [|done].
  constructor; [done|]. apply Forall_forall. intros y Hy.
  apply list_elem_of_filter in Hy as [_ Hy]. rewrite Forall_forall in Hx. auto.
Qed.

Lemma sorted_identities_sorted (baseline_docs new_docs : gmap string (string * yaml_doc)) :
  StronglySorted String.le (sorted_identities baseline_docs new_docs)
  /\ NoDup (sorted_identities baseline_docs new_docs)
  /\ forall identity,
       identity ∈ sorted_identities baseline_docs new_docs
       <-> is_Some (baseline_docs !! identity) \/ is_Some (new_docs !! identity).
Proof.
  unfold sorted_identities. split; [|split].
  - apply StronglySorted_merge_sort; apply _.
  - rewrite merge_sort_Permutation. apply NoDup_elements.
  - intros identity. rewrite merge_sort_Permutation, elem_of_elements, elem_of_union.
    by rewrite !elem_of_dom.
Qed.

Lemma omap_filter_fmap {A B C : Type} (f : A -> list B) (g : list B -> C) (l : list A) :
  omap (fun x => g <$> match f x with [] => None | lines => Some lines end) l
  = (fun x => g (f x)) <$> filter (fun x => f x <> []) l.
Proof.
  induction l as [|x l IH]; [done|].
  cbn [omap list_omap]. rewrite filter_cons, IH.
  destruct (f x) eqn:Hf; cbn.
  - by rewrite decide_False by (intros Hne; by apply Hne).
  - rewrite decide_True by done. by rewrite fmap_cons, Hf.
Qed.

(** C6. The diff of two streams joins, in ascending order of identity,
    the blocks of the identities of either stream whose block is not
    empty; each block starts with its identity (in its heading, or in
    the file labels of the unified diff). An added or removed block lists
    at most 250 lines of the document and then a note counting the lines
    left out; a changed block is the unified diff with 150 lines of
    context, cut after 250 lines with a note; an identity whose text is
    the same in both streams has no block. *)
Theorem diff_manifests_structure (baseline_content new_content : string) :
  let baseline_docs := parse_docs (Py.split baseline_content doc_separator) in
  let new_docs := parse_docs (Py.split new_content doc_separator) in
  exists identities : list string,
    StronglySorted String.le identities
    /\ NoDup identities
    /\ (forall identity,
          identity ∈ identities <->
          (is_Some (baseline_docs !! identity) \/ is_Some (new_docs !! identity))
          /\ block_of baseline_docs new_docs identity <> [])
    /\ (forall identity,
          raw_of baseline_docs identity = raw_of new_docs identity ->
          identity ∉ identities)
    /\ _diff_manifests baseline_content new_content 250 =
       match identities with
       | [] => (false, EmptyString)
       | _ :: _ =>
           (true,
            Py.join LF
              ((fun identity => Py.join "" (block_of baseline_docs new_docs identity))
                 <$> identities))
       end.
Proof.
  intros baseline_docs new_docs.
  destruct (sorted_identities_sorted baseline_docs new_docs) as (Hsorted & Hnodup & Hin).
  exists (filter (fun identity => block_of baseline_docs new_docs identity <> [])
            (sorted_identities baseline_docs new_docs)).
  split; [by apply StronglySorted_filter|]. split; [by apply NoDup_filter|].
  split; [|split].
  - intros identity. rewrite list_elem_of_filter, Hin. tauto.
  - intros identity Hsame [Hblock _]%list_elem_of_filter. apply Hblock.
    unfold block_of. cbn zeta. by rewrite decide_True.
  - rewrite diff_manifests_blocks. cbn zeta. fold baseline_docs new_docs.
    assert (omap (fun identity =>
                    Py.join "" <$> diff_block baseline_docs new_docs 250 identity)
                 (sorted_identities baseline_docs new_docs)
            = (fun identity => Py.join "" (block_of baseline_docs new_docs identity))
                <$> filter (fun identity => block_of baseline_docs new_docs identity <> [])
                      (sorted_identities baseline_docs new_docs)) as ->.
    { rewrite <- omap_filter_fmap. apply list_omap_ext, Forall_Forall2_diag, Forall_forall.
      intros identity _. by rewrite diff_block_block_of. }
    by destruct (filter _ _).
Qed.
End diff.

(** The blocks are bounded: a heading, at most 250 lines and a note. *)
Lemma listing_length (title sign identity : string) (lines : list string) :
  (length (listing title sign identity lines) <= 252)%nat.
Proof.
  unfold listing. cbn [length]. rewrite length_app, length_fmap, length_take.
  unfold line_cap. case_decide; cbn [length]; lia.
Qed.

Lemma capped_length (diff : list string) : (length (capped diff) <= 251)%nat.
Proof.
  unfold capped, line_cap. case_decide; [|lia].
  rewrite length_app, length_take. cbn [length]. lia.
Qed.

Lemma duplicate_identity_last_wins_witness :
  @parse_docs DiffFixture.loader DiffFixture.hasher
    (Py.split DiffFixture.with_duplicate doc_separator)
  = @parse_docs DiffFixture.loader DiffFixture.hasher
      (Py.split DiffFixture.without_duplicate doc_separator).
Proof.
  refine (proj1 (@duplicate_identity_last_wins DiffFixture.loader DiffFixture.hasher
                   DiffFixture.difflib DiffFixture.with_duplicate
                   [] ["kind: Service"] [] "kind: ConfigMap # old" "kind: ConfigMap # new"
                   DiffFixture.configmap_doc DiffFixture.configmap_doc
                   eq_refl _ _ eq_refl eq_refl eq_refl)).
  - vm_compute. discriminate.
  - vm_compute. discriminate.
Defined.

(** ** Template variables *)

(** *** Strings *)

Lemma str_app_assoc (s t u : string) : (s +:+ t) +:+ u = s +:+ t +:+ u.
Proof. induction s as [|c s IH]; [done|]. by rewrite !app_cons, IH. Qed.

Lemma str_app_nil_r (s : string) : s +:+ "" = s.
Proof. induction s as [|c s IH]; [done|]. by rewrite app_cons, IH. Qed.

Lemma str_length_app (s t : string) :
  String.length (s +:+ t) = (String.length s + String.length t)%nat.
Proof. induction s as [|c s IH]; [done|]. rewrite app_cons. cbn. by rewrite IH. Qed.

Lemma str_take_drop (n : nat) (s : string) : str_take n s +:+ Py.drop n s = s.
Proof.
  revert s. induction n as [|n IH]; intros [|c s]; cbn; try done.
  by rewrite app_cons, IH.
Qed.

Lemma str_take_length (n : nat) (s : string) :
  (n <= String.length s)%nat -> String.length (str_take n s) = n.
Proof.
  revert s. induction n as [|n IH]; intros [|c s]; cbn; try done; try lia.
  intros Hn. rewrite IH; lia.
Qed.

Lemma str_take_app (w rest : string) : str_take (String.length w) (w +:+ rest) = w.
Proof. induction w as [|c w IH]; [by destruct rest|]. rewrite app_cons. cbn. by rewrite IH. Qed.

Lemma str_drop_app (w rest : string) : Py.drop (String.length w) (w +:+ rest) = rest.
Proof. induction w as [|c w IH]; [done|]. rewrite app_cons. by cbn. Qed.

Lemma str_app_inv_length (w1 r1 w2 r2 : string) :
  w1 +:+ r1 = w2 +:+ r2 -> String.length w1 = String.length w2 -> w1 = w2 /\ r1 = r2.
Proof.
  revert w2. induction w1 as [|c w1 IH]; intros [|c2 w2]; cbn; try done.
  rewrite !app_cons. intros [= -> Heq] [= Hlen].
  destruct (IH _ Heq Hlen) as [-> ->]. done.
Qed.

Lemma all_in_app (cls : char_class) (u v : string) :
  all_in cls (u +:+ v) = all_in cls u && all_in cls v.
Proof.
  induction u as [|c u IH]; [done|]. rewrite app_cons. cbn. rewrite IH.
  by rewrite andb_assoc.
Qed.

Lemma str_take_add (j n : nat) (s : string) :
  str_take (j + n) s = str_take j s +:+ str_take n (Py.drop j s).
Proof.
  revert s. induction j as [|j IH]; intros s; [done|].
  destruct s as [|c s]; cbn; [by destruct n|]. by rewrite app_cons, IH.
Qed.

Lemma str_drop_length (j : nat) (s : string) :
  (j <= String.length s)%nat ->
  String.length (Py.drop j s) = (String.length s - j)%nat.
Proof.
  revert s. induction j as [|j IH]; intros [|c s]; cbn; try done; try lia.
  intros Hj. apply IH. lia.
Qed.

Lemma str_drop_add (i j : nat) (s : string) : Py.drop (i + j) s = Py.drop j (Py.drop i s).
Proof.
  revert s. induction i as [|i IH]; intros s; [done|].
  destruct s as [|c s]; cbn; [by destruct j|]. apply IH.
Qed.

(** *** The matcher finds matches of the pattern *)

(** What a successful [cls*] stands for: some run of the class was taken
    and the rest of the pattern matched behind it. *)
Lemma greedy_star_sound (cls : char_class) (rest : nat -> string -> option found)
    (k : nat) (cur : string) (r : found) :
  greedy_star cls rest k cur = Some r ->
  exists j, (j <= String.length cur)%nat /\ all_in cls (str_take j cur) = true
            /\ rest (k + j)%nat (Py.drop j cur) = Some r.
Proof.
  revert k. induction cur as [|c cur IH]; intros k; cbn [greedy_star].
  - intros Hr. exists O. rewrite Nat.add_0_r. done.
  - destruct (in_class cls c) eqn:Hc.
    + destruct (greedy_star cls rest (S k) cur) as [r'|] eqn:Hg.
      * intros [= <-]. destruct (IH _ Hg) as (j & Hj & Hall & Hrest).
        exists (S j). cbn. rewrite Hc, Hall. replace (k + S j)%nat with (S k + j)%nat by lia.
        split; [lia|done].
      * intros Hr. exists O. rewrite Nat.add_0_r. cbn. split; [lia|done].
    + intros Hr. exists O. rewrite Nat.add_0_r. cbn. split; [lia|done].
Qed.

(** What a successful [cls+?] stands for, after its first character: the
    shortest run behind which the rest of the pattern matches. *)
Lemma lazy_more_first (cls : char_class) (rest : nat -> string -> option found)
    (k : nat) (cur : string) (r : found) :
  lazy_more cls rest k cur = Some r ->
  exists j, (j <= String.length cur)%nat /\ all_in cls (str_take j cur) = true
            /\ rest (k + j)%nat (Py.drop j cur) = Some r
            /\ forall i, (i < j)%nat -> rest (k + i)%nat (Py.drop i cur) = None.
Proof.
  revert k. induction cur as [|c cur IH]; intros k; cbn [lazy_more].
  - destruct (rest k "") as [r'|] eqn:Hrest; [|done].
    intros [= <-]. exists O. rewrite Nat.add_0_r. cbn.
    split; [lia|]. split; [done|]. split; [done|]. intros i Hi; lia.
  - destruct (rest k (String c cur)) as [r'|] eqn:Hrest.
    + intros [= <-]. exists O. rewrite Nat.add_0_r. cbn.
      split; [lia|]. split; [done|]. split; [done|]. intros i Hi; lia.
    + destruct (in_class cls c) eqn:Hc; [|done].
      intros Hl. destruct (IH _ Hl) as (j & Hj & Hall & Hr & Hmin).
      exists (S j). cbn. rewrite Hc, Hall.
      replace (k + S j)%nat with (S k + j)%nat by lia.
      split; [lia|]. split; [done|]. split; [done|].
      intros [|i] Hi; [by rewrite Nat.add_0_r|].
      replace (k + S i)%nat with (S k + i)%nat by lia. apply Hmin. lia.
Qed.

Lemma greedy_star_complete (cls : char_class) (rest : nat -> string -> option found)
    (k : nat) (u cur : string) :
  all_in cls u = true -> is_Some (rest (k + String.length u)%nat cur) ->
  is_Some (greedy_star cls rest k (u +:+ cur)).
Proof.
  revert k. induction u as [|c u IH]; intros k Hall Hrest.
  - rewrite Nat.add_0_r in Hrest. rewrite app_empty_l.
    destruct cur as [|c cur]; cbn [greedy_star]; [done|].
    destruct (in_class cls c); [|done]. by destruct (greedy_star cls rest (S k) cur).
  - rewrite app_cons. cbn [greedy_star]. cbn in Hall.
    apply andb_true_iff in Hall as [-> Hall].
    destruct (IH (S k) Hall) as [r ->]; [|done].
    cbn [String.length] in Hrest. by replace (S k + String.length u)%nat
      with (k + S (String.length u))%nat by lia.
Qed.

Lemma lazy_more_complete (cls : char_class) (rest : nat -> string -> option found)
    (k : nat) (u cur : string) :
  all_in cls u = true -> is_Some (rest (k + String.length u)%nat cur) ->
  is_Some (lazy_more cls rest k (u +:+ cur)).
Proof.
  revert k. induction u as [|c u IH]; intros k Hall Hrest.
  - rewrite Nat.add_0_r in Hrest. rewrite app_empty_l.
    destruct Hrest as [r Hr]. destruct cur; cbn [lazy_more]; by rewrite Hr.
  - rewrite app_cons. cbn [lazy_more]. cbn in Hall.
    apply andb_true_iff in Hall as [-> Hall].
    destruct (rest k (String c (u +:+ cur))); [done|].
    apply IH; [done|]. cbn [String.length] in Hrest.
    by replace (S k + String.length u)%nat with (k + S (String.length u))%nat by lia.
Qed.

Lemma match_here_cons (q : quantifier) (cls : char_class) (captured : bool)
    (re : list piece) (s : string) :
  match_here (Piece q cls captured :: re) s =
  let rest k cur := behind captured s k (match_here re cur) in
  match q with
  | Once =>
      match s with
      | String c s' => if in_class cls c then rest 1%nat s' else None
      | EmptyString => None
      end
  | GreedyStar => greedy_star cls rest O s
  | LazyPlus =>
      match s with
      | String c s' => if in_class cls c then lazy_more cls rest 1%nat s' else None
      | EmptyString => None
      end
  end.
Proof. reflexivity. Qed.

Lemma behind_Some (captured : bool) (s : string) (k : nat) (r : option found)
    (n : nat) (group : option string) :
  behind captured s k r = Some (n, group) ->
  exists n' group',
    r = Some (n', group') /\ n = (k + n')%nat
    /\ group = if captured then Some (str_take k s) else group'.
Proof. destruct r as [[n' group']|]; [|done]. intros [= <- <-]. eauto. Qed.

(** Soundness: what the matcher returns is a match of the pattern at the
    start of the text. *)
Lemma match_here_sound (re : list piece) (s : string) (n : nat) (group : option string) :
  match_here re s = Some (n, group) ->
  (n <= String.length s)%nat /\ Matches re (str_take n s) group.
Proof.
  revert s n group. induction re as [|[q cls captured] re IH]; intros s n group.
  { intros [= <- <-]. split; [lia|]. destruct s; constructor. }
  rewrite match_here_cons. cbn zeta. destruct q.
  - destruct s as [|c s]; [done|]. destruct (in_class cls c) eqn:Hc; [|done].
    intros (n' & group' & Hre & -> & ->)%behind_Some.
    destruct (IH _ _ _ Hre) as [Hn HM]. split; [cbn; lia|].
    cbn [Nat.add str_take]. by apply Matches_once.
  - intros (j & Hj & Hall & Hrest)%greedy_star_sound.
    apply behind_Some in Hrest as (n' & group' & Hre & -> & ->).
    destruct (IH _ _ _ Hre) as [Hn HM]. rewrite str_drop_length in Hn by done.
    split; [lia|]. rewrite str_take_add. cbn [Nat.add]. by apply Matches_star.
  - destruct s as [|c s]; [done|]. destruct (in_class cls c) eqn:Hc; [|done].
    intros (j & Hj & Hall & Hrest & _)%lazy_more_first.
    apply behind_Some in Hrest as (n' & group' & Hre & -> & ->).
    destruct (IH _ _ _ Hre) as [Hn HM]. rewrite str_drop_length in Hn by done.
    split; [cbn; lia|].
    change (1 + j + n')%nat with (S (j + n')). cbn [str_take].
    rewrite str_take_add, <- app_cons.
    change (1 + j)%nat with (S j). cbn [str_take].
    apply Matches_plus; [by cbn; rewrite Hc|done|done].
Qed.

(** Completeness: where the text starts with a match of the pattern, the
    matcher finds one. *)
Lemma match_here_complete (re : list piece) (w : string) (group : option string)
    (tail : string) :
  Matches re w group -> is_Some (match_here re (w +:+ tail)).
Proof.
  induction 1 as [|cls captured re c w group Hc _ IH
                  |cls captured re u w group Hu _ IH
                  |cls captured re u w group Hu Hne _ IH].
  - done.
  - rewrite match_here_cons, app_cons. cbn zeta. rewrite Hc.
    destruct IH as [[n g] ->]. done.
  - rewrite match_here_cons, str_app_assoc. cbn zeta.
    apply greedy_star_complete; [done|]. destruct IH as [[n g] ->]. done.
  - rewrite match_here_cons, str_app_assoc. cbn zeta.
    destruct u as [|c u]; [done|]. rewrite app_cons. cbn in Hu.
    apply andb_true_iff in Hu as [-> Hu].
    apply lazy_more_complete; [done|]. destruct IH as [[n g] ->]. done.
Qed.

(** *** The shortest name *)

(** A match of [pre ++ re] splits into a match of [pre] and what the
    matcher finds for [re] behind it. *)
Lemma match_here_app (pre re : list piece) (s : string) (n : nat) (group : option string) :
  Forall (fun p => piece_captured p = false) pre ->
  match_here (pre ++ re) s = Some (n, group) ->
  exists n1 n2,
    n = (n1 + n2)%nat /\ (n1 <= String.length s)%nat
    /\ Matches pre (str_take n1 s) None
    /\ match_here re (Py.drop n1 s) = Some (n2, group).
Proof.
  intros Hpre. revert s n.
  induction Hpre as [|[q cls captured] pre Hcap _ IH]; intros s n.
  { intros Hre. exists O, n. cbn. repeat split; [lia| |done]. destruct s; constructor. }
  cbn in Hcap. subst captured. rewrite <- app_comm_cons, match_here_cons. cbn zeta.
  destruct q.
  - destruct s as [|c s]; [done|]. destruct (in_class cls c) eqn:Hc; [|done].
    intros (n' & group' & Hre & -> & ->)%behind_Some.
    destruct (IH _ _ Hre) as (n1 & n2 & -> & Hn1 & HM & Hrest).
    exists (S n1), n2. split; [lia|]. split; [cbn; lia|]. split; [|done].
    cbn [str_take]. by apply (Matches_once cls false).
  - intros (j & Hj & Hall & Hrest)%greedy_star_sound.
    apply behind_Some in Hrest as (n' & group' & Hre & -> & ->).
    destruct (IH _ _ Hre) as (n1 & n2 & -> & Hn1 & HM & Hrest).
    rewrite str_drop_length in Hn1 by done.
    exists (j + n1)%nat, n2. split; [lia|]. split; [lia|]. split.
    + rewrite str_take_add. by apply (Matches_star cls false).
    + by rewrite str_drop_add.
  - destruct s as [|c s]; [done|]. destruct (in_class cls c) eqn:Hc; [|done].
    intros (j & Hj & Hall & Hrest & _)%lazy_more_first.
    apply behind_Some in Hrest as (n' & group' & Hre & -> & ->).
    destruct (IH _ _ Hre) as (n1 & n2 & -> & Hn1 & HM & Hrest).
    rewrite str_drop_length in Hn1 by done.
    exists (S (j + n1)), n2. split; [lia|]. split; [cbn; lia|]. split.
    + cbn [str_take]. rewrite str_take_add, <- app_cons.
      apply (Matches_plus cls false); [by cbn; rewrite Hc|done|done].
    + cbn [Py.drop]. by rewrite str_drop_add.
Qed.

Lemma Matches_once_inv (cls : char_class) (captured : bool) (re : list piece)
    (w : string) (group : option string) :
  Matches (Piece Once cls captured :: re) w group ->
  exists c w' group',
    w = String c w' /\ in_class cls c = true /\ Matches re w' group'
    /\ group = if captured then Some (String c EmptyString) else group'.
Proof. inversion 1; subst; eauto 10. Qed.

Lemma Matches_star_inv (cls : char_class) (captured : bool) (re : list piece)
    (w : string) (group : option string) :
  Matches (Piece GreedyStar cls captured :: re) w group ->
  exists u w' group',
    w = u +:+ w' /\ all_in cls u = true /\ Matches re w' group'
    /\ group = if captured then Some u else group'.
Proof. inversion 1; subst; eauto 10. Qed.

Lemma Matches_plus_inv (cls : char_class) (captured : bool) (re : list piece)
    (w : string) (group : option string) :
  Matches (Piece LazyPlus cls captured :: re) w group ->
  exists u w' group',
    w = u +:+ w' /\ all_in cls u = true /\ u <> EmptyString /\ Matches re w' group'
    /\ group = if captured then Some u else group'.
Proof. inversion 1; subst; eauto 10. Qed.

Lemma Matches_app_inv (pre re : list piece) (w : string) (group : option string) :
  Forall (fun p => piece_captured p = false) pre ->
  Matches (pre ++ re) w group ->
  exists w1 w2, w = w1 +:+ w2 /\ Matches pre w1 None /\ Matches re w2 group.
Proof.
  intros Hpre. revert w.
  induction Hpre as [|[q cls captured] pre Hcap _ IH]; intros w.
  { intros HM. exists EmptyString, w. repeat split; [constructor|done]. }
  cbn in Hcap. subst captured. rewrite <- app_comm_cons. intros HM.
  destruct q.
  - apply Matches_once_inv in HM as (c & w' & g & -> & Hc & HM' & ->).
    destruct (IH _ HM') as (w1 & w2 & -> & HM1 & HM2).
    exists (String c w1), w2. split; [done|]. split; [|done].
    by apply (Matches_once cls false).
  - apply Matches_star_inv in HM as (u & w' & g & -> & Hu & HM' & ->).
    destruct (IH _ HM') as (w1 & w2 & -> & HM1 & HM2).
    exists (u +:+ w1), w2. split; [by rewrite str_app_assoc|]. split; [|done].
    by apply (Matches_star cls false).
  - apply Matches_plus_inv in HM as (u & w' & g & -> & Hu & Hne & HM' & ->).
    destruct (IH _ HM') as (w1 & w2 & -> & HM1 & HM2).
    exists (u +:+ w1), w2. split; [by rewrite str_app_assoc|]. split; [|done].
    by apply (Matches_plus cls false).
Qed.

(** Behind a prefix that can match a text in one way only, the captured
    lazy group is the shortest the pattern allows. *)
Lemma match_here_shortest_name (pre post : list piece) (cls : char_class)
    (s : string) (n : nat) (group : option string) :
  Forall (fun p => piece_captured p = false) pre ->
  (forall w1 w2 r1 r2,
     Matches pre w1 None -> Matches pre w2 None -> w1 +:+ r1 = w2 +:+ r2 -> w1 = w2) ->
  match_here (pre ++ Piece LazyPlus cls true :: post) s = Some (n, group) ->
  exists name,
    group = Some name
    /\ forall whole' name' rest',
         Matches (pre ++ Piece LazyPlus cls true :: post) whole' (Some name') ->
         s = whole' +:+ rest' ->
         (String.length name <= String.length name')%nat.
Proof.
  intros Hpre Hunique Hmatch.
  apply match_here_app in Hmatch as (n1 & n2 & -> & Hn1 & Hpre1 & Hlazy); [|done].
  rewrite match_here_cons in Hlazy. cbn zeta in Hlazy.
  destruct (Py.drop n1 s) as [|c t] eqn:Ht; [done|].
  destruct (in_class cls c) eqn:Hc; [|done].
  apply lazy_more_first in Hlazy as (j & Hj & Hall & Hrest & Hmin).
  apply behind_Some in Hrest as (n' & group' & Hre & -> & ->).
  exists (str_take (1 + j) (String c t)). split; [done|].
  intros whole' name' rest' HM Hs.
  apply Matches_app_inv in HM as (w1 & w2 & -> & HM1 & HM2); [|done].
  assert (str_take n1 s = w1) as Hw1.
  { apply (Hunique _ _ (Py.drop n1 s) (w2 +:+ rest')); [done..|].
    by rewrite str_take_drop, Hs, str_app_assoc. }
  assert (String c t = w2 +:+ rest') as Hw2.
  { rewrite <- Ht. rewrite <- (str_take_drop n1 s) in Hs at 1.
    rewrite Hw1, str_app_assoc in Hs. by apply String.app_inj in Hs. }
  apply Matches_plus_inv in HM2 as (u & w3 & g & -> & Hu & Hne & HM3 & [= ->]).
  rewrite str_take_length by (cbn; lia).
  destruct (decide (String.length u < 1 + j)%nat) as [Hlt|]; [exfalso|lia].
  destruct u as [|c' u]; [done|]. rewrite !app_cons in Hw2.
  injection Hw2 as -> Ht'.
  assert (Hi : (String.length u < j)%nat) by (cbn in Hlt; lia).
  specialize (Hmin _ Hi).
  rewrite Ht', str_app_assoc, str_drop_app in Hmin.
  destruct (match_here_complete post w3 g rest' HM3) as [[n3 g3] Hsome].
  by rewrite Hsome in Hmin.
Qed.

(** *** Substitution *)

Lemma sub_scan_skip (re : list piece) (repl : string -> option string -> string)
    (k : nat) (s : string) :
  sub_scan re repl k s = sub_scan re repl O (Py.drop k s).
Proof.
  revert k. induction s as [|c s IH]; intros [|k]; try done.
  cbn [sub_scan Py.drop]. apply IH.
Qed.

Lemma Rewrites_replace_eq (occurs : string -> string -> Prop)
    (repl : string -> string -> string) (s whole name rest out : string) :
  s = whole +:+ rest ->
  occurs whole name ->
  (forall whole' name' rest',
     occurs whole' name' -> s = whole' +:+ rest' ->
     (String.length name <= String.length name')%nat) ->
  Rewrites occurs repl rest out ->
  Rewrites occurs repl s (repl whole name +:+ out).
Proof. intros -> ???. by apply Rewrites_replace. Qed.

Lemma Matches_lazy_nonempty (pre post : list piece) (cls : char_class)
    (w : string) (group : option string) :
  Forall (fun p => piece_captured p = false) pre ->
  Matches (pre ++ Piece LazyPlus cls true :: post) w group -> w <> EmptyString.
Proof.
  intros Hpre (w1 & w2 & -> & _ & HM)%Matches_app_inv; [|done].
  apply Matches_plus_inv in HM as (u & w3 & g & -> & _ & Hne & _).
  intros Hnil. apply (f_equal String.length) in Hnil.
  rewrite !str_length_app in Hnil. destruct u; [done|]. cbn in Hnil. lia.
Qed.

(** [re.sub] with a pattern whose only group is a lazy one behind an
    unambiguous prefix: from left to right, the first match starting at a
    position is the one with the shortest group, it is replaced, and the
    scan resumes behind it. *)
Lemma re_sub_rewrites (pre post : list piece) (cls : char_class)
    (repl : string -> option string -> string) (s : string) :
  Forall (fun p => piece_captured p = false) pre ->
  (forall w1 w2 r1 r2,
     Matches pre w1 None -> Matches pre w2 None -> w1 +:+ r1 = w2 +:+ r2 -> w1 = w2) ->
  let re := pre ++ Piece LazyPlus cls true :: post in
  Rewrites (fun whole name => Matches re whole (Some name))
    (fun whole name => repl whole (Some name)) s (re_sub re repl s).
Proof.
  intros Hpre Hunique re.
  remember (String.length s) as len eqn:Hlen. revert s Hlen.
  induction len as [len IH] using lt_wf_ind. intros s ->.
  destruct s as [|c s]; [constructor|].
  unfold re_sub. cbn [sub_scan].
  destruct (match_here re (String c s)) as [[[|n] group]|] eqn:Hm.
  - exfalso. apply match_here_sound in Hm as [_ HM].
    by apply (Matches_lazy_nonempty pre post cls) in HM.
  - destruct (match_here_shortest_name pre post cls _ _ _ Hpre Hunique Hm)
      as (name & -> & Hshortest).
    pose proof (match_here_sound _ _ _ _ Hm) as [Hn HM].
    rewrite sub_scan_skip. change (Py.drop n s) with (Py.drop (S n) (String c s)).
    apply (Rewrites_replace_eq _ (fun whole name => repl whole (Some name))
             (String c s) (str_take (S n) (String c s)) name
             (Py.drop (S n) (String c s))).
    + by rewrite str_take_drop.
    + exact HM.
    + exact Hshortest.
    + apply (IH (String.length (Py.drop (S n) (String c s)))); [|done].
      rewrite str_drop_length by done. cbn. lia.
  - apply Rewrites_copy.
    + intros whole name rest HM Hs.
      destruct (match_here_complete re whole (Some name) rest HM) as [r Hr].
      rewrite <- Hs in Hr. congruence.
    + apply (IH (String.length s)); [cbn; lia|done].
Qed.

Lemma Rewrites_ext (occurs occurs' : string -> string -> Prop)
    (repl : string -> string -> string) (s out : string) :
  (forall whole name, occurs whole name <-> occurs' whole name) ->
  Rewrites occurs repl s out -> Rewrites occurs' repl s out.
Proof.
  intros Hiff. induction 1 as [|c s out Hnone _ IH|whole name rest out Hocc Hmin _ IH].
  - constructor.
  - apply Rewrites_copy; [|done]. intros whole name rest Hocc.
    apply (Hnone whole name). by apply Hiff.
  - apply Rewrites_replace; [by apply Hiff| |done].
    intros whole' name' rest' Hocc'. apply (Hmin whole'). by apply Hiff.
Qed.

(** *** The two patterns *)

Lemma Matches_lit_inv (c : ascii) (re : list piece) (w : string) (group : option string) :
  Matches (lit c :: re) w group -> exists w', w = String c w' /\ Matches re w' group.
Proof.
  intros (c' & w' & g & -> & Hc & HM & ->)%Matches_once_inv.
  cbn in Hc. apply bool_decide_eq_true in Hc as ->. eauto.
Qed.

Lemma Matches_lit (c : ascii) (re : list piece) (w : string) (group : option string) :
  Matches re w group -> Matches (lit c :: re) (String c w) group.
Proof. intros HM. apply (Matches_once (Literal c) false); [by apply bool_decide_eq_true|done]. Qed.

Lemma Matches_nil_inv (w : string) (group : option string) :
  Matches [] w group -> w = EmptyString /\ group = None.
Proof. by inversion 1. Qed.

Lemma space_run_unique (u1 u2 : string) (c1 c2 : ascii) (x1 x2 : string) :
  all_in Whitespace u1 = true -> all_in Whitespace u2 = true ->
  Py.isspace c1 = false -> Py.isspace c2 = false ->
  u1 +:+ String c1 x1 = u2 +:+ String c2 x2 ->
  u1 = u2 /\ c1 = c2 /\ x1 = x2.
Proof.
  revert u2. induction u1 as [|a u1 IH]; intros [|b u2] Hu1 Hu2 Hc1 Hc2;
    rewrite ?app_cons, ?app_empty_l; cbn in Hu1, Hu2.
  - by intros [= -> ->].
  - intros [= -> _]. apply andb_true_iff in Hu2 as [Hb _]. congruence.
  - intros [= -> _]. apply andb_true_iff in Hu1 as [Ha _]. congruence.
  - intros [= -> Heq]. apply andb_true_iff in Hu1 as [_ Hu1].
    apply andb_true_iff in Hu2 as [_ Hu2].
    destruct (IH _ Hu1 Hu2 Hc1 Hc2 Heq) as (-> & -> & ->). done.
Qed.

(** The variable pattern matches exactly the template variables. *)
Lemma Matches_variable_pattern (whole name : string) :
  Matches variable_pattern whole (Some name) <-> is_variable whole name.
Proof.
  unfold variable_pattern, is_variable. split.
  - intros (w1 & -> & HM)%Matches_lit_inv. apply Matches_lit_inv in HM as (w2 & -> & HM).
    apply Matches_plus_inv in HM as (u & w3 & g & -> & Hu & Hne & HM & [= <-]).
    apply Matches_lit_inv in HM as (w4 & -> & HM).
    apply Matches_lit_inv in HM as (w5 & -> & HM).
    apply Matches_nil_inv in HM as [-> _]. done.
  - intros (-> & Hne & Hall). rewrite !app_cons, app_empty_l.
    do 2 apply Matches_lit.
    apply (Matches_plus AnyButNewline true _ _ _ None); [done..|].
    do 2 apply Matches_lit. constructor.
Qed.

Ltac invert_pattern H :=
  repeat first
    [ apply Matches_lit_inv in H as (? & -> & H)
    | apply Matches_star_inv in H as (? & ? & ? & -> & ? & H & ?)
    | apply Matches_plus_inv in H as (? & ? & ? & -> & ? & ? & H & ?)
    | apply Matches_nil_inv in H as [-> ?] ].

(** The escaped pattern matches exactly the escaped idiom. *)
Lemma Matches_escaped_variable_pattern (whole name : string) :
  Matches escaped_variable_pattern whole (Some name) <-> is_escaped_variable whole name.
Proof.
  unfold escaped_variable_pattern, is_escaped_variable. split.
  - intros HM. invert_pattern HM. simplify_eq.
    do 4 eexists. refine (conj _ (conj _ (conj _ (conj _ (conj eq_refl _))))); done.
  - intros (ws1 & ws2 & ws3 & ws4 & H1 & H2 & H3 & H4 & -> & Hne & Hall).
    change ("{{" +:+ ws1 +:+ "`{{`" +:+ ws2 +:+ "}}" +:+ name +:+ "{{" +:+ ws3
              +:+ "`}}`" +:+ ws4 +:+ "}}")
      with (String "{" (String "{" (ws1 +:+ String "`" (String "{" (String "{"
             (String "`" (ws2 +:+ String "}" (String "}" (name +:+ String "{"
               (String "{" (ws3 +:+ String "`" (String "}" (String "}"
                 (String "`" (ws4 +:+ String "}" (String "}" ""))))))))))))))))%char.
    do 2 apply Matches_lit. apply (Matches_star Whitespace false); [done|].
    do 4 apply Matches_lit. apply (Matches_star Whitespace false); [done|].
    do 2 apply Matches_lit.
    apply (Matches_plus AnyButNewline true _ _ _ None); [done..|].
    do 2 apply Matches_lit. apply (Matches_star Whitespace false _ _ _ None); [done|].
    do 4 apply Matches_lit. apply (Matches_star Whitespace false _ _ _ None); [done|].
    do 2 apply Matches_lit. constructor.
Qed.

Lemma variable_prefix_unique (w1 w2 r1 r2 : string) :
  Matches [lit "{"; lit "{"]%char w1 None -> Matches [lit "{"; lit "{"]%char w2 None ->
  w1 +:+ r1 = w2 +:+ r2 -> w1 = w2.
Proof. intros H1 H2 _. invert_pattern H1. invert_pattern H2. done. Qed.

Lemma escaped_prefix_unique (w1 w2 r1 r2 : string) :
  let pre :=
    [lit "{"; lit "{"; Piece GreedyStar Whitespace false;
     lit "`"; lit "{"; lit "{"; lit "`"; Piece GreedyStar Whitespace false;
     lit "}"; lit "}"]%char in
  Matches pre w1 None -> Matches pre w2 None -> w1 +:+ r1 = w2 +:+ r2 -> w1 = w2.
Proof.
  intros pre H1 H2. subst pre. invert_pattern H1. invert_pattern H2.
  rewrite !app_cons, !str_app_assoc, !app_cons. intros [= Heq].
  apply space_run_unique in Heq as (-> & _ & Heq); [|done..].
  rewrite !str_app_assoc, !app_cons in Heq. injection Heq as Heq.
  apply space_run_unique in Heq as (-> & _ & _); [|done..]. done.
Qed.

(** *** The specification determines the result *)

Lemma Rewrites_functional (occurs : string -> string -> Prop)
    (repl : string -> string -> string) (s out1 out2 : string) :
  (forall whole name, occurs whole name -> whole <> EmptyString) ->
  (forall w1 n1 r1 w2 n2 r2,
     occurs w1 n1 -> occurs w2 n2 -> w1 +:+ r1 = w2 +:+ r2 ->
     String.length n1 = String.length n2 -> w1 = w2 /\ n1 = n2) ->
  Rewrites occurs repl s out1 -> Rewrites occurs repl s out2 -> out1 = out2.
Proof.
  intros Hne Hunique H1. revert out2.
  induction H1 as [|c s out Hnone _ IH|whole name rest out Hocc Hmin _ IH];
    intros out2 H2.
  - remember EmptyString as s eqn:Hs.
    destruct H2 as [|c s out Hnone _|whole name rest out Hocc Hmin _]; [done..|].
    destruct whole; [by apply Hne in Hocc|done].
  - remember (String c s) as s0 eqn:Hs.
    destruct H2 as [|c' s' out' Hnone' H2|whole name rest out' Hocc Hmin H2]; [done| |].
    + injection Hs as -> ->. f_equal. by apply IH.
    + subst. exfalso. by apply (Hnone whole name rest).
  - remember (whole +:+ rest) as s0 eqn:Hs.
    destruct H2 as [|c' s' out' Hnone' H2|whole' name' rest' out' Hocc' Hmin' H2].
    + destruct whole; [by apply Hne in Hocc|done].
    + exfalso. by apply (Hnone' whole name rest).
    + assert (String.length name = String.length name') as Hlen.
      { apply Nat.le_antisymm.
        - by apply (Hmin whole' name' rest').
        - by apply (Hmin' whole name rest). }
      destruct (Hunique _ _ _ _ _ _ Hocc Hocc' (eq_sym Hs) Hlen) as [-> ->].
      apply String.app_inj in Hs as ->. f_equal. by apply IH.
Qed.

Ltac normalize_app H :=
  repeat (progress (rewrite ?app_cons, ?app_empty_l, ?str_app_assoc in H)).

Lemma is_variable_nonempty (whole name : string) : is_variable whole name -> whole <> "".
Proof. by intros (-> & _). Qed.

Lemma is_variable_unique (w1 n1 r1 w2 n2 r2 : string) :
  is_variable w1 n1 -> is_variable w2 n2 -> w1 +:+ r1 = w2 +:+ r2 ->
  String.length n1 = String.length n2 -> w1 = w2 /\ n1 = n2.
Proof.
  intros (-> & _) (-> & _) Heq Hlen. normalize_app Heq. injection Heq as Heq.
  by apply str_app_inv_length in Heq as [-> _].
Qed.

Lemma is_escaped_variable_nonempty (whole name : string) :
  is_escaped_variable whole name -> whole <> "".
Proof. by intros (? & ? & ? & ? & _ & _ & _ & _ & -> & _). Qed.

Lemma is_escaped_variable_unique (w1 n1 r1 w2 n2 r2 : string) :
  is_escaped_variable w1 n1 -> is_escaped_variable w2 n2 -> w1 +:+ r1 = w2 +:+ r2 ->
  String.length n1 = String.length n2 -> w1 = w2 /\ n1 = n2.
Proof.
  intros (a1 & a2 & a3 & a4 & Ha1 & Ha2 & Ha3 & Ha4 & -> & _)
         (b1 & b2 & b3 & b4 & Hb1 & Hb2 & Hb3 & Hb4 & -> & _) Heq Hlen.
  normalize_app Heq. injection Heq as Heq.
  apply space_run_unique in Heq as (-> & _ & Heq); [|done..].
  injection Heq as Heq.
  apply space_run_unique in Heq as (-> & _ & Heq); [|done..].
  injection Heq as Heq.
  apply str_app_inv_length in Heq as [-> Heq]; [|done].
  injection Heq as Heq.
  apply space_run_unique in Heq as (-> & _ & Heq); [|done..].
  injection Heq as Heq.
  apply space_run_unique in Heq as (-> & _ & Heq); [|done..].
  done.
Qed.

Lemma unescape_rewrites (template_str : string) :
  Rewrites is_escaped_variable unescaped_variable template_str
    (re_sub escaped_variable_pattern plain_variable template_str).
Proof.
  apply (Rewrites_ext (fun whole name => Matches escaped_variable_pattern whole (Some name)));
    [apply Matches_escaped_variable_pattern|].
  apply (re_sub_rewrites
           [lit "{"; lit "{"; Piece GreedyStar Whitespace false;
            lit "`"; lit "{"; lit "{"; lit "`"; Piece GreedyStar Whitespace false;
            lit "}"; lit "}"]%char
           [lit "{"; lit "{"; Piece GreedyStar Whitespace false;
            lit "`"; lit "}"; lit "}"; lit "`"; Piece GreedyStar Whitespace false;
            lit "}"; lit "}"]%char
           AnyButNewline plain_variable).
  - repeat constructor.
  - apply escaped_prefix_unique.
Qed.

Lemma substitute_rewrites {V : Type} `{PyStr V} (variables : gmap string V) (s : string) :
  Rewrites is_variable (substitution variables) s
    (re_sub variable_pattern (replace_var variables) s).
Proof.
  apply (Rewrites_ext (fun whole name => Matches variable_pattern whole (Some name)));
    [apply Matches_variable_pattern|].
  apply (re_sub_rewrites [lit "{"; lit "{"]%char [lit "}"; lit "}"]%char
           AnyButNewline (replace_var variables)).
  - repeat constructor.
  - apply variable_prefix_unique.
Qed.

(** C9. [resolve_template_variables] is defined on every template and
    every variable map, and works in two passes. The first reads the
    template from left to right and rewrites every escaped idiom into the
    plain variable [{{name}}]; the second reads that text from left to
    right and replaces every variable whose stripped name is in the map
    by the string form of its value, leaving the others as they are.
    Each pass has one possible result. *)
Theorem resolve_template_variables_spec {V : Type} `{PyStr V}
    (template_str : string) (variables : gmap string V) :
  exists unescaped : string,
    Rewrites is_escaped_variable unescaped_variable template_str unescaped
    /\ (forall other,
          Rewrites is_escaped_variable unescaped_variable template_str other ->
          other = unescaped)
    /\ Rewrites is_variable (substitution variables) unescaped
         (resolve_template_variables template_str variables)
    /\ (forall other,
          Rewrites is_variable (substitution variables) unescaped other ->
          other = resolve_template_variables template_str variables).
Proof.
  exists (re_sub escaped_variable_pattern plain_variable template_str).
  split; [apply unescape_rewrites|]. split.
  { intros other Hother.
    apply (Rewrites_functional is_escaped_variable unescaped_variable template_str);
      [apply is_escaped_variable_nonempty|apply is_escaped_variable_unique|done|].
    apply unescape_rewrites. }
  split; [apply substitute_rewrites|].
  intros other Hother.
  eapply (Rewrites_functional is_variable (substitution variables));
    [apply is_variable_nonempty|apply is_variable_unique|exact Hother|].
  apply substitute_rewrites.
Qed.

(** The scenario of the specification, and names that are not in the
    map, padded with white space, or overlapped by an earlier brace. *)
Example resolve_escaped_origin :
  @resolve_template_variables string TemplateFixture.str_of_string
    "{{`{{`}}origin{{`}}`}}" TemplateFixture.element = "foo".
Proof. vm_compute. reflexivity. Qed.

Example resolve_mixed_template :
  @resolve_template_variables string TemplateFixture.str_of_string
    "helm-charts/{{`{{`}}origin{{`}}`}}:{{ version }} {{missing}} {{{origin}}"
    TemplateFixture.element
  = "helm-charts/foo:1.2.3 {{missing}} {{{origin}}".
Proof. vm_compute. reflexivity. Qed.

(** ** Occurrences, case and separators *)

Lemma startswith_spec (s prefix : string) :
  Py.startswith s prefix = true <-> exists rest, s = prefix +:+ rest.
Proof.
  revert s; induction prefix as [|p prefix IH]; intros s; cbn.
  - split; [intros _; by exists s | done].
  - destruct s as [|c s].
    + split; [done | intros [rest Hrest]; by rewrite app_cons in Hrest].
    + destruct (decide (c = p)) as [->|Hne].
      * rewrite IH. split; intros [rest Hrest]; exists rest.
        -- by rewrite app_cons, Hrest.
        -- rewrite app_cons in Hrest. by injection Hrest.
      * split; [done | intros [rest Hrest]]. rewrite app_cons in Hrest.
        by injection Hrest as -> _.
Qed.

Lemma contains_spec (s sub : string) :
  Py.contains s sub = true <-> exists before after, s = before +:+ sub +:+ after.
Proof.
  induction s as [|c s IH]; cbn [Py.contains].
  - rewrite orb_false_r, startswith_spec. split.
    + intros [rest ->]. by exists "", rest.
    + intros [before [after Hs]]. destruct before; [|by rewrite app_cons in Hs].
      rewrite app_empty_l in Hs. by exists after.
  - rewrite orb_true_iff, startswith_spec, IH. split.
    + intros [[rest ->]|[before [after ->]]].
      * by exists "", rest.
      * by exists (String c before), after.
    + intros [before [after Hs]]. destruct before as [|b before].
      * left. exists after. by rewrite app_empty_l in Hs.
      * right. rewrite app_cons in Hs. injection Hs as -> ->. by exists before, after.
Qed.

Lemma contains_false_cons (c : ascii) (s sub : string) :
  Py.contains (String c s) sub = false -> Py.contains s sub = false.
Proof. cbn [Py.contains]. by intros [_ ?]%orb_false_iff. Qed.

Lemma lower_app (s t : string) :
  PyText.lower (s +:+ t) = PyText.lower s +:+ PyText.lower t.
Proof.
  induction s as [|c s IH]; [done|]. rewrite app_cons. cbn [PyText.lower].
  by rewrite app_cons, IH.
Qed.

Lemma lower_char_idemp (c : ascii) :
  PyText.lower_char (PyText.lower_char c) = PyText.lower_char c.
Proof.
  destruct c as [[] [] [] [] [] [] [] []]; reflexivity.
Qed.

Lemma lower_idemp (s : string) : PyText.lower (PyText.lower s) = PyText.lower s.
Proof.
  induction s as [|c s IH]; [done|]. cbn [PyText.lower]. by rewrite lower_char_idemp, IH.
Qed.

(** Splitting at a one-character separator. *)
Lemma split_char_cons (sep c : ascii) (s : string) :
  Py.split (String c s) (String sep "")
  = if decide (c = sep) then "" :: Py.split s (String sep "")
    else match Py.split s (String sep "") with
         | piece :: pieces => String c piece :: pieces
         | [] => [String c ""]
         end.
Proof.
  unfold Py.split. cbn [Py.split_scan Py.startswith String.length Nat.pred].
  by destruct (decide (c = sep)).
Qed.

Lemma split_char_nonempty (sep : ascii) (s : string) :
  Py.split s (String sep "") <> [].
Proof.
  destruct s as [|c s]; [done|]. rewrite split_char_cons.
  destruct (decide (c = sep)); [done|]. by destruct (Py.split s _).
Qed.

Lemma contains_char_cons (sep c : ascii) (s : string) :
  Py.contains (String c s) (String sep "")
  = bool_decide (c = sep) || Py.contains s (String sep "").
Proof.
  cbn [Py.contains Py.startswith]. by destruct (decide (c = sep)); [rewrite bool_decide_eq_true_2|rewrite bool_decide_eq_false_2].
Qed.

Lemma split_char_pieces (sep : ascii) (s : string) :
  Forall (fun piece => Py.contains piece (String sep "") = false)
         (Py.split s (String sep "")).
Proof.
  induction s as [|c s IH].
  - by repeat constructor.
  - rewrite split_char_cons. destruct (decide (c = sep)) as [->|Hne].
    + by constructor.
    + destruct (Py.split s (String sep "")) as [|piece pieces].
      * repeat constructor. rewrite contains_char_cons. by rewrite bool_decide_eq_false_2.
      * inversion IH as [|? ? Hpiece Hpieces]; subst. constructor; [|done].
        rewrite contains_char_cons, Hpiece. by rewrite bool_decide_eq_false_2.
Qed.

Lemma split_char_absent (sep : ascii) (s : string) :
  Py.contains s (String sep "") = false -> Py.split s (String sep "") = [s].
Proof.
  induction s as [|c s IH]; [done|]. rewrite contains_char_cons.
  intros [Hc Hs]%orb_false_iff. apply bool_decide_eq_false in Hc.
  rewrite split_char_cons, decide_False by done. by rewrite IH.
Qed.

Lemma split_char_app (sep : ascii) (piece rest : string) :
  Py.contains piece (String sep "") = false ->
  Py.split (piece +:+ String sep rest) (String sep "")
  = piece :: Py.split rest (String sep "").
Proof.
  induction piece as [|c piece IH].
  - intros _. rewrite app_empty_l, split_char_cons. by rewrite decide_True.
  - rewrite contains_char_cons. intros [Hc Hs]%orb_false_iff.
    apply bool_decide_eq_false in Hc.
    rewrite app_cons, split_char_cons, decide_False by done. by rewrite IH.
Qed.

Lemma join_cons (sep piece piece' : string) (pieces : list string) :
  Py.join sep (piece :: piece' :: pieces)
  = piece +:+ sep +:+ Py.join sep (piece' :: pieces).
Proof. reflexivity. Qed.

(** The text is its pieces joined by the separator. *)
Lemma split_char_join (sep : ascii) (s : string) :
  Py.join (String sep "") (Py.split s (String sep "")) = s.
Proof.
  induction s as [|c s IH]; [done|]. rewrite split_char_cons.
  pose proof (split_char_nonempty sep s) as Hne.
  destruct (Py.split s (String sep "")) as [|piece pieces] eqn:Hsplit; [done|].
  destruct (decide (c = sep)) as [->|Hc].
  - by rewrite join_cons, app_empty_l, app_cons, app_empty_l, IH.
  - destruct pieces as [|piece' pieces].
    + cbn in IH |- *. by rewrite IH.
    + rewrite join_cons, app_cons. rewrite join_cons in IH. by rewrite IH.
Qed.

(** The last piece is what follows the last separator. *)
Lemma split_char_last (sep : ascii) (s : string) :
  exists dir,
    s = dir +:+ default "" (last (Py.split s (String sep "")))
    /\ ((dir = "" /\ Py.split s (String sep "") = [s])
        \/ exists parent, dir = parent +:+ String sep "").
Proof.
  induction s as [|c s (dir & Hs & Hdir)].
  - exists "". by split; [|left].
  - rewrite split_char_cons. pose proof (split_char_nonempty sep s) as Hne.
    pose proof (split_char_join sep s) as Hjoin.
    destruct (Py.split s (String sep "")) as [|piece pieces] eqn:Hsplit; [done|].
    destruct (decide (c = sep)) as [->|Hc].
    + exists (String sep dir). rewrite last_cons.
      destruct (last (piece :: pieces)) as [l|] eqn:Hlast;
        [|by rewrite last_None in Hlast].
      cbn [default] in *. split; [by rewrite app_cons, <- Hs|].
      right. destruct Hdir as [[-> _]|[parent ->]].
      * by exists "".
      * exists (String sep parent). by rewrite app_cons.
    + destruct pieces as [|piece' pieces].
      * cbn in Hjoin. subst piece. exists "". by split; [|left].
      * destruct Hdir as [[_ ?]|[parent ->]]; [done|].
        exists (String c (parent +:+ String sep "")). split.
        -- rewrite app_cons. f_equal. exact Hs.
        -- right. exists (String c parent). by rewrite app_cons.
Qed.

Lemma split_char_head (sep : ascii) (s : string) :
  exists rest,
    s = default "" (head (Py.split s (String sep ""))) +:+ rest
    /\ (rest = "" \/ Py.startswith rest (String sep "") = true).
Proof.
  induction s as [|c s (rest & Hs & Hrest)].
  - exists "". by split; [|left].
  - rewrite split_char_cons. destruct (decide (c = sep)) as [->|Hc].
    + exists (String sep s). split; [done|right]. cbn. by rewrite decide_True.
    + pose proof (split_char_nonempty sep s) as Hne.
      destruct (Py.split s (String sep "")) as [|piece pieces]; [done|].
      exists rest. cbn in Hs |- *. split; [|done].
      rewrite app_cons. by f_equal.
Qed.

(** ** [_extract_values_files], [_find_chart_source], [_extract_local_chart_name] *)

(** X1. [_extract_values_files] returns one entry per entry of
    [valueFiles], in the same order: an entry that does not start with
    [$values/] is returned as it is, and an entry [$values/rest] whose
    [rest] does not hold the alias again is returned as [rest]. *)
Theorem extract_values_files_entrywise
    (helm_config : ArgoHelmConfig.t) (i : nat) (vf : string) :
  default [] (ArgoHelmConfig.valueFiles helm_config) !! i = Some vf ->
  length (_extract_values_files helm_config)
    = length (default [] (ArgoHelmConfig.valueFiles helm_config))
  /\ (Py.startswith vf "$values/" = false ->
      _extract_values_files helm_config !! i = Some vf)
  /\ (forall rest, vf = "$values/" +:+ rest -> Py.contains rest "$values/" = false ->
      _extract_values_files helm_config !! i = Some rest).
Proof.
  intros Hi. split; [apply extract_values_files_length|]. split.
  - intros Hvf. by apply extract_values_files_verbatim.
  - intros rest -> Hrest. by apply extract_values_files_leading_only.
Qed.

Lemma extract_values_files_entrywise_witness :
  _extract_values_files
    (Fixtures.helm_values ["values.yaml"; "$values/envs/prod.yaml"]) !! 1%nat
  = Some "envs/prod.yaml".
Proof.
  refine (proj2 (proj2 (extract_values_files_entrywise
            (Fixtures.helm_values ["values.yaml"; "$values/envs/prod.yaml"])
            1 "$values/envs/prod.yaml" _)) "envs/prod.yaml" _ _);
    reflexivity.
Defined.

Lemma find_none_Forall {A : Type} (f : A -> bool) (l : list A) :
  List.find f l = None <-> Forall (fun x => f x = false) l.
Proof.
  induction l as [|x l IH]; cbn [List.find].
  - split; [by constructor | done].
  - destruct (f x) eqn:Hx.
    + split; [done|]. intros Hall. inversion Hall; congruence.
    + rewrite IH. split; [by constructor|]. by inversion 1.
Qed.

Lemma find_Some_elem_of {A : Type} (f : A -> bool) (l : list A) (x : A) :
  List.find f l = Some x -> x ∈ l /\ f x = true.
Proof.
  induction l as [|y l IH]; cbn [List.find]; [done|].
  destruct (f y) eqn:Hy.
  - intros [= ->]. split; [left | done].
  - intros [??]%IH. split; [by right | done].
Qed.

(** X2. [_find_chart_source] returns one of the sources of the spec.  A
    source with a [chart] key wins over every source that has only a
    [path], wherever it stands; a [path] source is returned only when no
    source has a chart; and there is no result exactly when no source has
    either key. *)
Theorem find_chart_source_prefers_chart (spec : ArgoSpec.t) :
  match _find_chart_source spec with
  | Some src =>
      src ∈ spec_sources spec
      /\ (is_Some (ArgoSource.chart src)
          \/ (is_Some (ArgoSource.path src)
              /\ Forall (fun s => ArgoSource.chart s = None) (spec_sources spec)))
  | None =>
      Forall (fun s => ArgoSource.chart s = None /\ ArgoSource.path s = None)
             (spec_sources spec)
  end.
Proof.
  unfold _find_chart_source. destruct (spec_sources spec) as [|s0 sources] eqn:Hsources.
  { constructor. }
  rewrite <- Hsources. clear Hsources.
  destruct (List.find (fun src => bool_decide (is_Some (ArgoSource.chart src))) _)
    as [src|] eqn:Hchart.
  - apply find_Some_elem_of in Hchart as [Hin Hc]. split; [done|left].
    by apply bool_decide_eq_true in Hc.
  - apply find_none_Forall in Hchart.
    assert (Forall (fun s => ArgoSource.chart s = None) (spec_sources spec)) as Hnone.
    { eapply Forall_impl; [exact Hchart|]. intros s Hs. cbn in Hs.
      apply bool_decide_eq_false in Hs. destruct (ArgoSource.chart s); [|done].
      by destruct Hs. }
    destruct (List.find (fun src => bool_decide (is_Some (ArgoSource.path src))) _)
      as [src|] eqn:Hpath.
    + apply find_Some_elem_of in Hpath as [Hin Hp]. split; [done|right].
      split; [|done]. by apply bool_decide_eq_true in Hp.
    + apply find_none_Forall in Hpath. rewrite Forall_forall in Hnone, Hpath.
      apply Forall_forall. intros s Hs. split; [by apply Hnone|].
      specialize (Hpath s Hs). cbn in Hpath. apply bool_decide_eq_false in Hpath.
      destruct (ArgoSource.path s); [|done]. by destruct Hpath.
Qed.

(** X3. [_extract_local_chart_name] returns what follows the last [/] of
    the chart reference: the result holds no [/], and the reference is
    the result behind a prefix that is empty or ends with [/]. *)
Theorem extract_local_chart_name_last_segment (chart_name : string) :
  Py.contains (_extract_local_chart_name chart_name) "/" = false
  /\ exists dir,
       chart_name = dir +:+ _extract_local_chart_name chart_name
       /\ (dir = "" \/ exists parent, dir = parent +:+ "/").
Proof.
  unfold _extract_local_chart_name.
  destruct (Py.contains chart_name "/") eqn:Hslash.
  - split.
    + pose proof (split_char_pieces "/" chart_name) as Hall.
      pose proof (split_char_nonempty "/" chart_name) as Hne.
      destruct (last (Py.split chart_name "/")) as [piece|] eqn:Hlast;
        [|by apply last_None in Hlast].
      rewrite Forall_forall in Hall. apply Hall.
      apply last_Some in Hlast as [front ->]. set_solver.
    + destruct (split_char_last "/" chart_name) as (dir & Hs & Hdir).
      exists dir. split; [done|]. destruct Hdir as [[-> _]|?]; [by left | by right].
  - split; [done|]. exists "". by split; [|left].
Qed.

Lemma find_chart_source_is_Some (spec : ArgoSpec.t) (src : ArgoSource.t) :
  src ∈ spec_sources spec -> is_Some (ArgoSource.path src) ->
  is_Some (_find_chart_source spec).
Proof.
  intros Hin Hpath. unfold _find_chart_source.
  destruct (spec_sources spec) as [|s0 sources] eqn:Hsources; [by inversion Hin|].
  rewrite <- Hsources in Hin |- *. clear Hsources.
  destruct (List.find (fun src => bool_decide (is_Some (ArgoSource.chart src))) _);
    [done|].
  destruct (List.find (fun src => bool_decide (is_Some (ArgoSource.path src))) _)
    eqn:Hfind; [done|].
  apply find_none_Forall in Hfind. rewrite Forall_forall in Hfind.
  specialize (Hfind src Hin). cbn in Hfind. by apply bool_decide_eq_false in Hfind.
Qed.

Lemma path_candidate_Some `{FileSystem} (kustomize : bool) (src : ArgoSource.t)
    (p : string) :
  path_candidate kustomize src = Some p ->
  ArgoSource.path src = Some p /\ str_truthy (Some p) = true.
Proof.
  unfold path_candidate. destruct (ArgoSource.path src) as [path|]; [|done].
  destruct (negb _); cbn [andb]; [|done].
  destruct (str_truthy (Some path)) eqn:Htruthy; cbn [andb]; [|done].
  case_bool_decide; [|done]. by intros [= ->].
Qed.

(** X4. An Application none of whose sources has a chart, and one of
    whose sources is a Kustomize directory, is parsed as a Kustomize
    application: the chart fields are empty, there are no values files,
    the path is that of the last Kustomize source, and a plain-manifests
    path among the sources is not kept. *)
Theorem parse_argocd_application_kustomize_only `{YamlLoader} `{FileSystem}
    (app_path : Path) (chart_path_resolver : string -> Path)
    (doc : ArgoDocument.t) (p : string) :
  let spec := default ArgoSpec.empty (ArgoDocument.spec doc) in
  let name :=
    default "" (ArgoMetadata.name
                  (default ArgoMetadata.empty (ArgoDocument.metadata doc))) in
  let namespace :=
    default "default"
      (ArgoDestination.namespace
         (default ArgoDestination.empty (ArgoSpec.destination spec))) in
  _find_application_document app_path = Some doc ->
  Forall (fun s => ArgoSource.chart s = None) (spec_sources spec) ->
  last (omap (path_candidate true) (spec_sources spec)) = Some p ->
  parse_argocd_application app_path chart_path_resolver
  = Some (ArgoAppConfig.Build name "" "" "" [] namespace name false
            (Some app_path) (Some "") None true (Some p) None).
Proof.
  intros spec name namespace Hdoc Hnochart Hlast.
  unfold parse_argocd_application. rewrite Hdoc. fold spec.
  assert (is_Some (_find_chart_source spec)) as [chart_source ->].
  { apply last_Some in Hlast as [front Hfront].
    assert (p ∈ omap (path_candidate true) (spec_sources spec)) as Hp
      by (rewrite Hfront; set_solver).
    apply list_elem_of_omap in Hp as (src & Hin & Hsrc).
    apply path_candidate_Some in Hsrc as [Hpath _].
    apply (find_chart_source_is_Some spec src); [done | by rewrite Hpath]. }
  rewrite classify_sources_helm, classify_sources_kustomize, Hlast.
  assert (List.find has_chart (spec_sources spec) = None) as ->.
  { apply find_none_Forall. eapply Forall_impl; [exact Hnochart|].
    intros s Hs. unfold has_chart. rewrite Hs. by apply bool_decide_eq_false_2, is_Some_None. }
  rewrite bool_decide_eq_true_2 by done.
  assert (str_truthy (Some p) = true) as ->.
  { apply last_Some in Hlast as [front Hfront].
    assert (p ∈ omap (path_candidate true) (spec_sources spec)) as Hp
      by (rewrite Hfront; set_solver).
    apply list_elem_of_omap in Hp as (src & Hin & Hsrc).
    by apply path_candidate_Some in Hsrc as [_ ?]. }
  reflexivity.
Qed.

Lemma parse_argocd_application_kustomize_only_witness :
  @parse_argocd_application KustomizeFixture.loader KustomizeFixture.fs
    "apps/overlay.yaml" Fixtures.chart_path_resolver
  = Some (ArgoAppConfig.Build "overlay" "" "" "" [] "prod" "overlay" false
            (Some "apps/overlay.yaml") (Some "") None true (Some "overlays/prod") None).
Proof.
  refine (@parse_argocd_application_kustomize_only KustomizeFixture.loader
            KustomizeFixture.fs "apps/overlay.yaml" Fixtures.chart_path_resolver
            (Fixtures.application_doc "overlay" KustomizeFixture.sources)
            "overlays/prod" _ _ _).
  - reflexivity.
  - repeat constructor.
  - reflexivity.
Defined.

(** ** Nested resources ([parse_argocd_resources_from_manifest]) *)

Section resources.
Context `{YamlLoader} `{FileSystem}.

Lemma collect_resource_invariant (source_file : option Path)
    (chart_path_resolver : string -> Path)
    (P : ArgoAppConfig.t -> Prop) (Q : ArgoAppSetConfig.t -> Prop)
    (docs : list yaml_doc) (acc : list ArgoAppConfig.t * list ArgoAppSetConfig.t) :
  (forall d app,
     _parse_application_from_doc d source_file chart_path_resolver = Some app -> P app) ->
  (forall d appset, _parse_applicationset_from_doc d source_file = Some appset -> Q appset) ->
  Forall P acc.1 -> Forall Q acc.2 ->
  let found := foldl (collect_resource source_file chart_path_resolver) acc docs in
  Forall P found.1 /\ Forall Q found.2
  /\ (length found.1 + length found.2 <= length acc.1 + length acc.2 + length docs)%nat.
Proof.
  intros HP HQ. revert acc. induction docs as [|doc docs IH]; intros acc Hacc1 Hacc2.
  { cbn. split; [done|]. split; [done|lia]. }
  cbn [foldl]. cbn zeta in IH |- *.
  set (acc' := collect_resource source_file chart_path_resolver acc doc).
  assert (Forall P acc'.1 /\ Forall Q acc'.2
          /\ (length acc'.1 + length acc'.2 <= length acc.1 + length acc.2 + 1)%nat)
    as (H1 & H2 & Hlen).
  { subst acc'. unfold collect_resource. destruct doc as [d|]; [|by split; [|split; [|lia]]].
    repeat case_match; cbn [fst snd]; rewrite ?Forall_app, ?length_app; cbn [length];
      (split; [|split; [|lia]]); eauto. }
  destruct (IH acc' H1 H2) as (? & ? & ?). split; [done|]. split; [done|].
  cbn [length]. lia.
Qed.

(** X5. Whatever the stream, every Application that
    [parse_argocd_resources_from_manifest] returns is a Helm
    configuration (never a Kustomize or plain-manifests one, also when
    its only source is a path) that carries the given source file and an
    OCI chart name; every ApplicationSet carries the source file; and no
    document yields more than one resource. *)
Theorem nested_applications_are_helm (manifest_content : string)
    (source_file : option Path) (chart_path_resolver : string -> Path) :
  let found :=
    parse_argocd_resources_from_manifest manifest_content source_file
      chart_path_resolver in
  Forall (fun app =>
            ArgoAppConfig.is_kustomize app = false
            /\ ArgoAppConfig.kustomize_path app = None
            /\ ArgoAppConfig.plain_manifests_path app = None
            /\ ArgoAppConfig.source_file app = source_file
            /\ is_Some (ArgoAppConfig.oci_chart_name app)) found.1
  /\ Forall (fun appset => ArgoAppSetConfig.source_file appset = source_file) found.2
  /\ (length found.1 + length found.2 <= length (safe_load_all manifest_content).1)%nat.
Proof.
  unfold parse_argocd_resources_from_manifest.
  destruct (safe_load_all manifest_content) as [docs yaml_error].
  destruct yaml_error.
  { cbn. split; [done|]. split; [done|lia]. }
  cbn [fst]. apply (collect_resource_invariant source_file chart_path_resolver); try done.
  - intros d app. unfold _parse_application_from_doc.
    repeat case_match; try done; intros [= <-]; cbn; eauto 10.
  - intros d appset. unfold _parse_applicationset_from_doc.
    destruct (template_chart_source _). by intros [= <-].
Qed.

(** X6. A YAML error anywhere in the stream makes
    [parse_argocd_resources_from_manifest] return nothing, also when
    documents before the error could be read; [render_recursive] then
    finds no children in that output. *)
Theorem yaml_error_discards_resources (manifest_content : string)
    (source_file : option Path) (chart_path_resolver : string -> Path)
    (app : ArgoAppConfig.t) (repo_root : Path) :
  (safe_load_all manifest_content).2 = true ->
  parse_argocd_resources_from_manifest manifest_content source_file
    chart_path_resolver = ([], [])
  /\ discover_children app manifest_content repo_root chart_path_resolver = [].
Proof.
  intros Herr. unfold discover_children, parse_argocd_resources_from_manifest.
  destruct (safe_load_all manifest_content) as [docs yaml_error].
  cbn in Herr. by subst yaml_error.
Qed.

(** X7. [extract_applicationsets_from_rendered] lists the ApplicationSet
    documents that were read, in order, whether or not the loader failed
    afterwards, and the document that [parse_applicationset_from_manifest]
    expands is the first of them. *)
Theorem extract_applicationsets_first (rendered_content : string) :
  extract_applicationsets_from_rendered rendered_content
  = omap (doc_of_kind "ApplicationSet") (safe_load_all rendered_content).1
  /\ _find_applicationset_document rendered_content
     = head (extract_applicationsets_from_rendered rendered_content).
Proof.
  unfold extract_applicationsets_from_rendered, _find_applicationset_document.
  generalize (safe_load_all rendered_content).1. intros docs.
  assert (forall acc,
            foldl (fun appsets doc =>
                     match doc_of_kind "ApplicationSet" doc with
                     | Some d => appsets ++ [d]
                     | None => appsets
                     end) acc docs
            = acc ++ omap (doc_of_kind "ApplicationSet") docs) as Hfold.
  { induction docs as [|doc docs IH]; intros acc; cbn [foldl omap list_omap].
    - by rewrite app_nil_r.
    - rewrite IH. destruct (doc_of_kind _ doc); [|done]. by rewrite <- app_assoc. }
  rewrite Hfold. cbn [app]. split; [done|].
  clear Hfold. induction docs as [|doc docs IH]; [done|].
  cbn [first_of_kind omap list_omap].
  destruct (doc_of_kind _ doc); [done|]. exact IH.
Qed.
End resources.

Lemma yaml_error_discards_resources_witness :
  @parse_argocd_resources_from_manifest AppSetFixture.appset_loader
    (Fixtures.table_fs [] [] []) "appset" None Fixtures.chart_path_resolver
  = ([], [])
  /\ @extract_applicationsets_from_rendered AppSetFixture.appset_loader "appset"
     = [AppSetFixture.appset_doc].
Proof.
  split; [|reflexivity].
  refine (proj1 (@yaml_error_discards_resources AppSetFixture.appset_loader
                   (Fixtures.table_fs [] [] []) "appset" None
                   Fixtures.chart_path_resolver
                   (ArgoAppConfig.init "root" "" "" "" [] "" "" false None None None
                      false None None) "" _)).
  reflexivity.
Defined.

(** ** Chart and registry names *)

(** X8. The second entry of [appset_charts] adds nothing:
    [is_applicationset_chart] holds exactly when the lower-cased chart
    name contains [feature-deployment], and it ignores case. *)
Theorem is_applicationset_chart_single_indicator (chart_name : string) :
  is_applicationset_chart chart_name
  = Py.contains (PyText.lower chart_name) "feature-deployment"
  /\ is_applicationset_chart (PyText.lower chart_name)
     = is_applicationset_chart chart_name.
Proof.
  unfold is_applicationset_chart. rewrite lower_idemp. split; [|done].
  cbn [existsb appset_charts]. rewrite orb_false_r.
  destruct (Py.contains (PyText.lower chart_name) "feature-deployment") eqn:Hshort;
    [done|].
  cbn [orb]. apply not_true_is_false. intros Hlong. apply not_true_iff_false in Hshort.
  apply Hshort. apply contains_spec in Hlong as (before & after & ->).
  apply contains_spec. exists (before +:+ "pharma-"), after.
  by rewrite str_app_assoc.
Qed.

(** X9. A URL that holds one of the traditional-repository indicators is
    an OCI registry only if it starts with [oci://], whatever OCI
    registry host it names; and the classification ignores case. *)
Theorem is_oci_registry_traditional_wins (repo_url indicator : string) :
  indicator ∈ TRADITIONAL_REPO_INDICATORS ->
  Py.contains (PyText.lower repo_url) indicator = true ->
  is_oci_registry repo_url = Py.startswith (PyText.lower repo_url) "oci://"
  /\ is_oci_registry (PyText.lower repo_url) = is_oci_registry repo_url.
Proof.
  intros Hin Hcontains. unfold is_oci_registry. rewrite lower_idemp. split; [|done].
  destruct (Py.startswith (PyText.lower repo_url) "oci://"); [done|].
  assert (existsb (fun indicator => Py.contains (PyText.lower repo_url) indicator)
            TRADITIONAL_REPO_INDICATORS = true) as ->; [|done].
  apply existsb_exists. exists indicator. split; [|done]. by apply list_elem_of_In.
Qed.

Lemma is_oci_registry_traditional_wins_witness :
  is_oci_registry "https://GHCR.io/Charts/web" = false.
Proof.
  refine (proj1 (is_oci_registry_traditional_wins "https://GHCR.io/Charts/web"
                   "/charts" _ _)).
  - unfold TRADITIONAL_REPO_INDICATORS. set_solver.
  - reflexivity.
Defined.

(** X10. [_extract_registry_host] returns a host without [/]: the URL
    with every [https://] and then every [http://] taken out, cut at its
    first [/]. *)
Theorem extract_registry_host_no_slash (registry_url : string) :
  let registry :=
    Py.replace (Py.replace registry_url "https://" "") "http://" "" in
  Py.contains (_extract_registry_host registry_url) "/" = false
  /\ exists rest,
       registry = _extract_registry_host registry_url +:+ rest
       /\ (rest = "" \/ Py.startswith rest "/" = true).
Proof.
  intros registry. unfold _extract_registry_host. fold registry.
  destruct (Py.contains registry "/") eqn:Hslash.
  - split.
    + pose proof (split_char_pieces "/" registry) as Hall.
      pose proof (split_char_nonempty "/" registry) as Hne.
      destruct (Py.split registry "/") as [|piece pieces]; [done|].
      by inversion Hall.
    + apply split_char_head.
  - split; [done|]. exists "". rewrite str_app_nil_r. by split; [|left].
Qed.

(** ** Levels of [render_recursive] *)

Lemma foldl_record_child (results : list child_result) (st : list string * list string) :
  foldl (fun st r => record_child r st) st results
  = (st.1 ++ rendered_of results, st.2 ++ errors_of results).
Proof.
  revert st. induction results as [|[[[name success] msg] g] results IH]; intros [a e].
  - cbn. by rewrite !app_nil_r.
  - cbn [foldl]. rewrite IH. unfold rendered_of, errors_of.
    cbn [fmap list_fmap concat omap list_omap record_child].
    destruct success; cbn [fst snd]; by rewrite <- ?app_assoc.
Qed.

Lemma run_sequential_returned (tasks : list (M child_result))
    (results : list (child_result * list event)) (st : list string * list string) :
  Forall2 (fun task rt => task = Some (Ok rt.1, rt.2)) tasks results ->
  run_sequential tasks st
  = Some (Ok (foldl (fun st r => record_child r st) st results.*1),
          concat results.*2).
Proof.
  intros Hall. revert st. induction Hall as [|task [r t] tasks results -> _ IH]; intros st.
  - reflexivity.
  - cbn [run_sequential fmap list_fmap foldl concat fst snd]. rewrite bind_ok, IH. done.
Qed.

Lemma run_sequential_raised (before after : list (M child_result))
    (results : list (child_result * list event)) (e : exn) (t : list event)
    (st : list string * list string) :
  Forall2 (fun task rt => task = Some (Ok rt.1, rt.2)) before results ->
  run_sequential (before ++ Some (Raise e, t) :: after) st
  = Some (Raise e, concat results.*2 ++ t).
Proof.
  intros Hall. revert st. induction Hall as [|task [r t0] tasks results -> _ IH]; intros st.
  - cbn [app run_sequential fmap list_fmap concat]. by rewrite bind_raise.
  - cbn [app run_sequential fmap list_fmap concat fst snd]. rewrite bind_ok, IH.
    by rewrite <- app_assoc.
Qed.

Section levels.
Context `{YamlLoader} `{FileSystem} `{Renderer} `{WorkerPool}.

(** A level whose own render and write succeeded, in terms of the loop
    over its children. *)
Lemma render_recursive_level
    (app : ArgoAppConfig.t) (output_dir repo_root : Path)
    (chart_path_resolver : string -> Path) (include_crds : bool)
    (max_depth current_depth : Z) (parallel : bool) (max_workers : Z)
    (content msg : string) (n : Z) :
  current_depth < max_depth ->
  render_helm_chart_to_string app repo_root chart_path_resolver include_crds
    = Ok (true, content, msg) ->
  _write_rendered_output content output_dir = Ok n ->
  let children := discover_children app content repo_root chart_path_resolver in
  let task child :=
    match render_recursive child (path_join output_dir (ArgoAppConfig.name child))
            repo_root chart_path_resolver include_crds max_depth (current_depth + 1)
            true 4 with
    | None => None
    | Some (r, t) => Some (task_result (ArgoAppConfig.name child) r, t)
    end in
  let before := [HelmTemplate (ArgoAppConfig.name app); WriteRendered output_dir] in
  render_recursive app output_dir repo_root chart_path_resolver include_crds
    max_depth current_depth parallel max_workers =
  match children with
  | [] => Some (Ok (true, msg, [ArgoAppConfig.name app]), before)
  | _ :: _ =>
      match (if parallel && bool_decide (Z.of_nat (length children) > 1)
             then run_pool max_workers
                    (map (fun child => (ArgoAppConfig.name child, task child)) children)
                    ([ArgoAppConfig.name app], [])
             else run_sequential (map task children) ([ArgoAppConfig.name app], [])) with
      | None => None
      | Some (Raise e, t) => Some (Raise e, before ++ t)
      | Some (Ok st, t) =>
          match _write_combined_recursive_output output_dir with
          | Ok _ =>
              Some (Ok (level_result msg (Z.of_nat (length children)) st),
                    before ++ t ++ [WriteCombined output_dir])
          | Raise e => Some (Raise e, before ++ t ++ [WriteCombined output_dir])
          end
      end
  end.
Proof.
  intros Hdepth Hrender Hwrite children task before.
  rewrite render_recursive_unfold by done. unfold render_recursive_body.
  rewrite bool_decide_eq_false_2 by lia. rewrite Hrender.
  cbn [call bind negb]. rewrite Hwrite. cbn [bind]. fold children.
  destruct children as [|c cs] eqn:Hchildren; [reflexivity|].
  rewrite <- Hchildren.
  assert (Htask : forall child,
    _render_child_app
      (fun child dir root resolver crds max_depth' depth' parallel' workers' =>
         render_recursive_fuel (Z.to_nat (max_depth - (current_depth + 1)))
           child dir root resolver crds max_depth' depth' parallel' workers')
      child output_dir repo_root chart_path_resolver include_crds max_depth current_depth
    = task child).
  { intros child. by rewrite render_child_app_outcome. }
  rewrite (map_ext _ _ Htask).
  rewrite (map_ext _ (fun child => (ArgoAppConfig.name child, task child)))
    by (intros child; by rewrite Htask).
  destruct (if parallel && _ then _ else _) as [[[st|e] t]|]; cbn [bind]; [|done..].
  unfold call. destruct (_write_combined_recursive_output output_dir); cbn; [|done].
  by rewrite <- !app_assoc.
Qed.
End levels.

Section engine.
Context `{YamlLoader} `{FileSystem} `{Renderer} `{WorkerPool}.

Lemma render_recursive_body_ext
    (self1 self2 : ArgoAppConfig.t -> Path -> Path -> (string -> Path) -> bool -> Z -> Z ->
                   bool -> Z -> M (bool * string * list string))
    (app : ArgoAppConfig.t) (output_dir repo_root : Path)
    (chart_path_resolver : string -> Path) (include_crds : bool)
    (max_depth current_depth : Z) (parallel : bool) (max_workers : Z) :
  (current_depth < max_depth ->
   forall child dir,
     self1 child dir repo_root chart_path_resolver include_crds max_depth
       (current_depth + 1) true 4
     = self2 child dir repo_root chart_path_resolver include_crds max_depth
         (current_depth + 1) true 4) ->
  render_recursive_body self1 app output_dir repo_root chart_path_resolver
    include_crds max_depth current_depth parallel max_workers
  = render_recursive_body self2 app output_dir repo_root chart_path_resolver
      include_crds max_depth current_depth parallel max_workers.
Proof.
  intros Hself. unfold render_recursive_body. case_bool_decide as Hdepth; [done|].
  assert (Htask : forall child,
    _render_child_app self1 child output_dir repo_root chart_path_resolver
      include_crds max_depth current_depth
    = _render_child_app self2 child output_dir repo_root chart_path_resolver
        include_crds max_depth current_depth).
  { intros child. rewrite !render_child_app_outcome. by rewrite Hself by lia. }
  destruct (render_helm_chart_to_string _ _ _ _) as [[[success content] msg]|e];
    cbn [call bind]; [|done].
  destruct success; cbn [negb]; [|done].
  destruct (_write_rendered_output _ _); cbn [bind]; [|done].
  rewrite (map_ext _ _ Htask).
  rewrite (map_ext
             (fun child => (ArgoAppConfig.name child,
                            _render_child_app self1 child output_dir repo_root
                              chart_path_resolver include_crds max_depth current_depth))
             (fun child => (ArgoAppConfig.name child,
                            _render_child_app self2 child output_dir repo_root
                              chart_path_resolver include_crds max_depth current_depth)))
    by (intros child; by rewrite Htask).
  done.
Qed.

Lemma render_recursive_fuel_agree (fuel fuel' : nat)
    (app : ArgoAppConfig.t) (output_dir repo_root : Path)
    (chart_path_resolver : string -> Path) (include_crds : bool)
    (max_depth current_depth : Z) (parallel : bool) (max_workers : Z) :
  (Z.to_nat (max_depth - current_depth) <= fuel)%nat ->
  (Z.to_nat (max_depth - current_depth) <= fuel')%nat ->
  render_recursive_fuel fuel app output_dir repo_root chart_path_resolver
    include_crds max_depth current_depth parallel max_workers
  = render_recursive_fuel fuel' app output_dir repo_root chart_path_resolver
      include_crds max_depth current_depth parallel max_workers.
Proof.
  revert fuel' app output_dir current_depth parallel max_workers.
  induction fuel as [|fuel IH];
    intros fuel' app output_dir current_depth parallel max_workers Hfuel Hfuel';
    destruct fuel' as [|fuel']; cbn [render_recursive_fuel];
    apply render_recursive_body_ext; intros Hlt child dir; try lia.
  apply IH; lia.
Qed.

(** X11. [render_recursive] terminates: each call descends one level and
    the descent stops at [max_depth], so the call returns or raises, and
    its outcome is the one any larger recursion budget gives. *)
Theorem render_recursive_terminates (fuel : nat)
    (app : ArgoAppConfig.t) (output_dir repo_root : Path)
    (chart_path_resolver : string -> Path) (include_crds : bool)
    (max_depth current_depth : Z) (parallel : bool) (max_workers : Z) :
  (Z.to_nat (max_depth - current_depth) <= fuel)%nat ->
  is_Some (render_recursive app output_dir repo_root chart_path_resolver include_crds
             max_depth current_depth parallel max_workers)
  /\ render_recursive_fuel fuel app output_dir repo_root chart_path_resolver
       include_crds max_depth current_depth parallel max_workers
     = render_recursive app output_dir repo_root chart_path_resolver include_crds
         max_depth current_depth parallel max_workers.
Proof.
  intros Hfuel. split; [by apply render_recursive_fuel_is_Some|].
  unfold render_recursive. by apply render_recursive_fuel_agree.
Qed.

(** X12. When the render of the application itself fails or raises,
    [render_recursive] hands that outcome back (failure with the
    renderer's message and no rendered resource, or the exception) after
    the Helm invocation alone: nothing is written and no child is looked
    for. *)
Theorem render_recursive_render_failure
    (app : ArgoAppConfig.t) (output_dir repo_root : Path)
    (chart_path_resolver : string -> Path) (include_crds : bool)
    (max_depth current_depth : Z) (parallel : bool) (max_workers : Z)
    (outcome : result (bool * string * string)) :
  current_depth < max_depth ->
  render_helm_chart_to_string app repo_root chart_path_resolver include_crds = outcome ->
  (forall content msg, outcome <> Ok (true, content, msg)) ->
  render_recursive app output_dir repo_root chart_path_resolver include_crds
    max_depth current_depth parallel max_workers
  = Some (match outcome with
          | Ok (_, _, msg) => Ok (false, msg, [])
          | Raise e => Raise e
          end,
          [HelmTemplate (ArgoAppConfig.name app)]).
Proof.
  intros Hdepth Hrender Hfail. rewrite render_recursive_unfold by done.
  unfold render_recursive_body. rewrite bool_decide_eq_false_2 by lia.
  rewrite Hrender. destruct outcome as [[[success content] msg]|e]; [|done].
  destruct success; [by destruct (Hfail content msg)|]. reflexivity.
Qed.

(** X13. An application whose rendered output holds no nested
    Application or ApplicationSet is a leaf: [render_recursive] writes
    its output, returns success with the renderer's message and the
    application's own name, and writes no combined file. *)
Theorem render_recursive_leaf
    (app : ArgoAppConfig.t) (output_dir repo_root : Path)
    (chart_path_resolver : string -> Path) (include_crds : bool)
    (max_depth current_depth : Z) (parallel : bool) (max_workers : Z)
    (content msg : string) (n : Z) :
  current_depth < max_depth ->
  render_helm_chart_to_string app repo_root chart_path_resolver include_crds
    = Ok (true, content, msg) ->
  _write_rendered_output content output_dir = Ok n ->
  discover_children app content repo_root chart_path_resolver = [] ->
  render_recursive app output_dir repo_root chart_path_resolver include_crds
    max_depth current_depth parallel max_workers
  = Some (Ok (true, msg, [ArgoAppConfig.name app]),
          [HelmTemplate (ArgoAppConfig.name app); WriteRendered output_dir]).
Proof.
  intros Hdepth Hrender Hwrite Hleaf.
  rewrite (render_recursive_level _ _ _ _ _ _ _ _ _ content msg n) by done.
  by rewrite Hleaf.
Qed.

Lemma render_recursive_beyond_depth
    (app : ArgoAppConfig.t) (output_dir repo_root : Path)
    (chart_path_resolver : string -> Path) (include_crds : bool)
    (max_depth current_depth : Z) (parallel : bool) (max_workers : Z) :
  current_depth >= max_depth ->
  render_recursive app output_dir repo_root chart_path_resolver include_crds
    max_depth current_depth parallel max_workers
  = Some (Ok (true, "Max recursion depth (" +:+ pretty max_depth +:+ ") reached", []), []).
Proof.
  intros Hdepth. unfold render_recursive.
  destruct (Z.to_nat _); cbn [render_recursive_fuel]; unfold render_recursive_body;
    by rewrite bool_decide_eq_true_2.
Qed.

Lemma gather_completed_nothing (futures : list (string * result child_result))
    (st : list string * list string) :
  Forall (fun f => exists name msg, f.2 = Ok (name, true, msg, [])) futures ->
  gather_completed futures st = Ok st.
Proof.
  intros Hall. induction Hall as [|[submitted r] futures (name & msg & Hr) _ IH];
    [done|].
  cbn in Hr. subst r. cbn [gather_completed record_child]. destruct st as [a e].
  by rewrite app_nil_r.
Qed.

Lemma concat_nil {A : Type} (ls : list (list A)) :
  Forall (fun l => l = []) ls -> concat ls = [].
Proof. induction 1 as [|l ls -> _ IH]; [done|]. by cbn. Qed.

Section last_level.
Hypothesis as_completed_permutation : forall (A : Type) (l : list A), as_completed A l ≡ₚ l.

(** X14. At the last level below the depth bound the children are
    discovered but none of them is rendered: the call writes its own
    output and the combined file, and returns success with the message
    [Rendered with 0 nested resources] and its own name alone. *)
Theorem render_recursive_last_level
    (app : ArgoAppConfig.t) (output_dir repo_root : Path)
    (chart_path_resolver : string -> Path) (include_crds : bool)
    (max_depth current_depth : Z) (parallel : bool) (max_workers : Z)
    (content msg : string) (n : Z) :
  current_depth + 1 = max_depth -> 0 < max_workers ->
  render_helm_chart_to_string app repo_root chart_path_resolver include_crds
    = Ok (true, content, msg) ->
  _write_rendered_output content output_dir = Ok n ->
  _write_combined_recursive_output output_dir = Ok tt ->
  discover_children app content repo_root chart_path_resolver <> [] ->
  render_recursive app output_dir repo_root chart_path_resolver include_crds
    max_depth current_depth parallel max_workers
  = Some (Ok (true, "Rendered with 0 nested resources", [ArgoAppConfig.name app]),
          [HelmTemplate (ArgoAppConfig.name app); WriteRendered output_dir;
           WriteCombined output_dir]).
Proof.
  intros Hdepth Hw Hrender Hwrite Hcombined Hchildren.
  rewrite (render_recursive_level _ _ _ _ _ _ _ _ _ content msg n) by (done || lia).
  cbn zeta. rewrite Hcombined.
  set (children := discover_children app content repo_root chart_path_resolver) in *.
  set (task := fun child : ArgoAppConfig.t =>
                match render_recursive child
                        (path_join output_dir (ArgoAppConfig.name child)) repo_root
                        chart_path_resolver include_crds max_depth (current_depth + 1)
                        true 4 with
                | Some (r, t) => Some (task_result (ArgoAppConfig.name child) r, t)
                | None => None
                end).
  assert (Htask : forall child,
    task child
    = Some (Ok (ArgoAppConfig.name child, true,
                "Max recursion depth (" +:+ pretty max_depth +:+ ") reached", []), [])).
  { intros child. subst task. cbn beta.
    by rewrite render_recursive_beyond_depth by lia. }
  assert (Hloop :
    (if parallel && bool_decide (Z.of_nat (length children) > 1)
     then run_pool max_workers
            (map (fun child => (ArgoAppConfig.name child, task child)) children)
            ([ArgoAppConfig.name app], [])
     else run_sequential (map task children) ([ArgoAppConfig.name app], []))
    = Some (Ok ([ArgoAppConfig.name app], []), [])).
  { destruct (parallel && _).
    - set (finished :=
             (fun child : ArgoAppConfig.t =>
                (ArgoAppConfig.name child,
                 @Ok child_result
                   (ArgoAppConfig.name child, true,
                    "Max recursion depth (" +:+ pretty max_depth +:+ ") reached", []),
                 @nil event)) <$> children).
      rewrite (run_pool_finished max_workers _ finished) by
        (try done; subst finished; apply Forall2_fmap, Forall_Forall2_diag, Forall_forall;
         intros child _; cbn; by rewrite Htask).
      rewrite gather_completed_nothing, concat_nil; [done| |].
      + apply Forall_fmap, Forall_forall. intros f Hf.
        rewrite as_completed_permutation in Hf. subst finished.
        apply list_elem_of_fmap in Hf as (child & -> & _). done.
      + apply Forall_fmap, Forall_forall. intros f Hf.
        rewrite as_completed_permutation in Hf. subst finished.
        apply list_elem_of_fmap in Hf as (child & -> & _). cbn. eauto.
    - rewrite (run_sequential_returned _
                 ((fun child : ArgoAppConfig.t =>
                     ((ArgoAppConfig.name child, true,
                       "Max recursion depth (" +:+ pretty max_depth +:+ ") reached",
                       @nil string) : child_result, @nil event)) <$> children))
        by (apply Forall2_fmap, Forall_Forall2_diag, Forall_forall;
            intros child _; apply Htask).
      rewrite foldl_record_child. cbn [fst snd]. clear Hchildren.
      induction children as [|child children' IH]; [done|].
      cbn [fmap list_fmap] in IH |- *. unfold rendered_of, errors_of in IH |- *.
      cbn [fmap list_fmap concat omap list_omap fst snd List.app] in IH |- *.
      exact IH. }
  clear Htask. subst task. cbn beta in Hloop. rewrite Hloop.
  destruct children as [|c cs] eqn:Hcs; [done|]. rewrite <- Hcs.
  unfold level_result. rewrite bool_decide_eq_true_2 by (rewrite Hcs; cbn [length]; lia).
  reflexivity.
Qed.
End last_level.

Lemma sequential_choice (parallel : bool) (children : list ArgoAppConfig.t) :
  parallel = false \/ length children = 1%nat ->
  parallel && bool_decide (Z.of_nat (length children) > 1) = false.
Proof.
  intros [->| ->]; [done|]. rewrite bool_decide_eq_false_2 by lia. by destruct parallel.
Qed.

(** X15. A level that runs its children one after the other (the call
    was made with [parallel=False], or there is a single child), all of
    which return: the children are rendered in the order in which they
    were discovered, the call succeeds, the resources are the
    application's name followed by those of the children that succeeded,
    in order, the message counts them, and each child that failed is a
    [name: message] entry of the errors, in order. *)
Theorem sequential_level_in_order
    (app : ArgoAppConfig.t) (output_dir repo_root : Path)
    (chart_path_resolver : string -> Path) (include_crds : bool)
    (max_depth current_depth : Z) (parallel : bool) (max_workers : Z)
    (content msg : string) (n : Z)
    (outcome : ArgoAppConfig.t -> (bool * string * list string) * list event) :
  let children := discover_children app content repo_root chart_path_resolver in
  let results : list child_result :=
    (fun child =>
       (ArgoAppConfig.name child, (outcome child).1.1.1, (outcome child).1.1.2,
        (outcome child).1.2)) <$> children in
  current_depth < max_depth ->
  render_helm_chart_to_string app repo_root chart_path_resolver include_crds
    = Ok (true, content, msg) ->
  _write_rendered_output content output_dir = Ok n ->
  _write_combined_recursive_output output_dir = Ok tt ->
  children <> [] ->
  parallel = false \/ length children = 1%nat ->
  (forall child, child ∈ children ->
     render_recursive child (path_join output_dir (ArgoAppConfig.name child)) repo_root
       chart_path_resolver include_crds max_depth (current_depth + 1) true 4
     = Some (Ok (outcome child).1, (outcome child).2)) ->
  render_recursive app output_dir repo_root chart_path_resolver include_crds
    max_depth current_depth parallel max_workers
  = Some (Ok (true,
              "Rendered with " +:+ pretty (Z.of_nat (length (rendered_of results)))
                +:+ " nested resources" +:+
                match errors_of results with
                | [] => EmptyString
                | _ :: _ => " (errors: " +:+ Py.join "; " (errors_of results) +:+ ")"
                end,
              ArgoAppConfig.name app :: rendered_of results),
          [HelmTemplate (ArgoAppConfig.name app); WriteRendered output_dir]
            ++ concat ((fun child => (outcome child).2) <$> children)
            ++ [WriteCombined output_dir]).
Proof.
  intros children results Hdepth Hrender Hwrite Hcombined Hchildren Hseq Hreturned.
  rewrite (render_recursive_level _ _ _ _ _ _ _ _ _ content msg n) by done.
  cbn zeta. fold children. rewrite Hcombined, sequential_choice by done.
  rewrite (run_sequential_returned _
             ((fun child => (((ArgoAppConfig.name child, (outcome child).1.1.1,
                               (outcome child).1.1.2, (outcome child).1.2) : child_result),
                             (outcome child).2)) <$> children)).
  2:{ apply Forall2_fmap, Forall_Forall2_diag, Forall_forall. intros child Hin.
      cbn [fst snd]. rewrite (Hreturned child Hin).
      by destruct (outcome child) as [[[success m] g] t]. }
  rewrite foldl_record_child. rewrite <- !list_fmap_compose. cbn [fst snd].
  change ((fst ∘ _) <$> children) with results.
  change ((snd ∘ _) <$> children)
    with ((fun child => (outcome child).2) <$> children).
  destruct children as [|c cs] eqn:Hcs; [done|]. rewrite <- Hcs.
  unfold level_result. rewrite bool_decide_eq_true_2 by (rewrite Hcs; cbn [length]; lia).
  cbn [List.app length].
  replace (Z.of_nat (S (length (rendered_of results))) - 1)
    with (Z.of_nat (length (rendered_of results))) by lia.
  reflexivity.
Qed.

(** X16. In such a level a child that raises ends the call with its
    exception, whatever the exception is: the children discovered after
    it are not rendered, what the earlier children wrote stays, and the
    combined file is not written. *)
Theorem sequential_level_stops_at_first_raise
    (app : ArgoAppConfig.t) (output_dir repo_root : Path)
    (chart_path_resolver : string -> Path) (include_crds : bool)
    (max_depth current_depth : Z) (parallel : bool) (max_workers : Z)
    (content msg : string) (n : Z)
    (outcome : ArgoAppConfig.t -> (bool * string * list string) * list event)
    (before after : list ArgoAppConfig.t) (child : ArgoAppConfig.t)
    (e : exn) (t : list event) :
  current_depth < max_depth ->
  render_helm_chart_to_string app repo_root chart_path_resolver include_crds
    = Ok (true, content, msg) ->
  _write_rendered_output content output_dir = Ok n ->
  discover_children app content repo_root chart_path_resolver
    = before ++ child :: after ->
  parallel = false \/ length (before ++ child :: after) = 1%nat ->
  (forall c, c ∈ before ->
     render_recursive c (path_join output_dir (ArgoAppConfig.name c)) repo_root
       chart_path_resolver include_crds max_depth (current_depth + 1) true 4
     = Some (Ok (outcome c).1, (outcome c).2)) ->
  render_recursive child (path_join output_dir (ArgoAppConfig.name child)) repo_root
    chart_path_resolver include_crds max_depth (current_depth + 1) true 4
    = Some (Raise e, t) ->
  render_recursive app output_dir repo_root chart_path_resolver include_crds
    max_depth current_depth parallel max_workers
  = Some (Raise e,
          [HelmTemplate (ArgoAppConfig.name app); WriteRendered output_dir]
            ++ concat ((fun c => (outcome c).2) <$> before) ++ t).
Proof.
  intros Hdepth Hrender Hwrite Hchildren Hseq Hreturned Hraised.
  rewrite (render_recursive_level _ _ _ _ _ _ _ _ _ content msg n) by done.
  cbn zeta. rewrite Hchildren, sequential_choice by done.
  rewrite map_app. cbn [map]. rewrite Hraised. cbn [task_result].
  rewrite (run_sequential_raised _ _
             ((fun c => (((ArgoAppConfig.name c, (outcome c).1.1.1,
                           (outcome c).1.1.2, (outcome c).1.2) : child_result),
                         (outcome c).2)) <$> before)).
  2:{ apply Forall2_fmap, Forall_Forall2_diag, Forall_forall. intros c Hin.
      cbn [fst snd]. rewrite (Hreturned c Hin).
      by destruct (outcome c) as [[[success m] g] t0]. }
  rewrite <- !list_fmap_compose.
  change ((snd ∘ _) <$> before) with ((fun c => (outcome c).2) <$> before).
  by destruct before.
Qed.
End engine.

Lemma render_recursive_terminates_witness :
  is_Some (@render_recursive TreeFixture.loader TreeFixture.fs
             (TreeFixture.renderer TreeFixture.helm_failure) TreeFixture.in_order
             (TreeFixture.app "root") "out" "repo" Fixtures.chart_path_resolver true
             5 0 true 4)
  /\ @render_recursive_fuel TreeFixture.loader TreeFixture.fs
       (TreeFixture.renderer TreeFixture.helm_failure) TreeFixture.in_order 9
       (TreeFixture.app "root") "out" "repo" Fixtures.chart_path_resolver true
       5 0 true 4
     = @render_recursive TreeFixture.loader TreeFixture.fs
         (TreeFixture.renderer TreeFixture.helm_failure) TreeFixture.in_order
         (TreeFixture.app "root") "out" "repo" Fixtures.chart_path_resolver true
         5 0 true 4.
Proof.
  apply (@render_recursive_terminates TreeFixture.loader TreeFixture.fs
           (TreeFixture.renderer TreeFixture.helm_failure) TreeFixture.in_order 9
           (TreeFixture.app "root") "out" "repo" Fixtures.chart_path_resolver true
           5 0 true 4).
  vm_compute. lia.
Defined.

Lemma render_recursive_render_failure_witness :
  @render_recursive TreeFixture.loader TreeFixture.fs
    (TreeFixture.renderer TreeFixture.helm_failure) TreeFixture.in_order
    (TreeFixture.app "b") "out/b" "repo" Fixtures.chart_path_resolver true 5 1 true 4
  = Some (Ok (false, "Helm template failed: boom", []), [HelmTemplate "b"]).
Proof.
  refine (@render_recursive_render_failure TreeFixture.loader TreeFixture.fs
            (TreeFixture.renderer TreeFixture.helm_failure) TreeFixture.in_order
            (TreeFixture.app "b") "out/b" "repo" Fixtures.chart_path_resolver true
            5 1 true 4 TreeFixture.helm_failure _ _ _).
  - lia.
  - reflexivity.
  - intros content msg. discriminate.
Defined.

Lemma render_recursive_leaf_witness :
  @render_recursive TreeFixture.loader TreeFixture.fs
    (TreeFixture.renderer TreeFixture.helm_failure) TreeFixture.in_order
    (TreeFixture.app "a") "out/a" "repo" Fixtures.chart_path_resolver true 5 1 true 4
  = Some (Ok (true, "Chart pulled from OCI", ["a"]),
          [HelmTemplate "a"; WriteRendered "out/a"]).
Proof.
  refine (@render_recursive_leaf TreeFixture.loader TreeFixture.fs
            (TreeFixture.renderer TreeFixture.helm_failure) TreeFixture.in_order
            (TreeFixture.app "a") "out/a" "repo" Fixtures.chart_path_resolver true
            5 1 true 4 "leaf-out" "Chart pulled from OCI" 1 _ _ _ _).
  - lia.
  - reflexivity.
  - reflexivity.
  - reflexivity.
Defined.

Lemma render_recursive_last_level_witness :
  @render_recursive TreeFixture.loader TreeFixture.fs
    (TreeFixture.renderer TreeFixture.helm_failure) TreeFixture.in_order
    (TreeFixture.app "root") "out" "repo" Fixtures.chart_path_resolver true 1 0 true 4
  = Some (Ok (true, "Rendered with 0 nested resources", ["root"]),
          [HelmTemplate "root"; WriteRendered "out"; WriteCombined "out"]).
Proof.
  refine (@render_recursive_last_level TreeFixture.loader TreeFixture.fs
            (TreeFixture.renderer TreeFixture.helm_failure) TreeFixture.in_order
            in_order_permutation
            (TreeFixture.app "root") "out" "repo" Fixtures.chart_path_resolver true
            1 0 true 4 "root-out" "Chart pulled from OCI" 1 _ _ _ _ _ _).
  - lia.
  - lia.
  - reflexivity.
  - reflexivity.
  - reflexivity.
  - vm_compute. discriminate.
Defined.

Lemma sequential_level_in_order_witness :
  @render_recursive TreeFixture.loader TreeFixture.fs
    (TreeFixture.renderer TreeFixture.helm_failure) TreeFixture.in_order
    (TreeFixture.app "root") "out" "repo" Fixtures.chart_path_resolver true 5 0 false 4
  = Some (Ok (true,
              "Rendered with 2 nested resources (errors: b: Helm template failed: boom)",
              ["root"; "a"; "c"]),
          [HelmTemplate "root"; WriteRendered "out"; HelmTemplate "a";
           WriteRendered "out/a"; HelmTemplate "b"; HelmTemplate "c";
           WriteRendered "out/c"; WriteCombined "out"]).
Proof.
  refine (@sequential_level_in_order TreeFixture.loader TreeFixture.fs
            (TreeFixture.renderer TreeFixture.helm_failure) TreeFixture.in_order
            (TreeFixture.app "root") "out" "repo" Fixtures.chart_path_resolver true
            5 0 false 4 "root-out" "Chart pulled from OCI" 1
            (fun child =>
               if decide (ArgoAppConfig.name child = "b")
               then ((false, "Helm template failed: boom", []), [HelmTemplate "b"])
               else ((true, "Chart pulled from OCI", [ArgoAppConfig.name child]),
                     [HelmTemplate (ArgoAppConfig.name child);
                      WriteRendered ("out/" +:+ ArgoAppConfig.name child)]))
            _ _ _ _ _ _ _).
  - lia.
  - reflexivity.
  - reflexivity.
  - reflexivity.
  - vm_compute. discriminate.
  - by left.
  - intros child Hin. apply list_elem_of_In in Hin. vm_compute in Hin.
    destruct Hin as [<-|[<-|[<-|[]]]]; vm_compute; reflexivity.
Defined.

Lemma sequential_level_stops_at_first_raise_witness :
  @render_recursive TreeFixture.loader TreeFixture.fs
    (TreeFixture.renderer (Raise TreeFixture.os_error)) TreeFixture.in_order
    (TreeFixture.app "root") "out" "repo" Fixtures.chart_path_resolver true 5 0 false 4
  = Some (Raise TreeFixture.os_error,
          [HelmTemplate "root"; WriteRendered "out"; HelmTemplate "a";
           WriteRendered "out/a"; HelmTemplate "b"]).
Proof.
  refine (@sequential_level_stops_at_first_raise TreeFixture.loader TreeFixture.fs
            (TreeFixture.renderer (Raise TreeFixture.os_error)) TreeFixture.in_order
            (TreeFixture.app "root") "out" "repo" Fixtures.chart_path_resolver true
            5 0 false 4 "root-out" "Chart pulled from OCI" 1
            (fun child =>
               ((true, "Chart pulled from OCI", [ArgoAppConfig.name child]),
                [HelmTemplate (ArgoAppConfig.name child);
                 WriteRendered ("out/" +:+ ArgoAppConfig.name child)]))
            [TreeFixture.app "a"] [TreeFixture.app "c"] (TreeFixture.app "b")
            TreeFixture.os_error [HelmTemplate "b"] _ _ _ _ _ _ _).
  - lia.
  - reflexivity.
  - reflexivity.
  - reflexivity.
  - by left.
  - intros c Hin. apply list_elem_of_In in Hin. vm_compute in Hin.
    destruct Hin as [<-|[]]; vm_compute; reflexivity.
  - reflexivity.
Defined.


(** ** White space *)

Lemma lstrip_cases (s : string) :
  Py.lstrip s = "" \/ exists c s', Py.lstrip s = String c s' /\ Py.isspace c = false.
Proof.
  induction s as [|c s IH]; [by left|]. cbn [Py.lstrip].
  destruct (Py.isspace c) eqn:Hc; [done|]. right. eauto.
Qed.

Lemma lstrip_fixed (c : ascii) (s : string) :
  Py.isspace c = false -> Py.lstrip (String c s) = String c s.
Proof. intros Hc. cbn [Py.lstrip]. by rewrite Hc. Qed.

Lemma rstrip_head (c : ascii) (s : string) :
  Py.isspace c = false -> exists r, Py.rstrip (String c s) = String c r.
Proof.
  intros Hc. cbn [Py.rstrip]. destruct (Py.rstrip s); [|by eauto].
  rewrite Hc. eauto.
Qed.

Lemma rstrip_idemp (s : string) : Py.rstrip (Py.rstrip s) = Py.rstrip s.
Proof.
  induction s as [|c s IH]; [done|]. cbn [Py.rstrip].
  destruct (Py.rstrip s) as [|r rs] eqn:Hr.
  - destruct (Py.isspace c) eqn:Hc; [done|]. cbn [Py.rstrip]. by rewrite Hc.
  - cbn [Py.rstrip]. cbn [Py.rstrip] in IH. by rewrite IH.
Qed.

Lemma strip_idemp (s : string) : Py.strip (Py.strip s) = Py.strip s.
Proof.
  unfold Py.strip. destruct (lstrip_cases s) as [->|(c & s' & -> & Hc)]; [done|].
  destruct (rstrip_head c s' Hc) as [r Hr]. rewrite Hr, lstrip_fixed by done.
  by rewrite <- Hr, rstrip_idemp.
Qed.

(** ** Documents of a stream ([parse_docs]) *)

Section streams.
Context `{YamlLoader} `{PyHash} `{Difflib}.

Lemma identity_of_strip (raw : string) : identity_of (Py.strip raw) = identity_of raw.
Proof. unfold identity_of. by rewrite strip_idemp. Qed.

Lemma parse_doc_strip (docs : gmap string (string * yaml_doc)) (raw : string) :
  parse_doc docs (Py.strip raw) = parse_doc docs raw.
Proof. unfold parse_doc. by rewrite strip_idemp. Qed.

Lemma identity_of_Some (raw identity : string) :
  identity_of raw = Some identity -> Py.strip raw <> "".
Proof. unfold identity_of. cbn zeta. by destruct (decide (Py.strip raw = "")). Qed.

(** What a lookup in the map of a stream finds was filed for one of the
    documents of the stream, or was there before. *)
Lemma parse_docs_lookup_inv (docs_raw : list string)
    (docs : gmap string (string * yaml_doc)) (identity : string)
    (entry : string * yaml_doc) :
  foldl parse_doc docs docs_raw !! identity = Some entry ->
  docs !! identity = Some entry
  \/ exists raw, raw ∈ docs_raw /\ identity_of raw = Some identity
                 /\ parse_doc ∅ raw !! identity = Some entry.
Proof.
  revert docs. induction docs_raw as [|raw docs_raw IH]; intros docs; [by left|].
  cbn [foldl]. intros [Hdocs|(raw' & Hin & Hid & Hentry)]%IH.
  - destruct (parse_doc_cases raw) as [[_ Hskip]|(k & kept & Hk & Hfile)].
    + left. by rewrite Hskip in Hdocs.
    + rewrite Hfile in Hdocs. destruct (decide (k = identity)) as [->|Hne].
      * right. exists raw. split; [left|]. split; [done|].
        rewrite Hfile. rewrite lookup_insert_eq in Hdocs |- *. done.
      * left. by rewrite lookup_insert_ne in Hdocs.
  - right. exists raw'. split; [by right | done].
Qed.

Lemma parse_docs_lookup_chunk (docs_raw : list string) (identity raw : string)
    (doc : yaml_doc) :
  parse_docs docs_raw !! identity = Some (raw, doc) ->
  exists chunk, chunk ∈ docs_raw /\ raw = Py.strip chunk
                /\ identity_of chunk = Some identity.
Proof.
  intros [Hempty|(chunk & Hin & Hid & Hentry)]%parse_docs_lookup_inv; [done|].
  destruct (parse_doc_cases chunk) as [[Hnone _]|(k & kept & Hk & Hfile)]; [congruence|].
  assert (k = identity) as -> by congruence.
  rewrite Hfile, lookup_insert_eq in Hentry. injection Hentry as <- <-. eauto.
Qed.

(** X18. Every entry of the map that [parse_docs] builds comes from a
    document of the stream: its text is that document stripped of
    surrounding white space, it is not empty, and its key is the
    identity of that document; blank chunks and chunks that are no
    mapping leave no entry. *)
Theorem parse_docs_entries (docs_raw : list string) (identity raw : string)
    (doc : yaml_doc) :
  parse_docs docs_raw !! identity = Some (raw, doc) ->
  raw <> "" /\ Py.strip raw = raw
  /\ exists chunk, chunk ∈ docs_raw /\ raw = Py.strip chunk
                   /\ identity_of chunk = Some identity.
Proof.
  intros (chunk & Hin & -> & Hid)%parse_docs_lookup_chunk.
  split; [by apply (identity_of_Some chunk identity)|].
  split; [apply strip_idemp|]. eauto.
Qed.

Lemma raw_of_nonempty (docs_raw : list string) (identity : string) :
  is_Some (parse_docs docs_raw !! identity) ->
  raw_of (parse_docs docs_raw) identity <> "".
Proof.
  intros [[raw doc] Hentry]. unfold raw_of. rewrite Hentry. cbn.
  apply parse_docs_lookup_chunk in Hentry as (chunk & _ & -> & Hid).
  by apply (identity_of_Some chunk identity).
Qed.

Lemma raw_of_absent (docs : gmap string (string * yaml_doc)) (identity : string) :
  docs !! identity = None -> raw_of docs identity = "".
Proof. intros Hnone. unfold raw_of. by rewrite Hnone. Qed.

(** X19. When [_diff_manifests] reports no difference, the two streams
    hold the same identities: a resource that is in one stream only
    always has a block (added or removed), whatever the line cap. *)
Theorem no_diff_same_identities (baseline_content new_content : string)
    (max_lines_per_manifest : Z) (identity : string) :
  (_diff_manifests baseline_content new_content max_lines_per_manifest).1 = false ->
  is_Some (parse_docs (Py.split baseline_content doc_separator) !! identity)
  <-> is_Some (parse_docs (Py.split new_content doc_separator) !! identity).
Proof.
  rewrite diff_manifests_blocks. cbn zeta.
  set (b := parse_docs (Py.split baseline_content doc_separator)).
  set (n := parse_docs (Py.split new_content doc_separator)).
  intros Hnone.
  assert (Hblocks : forall i, i ∈ sorted_identities b n ->
                      diff_block b n max_lines_per_manifest i = None).
  { intros i Hi.
    destruct (omap _ (sorted_identities b n)) as [|d ds] eqn:Hdiffs; [|done].
    destruct (diff_block b n max_lines_per_manifest i) as [block|] eqn:Hblock; [|done].
    assert (Py.join "" block ∈ @nil string) as Hin; [|by inversion Hin].
    rewrite <- Hdiffs. apply list_elem_of_omap. exists i. by rewrite Hblock. }
  destruct (sorted_identities_sorted b n) as (_ & _ & Hin).
  assert (Hside : forall (x y : gmap string (string * yaml_doc)) i,
            raw_of x i <> "" -> y !! i = None ->
            diff_block x y max_lines_per_manifest i <> None
            /\ diff_block y x max_lines_per_manifest i <> None).
  { intros x y i Hx Hy. unfold diff_block. rewrite (raw_of_absent y i Hy).
    split.
    - rewrite decide_False by done. rewrite decide_False by done.
      by rewrite decide_True.
    - rewrite decide_False by done. by rewrite decide_True. }
  split; intros Hsome.
  - destruct (n !! identity) eqn:Hn; [done|]. exfalso.
    destruct (Hside b n identity) as [Hblock _]; [by apply raw_of_nonempty | done |].
    apply Hblock, Hblocks, Hin. by left.
  - destruct (b !! identity) eqn:Hb; [done|]. exfalso.
    destruct (Hside n b identity) as [_ Hblock]; [by apply raw_of_nonempty | done |].
    apply Hblock, Hblocks, Hin. by right.
Qed.

Lemma parse_docs_untouched (back : list string)
    (docs : gmap string (string * yaml_doc)) (identity : string) :
  Forall (fun later => identity_of later <> Some identity) back ->
  foldl parse_doc docs back !! identity = docs !! identity.
Proof.
  intros Hback. revert docs.
  induction Hback as [|later back Hlater _ IH]; intros docs; [done|].
  cbn [foldl]. rewrite IH.
  destruct (parse_doc_cases later) as [[_ Hskip]|(k & kept & Hk & Hfile)].
  - by rewrite Hskip.
  - rewrite Hfile, lookup_insert_ne; [done|congruence].
Qed.

Lemma parse_docs_lookup_intro (docs_raw : list string) (raw identity : string) :
  NoDup (omap identity_of docs_raw) ->
  raw ∈ docs_raw -> identity_of raw = Some identity ->
  parse_docs docs_raw !! identity = parse_doc ∅ raw !! identity.
Proof.
  intros Hnodup Hin Hid.
  apply list_elem_of_split in Hin as (front & back & ->).
  rewrite omap_app in Hnodup. cbn [omap list_omap] in Hnodup. rewrite Hid in Hnodup.
  apply NoDup_app in Hnodup as (_ & _ & Hback).
  apply NoDup_cons in Hback as [Hback _].
  rewrite parse_docs_app. cbn [foldl]. rewrite parse_docs_untouched.
  - destruct (parse_doc_cases raw) as [[Hnone _]|(k & kept & Hk & Hfile)]; [congruence|].
    assert (k = identity) as -> by congruence. by rewrite !Hfile, !lookup_insert_eq.
  - apply Forall_forall. intros later Hlater Hsame. apply Hback.
    apply list_elem_of_omap. eauto.
Qed.

Lemma parse_docs_permutation (docs_raw docs_raw' : list string) :
  docs_raw' ≡ₚ docs_raw -> NoDup (omap identity_of docs_raw) ->
  parse_docs docs_raw' = parse_docs docs_raw.
Proof.
  intros Hperm Hnodup.
  assert (Hnodup' : NoDup (omap identity_of docs_raw')) by by rewrite Hperm.
  assert (Hstep : forall l l' : list string,
            l' ≡ₚ l -> NoDup (omap identity_of l) -> NoDup (omap identity_of l') ->
            forall k e, parse_docs l !! k = Some e -> parse_docs l' !! k = Some e).
  { intros l l' Hp Hl Hl' k e [Hempty|(raw & Hin & Hid & Hentry)]%parse_docs_lookup_inv;
      [done|].
    rewrite (parse_docs_lookup_intro l' raw k); [done..| |done]. by rewrite Hp. }
  apply map_eq. intros k. apply option_eq. intros e. split; by apply Hstep.
Qed.

Lemma parse_docs_strip (docs_raw : list string) :
  parse_docs (Py.strip <$> docs_raw) = parse_docs docs_raw.
Proof.
  unfold parse_docs. generalize (∅ : gmap string (string * yaml_doc)).
  induction docs_raw as [|raw docs_raw IH]; intros docs; [done|].
  cbn [fmap list_fmap foldl]. by rewrite parse_doc_strip, IH.
Qed.

Lemma omap_identity_of_strip (docs_raw : list string) :
  omap identity_of (Py.strip <$> docs_raw) = omap identity_of docs_raw.
Proof.
  induction docs_raw as [|raw raws IH]; [done|].
  cbn [fmap list_fmap omap list_omap] in IH |- *. by rewrite identity_of_strip, IH.
Qed.

(** X20. The diff takes no notice of the order of the documents nor of
    the white space around them: two streams whose documents, stripped,
    are the same up to order, and are told apart by their identities,
    have no difference. *)
Theorem diff_ignores_order_and_padding (baseline_content new_content : string)
    (max_lines_per_manifest : Z) :
  Py.strip <$> Py.split new_content doc_separator
    ≡ₚ Py.strip <$> Py.split baseline_content doc_separator ->
  NoDup (omap identity_of (Py.split baseline_content doc_separator)) ->
  _diff_manifests baseline_content new_content max_lines_per_manifest
  = (false, EmptyString).
Proof.
  intros Hperm Hnodup. rewrite diff_manifests_blocks. cbn zeta.
  assert (parse_docs (Py.split new_content doc_separator)
          = parse_docs (Py.split baseline_content doc_separator)) as ->.
  { rewrite <- (parse_docs_strip (Py.split new_content _)),
            <- (parse_docs_strip (Py.split baseline_content _)).
    apply parse_docs_permutation; [done|].
    by rewrite omap_identity_of_strip. }
  generalize (parse_docs (Py.split baseline_content doc_separator)). intros docs.
  assert (omap (fun identity =>
                  Py.join "" <$> diff_block docs docs max_lines_per_manifest identity)
               (sorted_identities docs docs) = []) as ->; [|done].
  induction (sorted_identities docs docs) as [|identity ids IH]; [done|].
  cbn [omap list_omap]. by rewrite diff_block_same.
Qed.
End streams.

Lemma split_slash_two (a b : string) :
  Py.contains a "/" = false -> Py.contains b "/" = false ->
  Py.split (a +:+ "/" +:+ b) "/" = [a; b].
Proof.
  intros Ha Hb. rewrite app_cons, app_empty_l, split_char_app by done.
  by rewrite split_char_absent.
Qed.

Lemma split_slash_three (a b c : string) :
  Py.contains a "/" = false -> Py.contains b "/" = false -> Py.contains c "/" = false ->
  Py.split (a +:+ "/" +:+ b +:+ "/" +:+ c) "/" = [a; b; c].
Proof.
  intros Ha Hb Hc. rewrite app_cons, app_empty_l, split_char_app by done.
  by rewrite split_slash_two.
Qed.

(** X21. The identity of a manifest tells resources apart: two documents
    whose kind, namespace and name hold no [/] have the same identity
    only if they have the same kind, namespace and name (an absent
    namespace counting as the empty one). *)
Theorem manifest_name_injective (doc1 doc2 : ArgoDocument.t) :
  (forall doc, doc = doc1 \/ doc = doc2 ->
     Py.contains (manifest_key doc).1.1 "/" = false
     /\ Py.contains (manifest_key doc).1.2 "/" = false
     /\ Py.contains (manifest_key doc).2 "/" = false) ->
  _get_manifest_name doc1 = _get_manifest_name doc2 ->
  manifest_key doc1 = manifest_key doc2.
Proof.
  intros Hslash Hname.
  assert (Hsplit : forall doc, doc = doc1 \/ doc = doc2 ->
            Py.split (_get_manifest_name doc) "/"
            = if decide ((manifest_key doc).1.2 = "")
              then [(manifest_key doc).1.1; (manifest_key doc).2]
              else [(manifest_key doc).1.1; (manifest_key doc).1.2; (manifest_key doc).2]).
  { intros doc Hdoc. destruct (Hslash doc Hdoc) as (Hk & Hns & Hn). clear Hslash Hname Hdoc.
    unfold _get_manifest_name, manifest_key in *. cbn zeta in *. cbn [fst snd] in *.
    destruct (decide (default "" _ = "")).
    - by apply split_slash_two.
    - by apply split_slash_three. }
  pose proof (Hsplit doc1 (or_introl eq_refl)) as H1.
  pose proof (Hsplit doc2 (or_intror eq_refl)) as H2.
  rewrite Hname, H2 in H1. clear Hsplit Hname H2 Hslash.
  destruct (manifest_key doc1) as [[k1 ns1] n1], (manifest_key doc2) as [[k2 ns2] n2].
  cbn [fst snd] in H1.
  destruct (decide (ns1 = "")), (decide (ns2 = "")); simplify_eq; done.
Qed.

Lemma parse_docs_entries_witness :
  exists chunk,
    chunk ∈ Py.split DiffFixture.with_duplicate doc_separator
    /\ "kind: Service" = Py.strip chunk.
Proof.
  destruct (@parse_docs_entries DiffFixture.loader DiffFixture.hasher
              (Py.split DiffFixture.with_duplicate doc_separator)
              "Service/web" "kind: Service" (YDoc DiffFixture.service_doc))
    as (_ & _ & chunk & Hin & Hraw & _).
  - vm_compute. reflexivity.
  - by exists chunk.
Defined.

Lemma no_diff_same_identities_witness :
  is_Some (@parse_docs DiffFixture.loader DiffFixture.hasher
             (Py.split DiffFixture.without_duplicate doc_separator) !! "Service/web")
  <-> is_Some (@parse_docs DiffFixture.loader DiffFixture.hasher
                 (Py.split ("kind: ConfigMap # new" +:+ doc_separator +:+ "kind: Service")
                    doc_separator) !! "Service/web").
Proof.
  apply (@no_diff_same_identities DiffFixture.loader DiffFixture.hasher
           DiffFixture.difflib DiffFixture.without_duplicate
           ("kind: ConfigMap # new" +:+ doc_separator +:+ "kind: Service") 250
           "Service/web").
  vm_compute. reflexivity.
Defined.

Lemma diff_ignores_order_and_padding_witness :
  @_diff_manifests DiffFixture.loader DiffFixture.hasher DiffFixture.difflib
    DiffFixture.without_duplicate
    (" kind: ConfigMap # new" +:+ doc_separator +:+ "kind: Service" +:+ LF) 250
  = (false, EmptyString).
Proof.
  apply (@diff_ignores_order_and_padding DiffFixture.loader DiffFixture.hasher
           DiffFixture.difflib DiffFixture.without_duplicate
           (" kind: ConfigMap # new" +:+ doc_separator +:+ "kind: Service" +:+ LF) 250).
  - vm_compute. apply perm_swap.
  - vm_compute. apply (bool_decide_unpack _). vm_compute. exact I.
Defined.

Lemma manifest_name_injective_witness :
  manifest_key DiffFixture.service_doc
  = manifest_key (ArgoDocument.Build (Some "v1") (Some "Service")
                    (Some (ArgoMetadata.Build (Some "web") (Some ""))) None).
Proof.
  apply manifest_name_injective.
  - intros doc [->| ->]; vm_compute; done.
  - reflexivity.
Defined.

(** ** Text without template variables *)

Lemma match_here_two_literals (a b : ascii) (re : list piece) (s : string) :
  Py.startswith s (String a (String b "")) = false ->
  match_here (lit a :: lit b :: re) s = None.
Proof.
  intros Hstart. destruct s as [|c s]; [done|]. cbn [match_here lit in_class].
  cbn [Py.startswith] in Hstart.
  case_bool_decide as Hc; [|done]. subst c. rewrite decide_True in Hstart by done.
  destruct s as [|c' s]; [done|]. cbn [in_class].
  case_bool_decide as Hc'; [|done]. subst c'. by rewrite decide_True in Hstart.
Qed.

Lemma sub_scan_no_opening (a b : ascii) (re : list piece)
    (repl : string -> option string -> string) (s : string) :
  Py.contains s (String a (String b "")) = false ->
  sub_scan (lit a :: lit b :: re) repl O s = s.
Proof.
  induction s as [|c s IH]; [done|]. intros Hcontains.
  cbn [Py.contains] in Hcontains. apply orb_false_iff in Hcontains as [Hstart Hrest].
  cbn [sub_scan]. rewrite match_here_two_literals by done. by rewrite IH.
Qed.

(** X22. A text that holds no [{{] has no template variable: whatever
    the variable map, [resolve_template_variables] returns it as it is. *)
Theorem resolve_template_variables_plain_text {V : Type} `{PyStr V}
    (template_str : string) (variables : gmap string V) :
  Py.contains template_str "{{" = false ->
  resolve_template_variables template_str variables = template_str.
Proof.
  intros Hplain. unfold resolve_template_variables, re_sub.
  unfold escaped_variable_pattern, variable_pattern.
  rewrite (sub_scan_no_opening _ _ _ plain_variable template_str) by done.
  by rewrite sub_scan_no_opening.
Qed.

Lemma resolve_template_variables_plain_text_witness :
  @resolve_template_variables string TemplateFixture.str_of_string
    "kubernetes/{app}/values.yaml" TemplateFixture.element
  = "kubernetes/{app}/values.yaml".
Proof.
  apply (@resolve_template_variables_plain_text string TemplateFixture.str_of_string).
  reflexivity.
Defined.

(** ** Storage keys *)

Lemma endswith_app (s suffix : string) : PyText.endswith (s +:+ suffix) suffix = true.
Proof.
  unfold PyText.endswith. rewrite str_length_app.
  rewrite bool_decide_eq_true_2 by lia.
  replace (String.length s + String.length suffix - String.length suffix)%nat
    with (String.length s) by lia.
  by rewrite str_drop_app, bool_decide_eq_true_2.
Qed.

Lemma endswith_spec (s suffix : string) :
  PyText.endswith s suffix = true <-> exists front, s = front +:+ suffix.
Proof.
  split.
  - unfold PyText.endswith. intros [_ Hdrop]%andb_true_iff.
    apply bool_decide_eq_true in Hdrop.
    exists (str_take (String.length s - String.length suffix) s).
    rewrite <- Hdrop at 2. by rewrite str_take_drop.
  - intros [front ->]. apply endswith_app.
Qed.

Lemma endswith_app_l (s t suffix : string) :
  PyText.endswith t suffix = true -> PyText.endswith (s +:+ t) suffix = true.
Proof.
  intros [front ->]%endswith_spec. apply endswith_spec. exists (s +:+ front).
  by rewrite str_app_assoc.
Qed.

Lemma contains_char_app (sep : ascii) (s t : string) :
  Py.contains (s +:+ t) (String sep "")
  = Py.contains s (String sep "") || Py.contains t (String sep "").
Proof.
  induction s as [|c s IH].
  - by rewrite app_empty_l.
  - rewrite app_cons, !contains_char_cons, IH. by rewrite orb_assoc.
Qed.

Lemma rpartition_absent (sep : ascii) (s : string) :
  Py.contains s (String sep "") = false -> PyText.rpartition (String sep "") s = None.
Proof.
  induction s as [|c s IH]; [done|]. rewrite contains_char_cons.
  intros [Hc Hs]%orb_false_iff. apply bool_decide_eq_false in Hc.
  cbn [PyText.rpartition Py.startswith]. rewrite IH by done.
  by rewrite decide_False.
Qed.

Lemma rpartition_last (sep : ascii) (before after : string) :
  Py.contains after (String sep "") = false ->
  PyText.rpartition (String sep "") (before +:+ String sep after)
  = Some (before, after).
Proof.
  intros Hafter. induction before as [|c before IH].
  - rewrite app_empty_l. cbn [PyText.rpartition Py.startswith String.length Py.drop].
    rewrite rpartition_absent by done. by rewrite decide_True.
  - rewrite app_cons. cbn [PyText.rpartition]. by rewrite IH.
Qed.

Lemma contains_app_l (s t sub : string) :
  Py.contains s sub = true -> Py.contains (s +:+ t) sub = true.
Proof.
  intros (before & after & ->)%contains_spec. apply contains_spec.
  exists before, (after +:+ t). by rewrite !str_app_assoc.
Qed.

Lemma drop_prefix_slash (prefix rest : string) :
  Py.drop (String.length prefix + 1) (prefix +:+ "/" +:+ rest) = rest.
Proof.
  rewrite <- str_app_assoc.
  replace (String.length prefix + 1)%nat with (String.length (prefix +:+ "/"))
    by (rewrite str_length_app; cbn; lia).
  apply str_drop_app.
Qed.

Lemma foldl_append_Some {A B : Type} (f : A -> option B) (l : list A) :
  foldl (fun acc x => match f x with Some y => acc ++ [y] | None => acc end) [] l
  = omap f l.
Proof.
  assert (forall acc,
            foldl (fun acc x => match f x with Some y => acc ++ [y] | None => acc end)
                  acc l
            = acc ++ omap f l) as Hfold; [|by rewrite Hfold].
  induction l as [|x l IH]; intros acc; cbn [foldl omap list_omap].
  - by rewrite app_nil_r.
  - rewrite IH. destruct (f x); [by rewrite <- app_assoc | done].
Qed.

(** X23. [list_manifests] reads back the references whose keys
    [_get_key] wrote: for references whose environment, application
    name and git reference hold no [/], listing their keys gives the
    references again, in order (an empty git reference reads back as
    none). *)
Theorem list_manifests_round_trip (prefix : string) (refs : list ManifestRef.t) :
  Forall (fun ref =>
            Py.contains (ManifestRef.env ref) "/" = false
            /\ Py.contains (ManifestRef.app_name ref) "/" = false
            /\ Py.contains (default "" (ManifestRef.git_ref ref)) "/" = false) refs ->
  S3StorageBackend.list_manifests prefix (S3StorageBackend._get_key prefix <$> refs)
  = (fun ref =>
       ManifestRef.Build (ManifestRef.env ref) (ManifestRef.app_name ref)
         (if str_truthy (ManifestRef.git_ref ref) then ManifestRef.git_ref ref else None))
      <$> refs.
Proof.
  intros Hrefs. unfold S3StorageBackend.list_manifests. rewrite foldl_append_Some.
  induction Hrefs as [|[env app_name git_ref] refs (Henv & Happ & Hgit) _ IH]; [done|].
  cbn [fmap list_fmap omap list_omap] in IH |- *. rewrite IH.
  cbn [ManifestRef.env ManifestRef.app_name ManifestRef.git_ref] in *.
  unfold S3StorageBackend.manifest_ref_of_key, S3StorageBackend._get_key, ManifestRef.key.
  cbn [ManifestRef.env ManifestRef.app_name ManifestRef.git_ref].
  rewrite drop_prefix_slash.
  assert (Hsplit2 : Py.split (env +:+ "/" +:+ app_name +:+ "/_all.yaml") "/"
                    = [env; app_name; "_all.yaml"]).
  { rewrite app_cons, app_empty_l, split_char_app by done.
    by rewrite split_char_app by done. }
  destruct git_ref as [[|c g]|]; cbn [str_truthy default] in *.
  - rewrite Hsplit2.
    by assert (PyText.endswith
                 (prefix +:+ "/" +:+ env +:+ "/" +:+ app_name +:+ "/_all.yaml")
                 "/_all.yaml" = true) as ->
      by (do 4 apply endswith_app_l; apply endswith_app).
  - unfold id in *. remember (String c g) as git eqn:Hgit_eq. clear Hgit_eq.
    assert (PyText.endswith
              (prefix +:+ "/" +:+ env +:+ "/" +:+ app_name +:+ "/" +:+ git
                 +:+ "/_all.yaml") "/_all.yaml" = true) as ->
      by (do 6 apply endswith_app_l; apply endswith_app).
    rewrite !app_cons, !app_empty_l, split_char_app by done.
    rewrite split_char_app by done. by rewrite split_char_app by done.
  - rewrite Hsplit2.
    by assert (PyText.endswith
                 (prefix +:+ "/" +:+ env +:+ "/" +:+ app_name +:+ "/_all.yaml")
                 "/_all.yaml" = true) as ->
      by (do 4 apply endswith_app_l; apply endswith_app).
Qed.

Lemma list_manifests_round_trip_witness :
  S3StorageBackend.list_manifests "rendered-manifests"
    ["rendered-manifests/dev/web/_all.yaml"; "rendered-manifests/prod/api/main/_all.yaml"]
  = [ManifestRef.Build "dev" "web" None; ManifestRef.Build "prod" "api" (Some "main")].
Proof.
  apply (list_manifests_round_trip "rendered-manifests"
           [ManifestRef.Build "dev" "web" None;
            ManifestRef.Build "prod" "api" (Some "main")]).
  repeat constructor.
Defined.

(** X24. A git reference that holds a [/] does not survive the round
    trip: [list_manifests] reads back only what stands before its first
    [/]. *)
Theorem list_manifests_truncates_git_ref (prefix env app_name head tail : string) :
  Py.contains env "/" = false -> Py.contains app_name "/" = false ->
  Py.contains head "/" = false ->
  S3StorageBackend.list_manifests prefix
    [S3StorageBackend._get_key prefix
       (ManifestRef.Build env app_name (Some (head +:+ "/" +:+ tail)))]
  = [ManifestRef.Build env app_name (Some head)].
Proof.
  intros Henv Happ Hhead. unfold S3StorageBackend.list_manifests.
  rewrite foldl_append_Some. cbn [omap list_omap].
  unfold S3StorageBackend.manifest_ref_of_key, S3StorageBackend._get_key, ManifestRef.key.
  cbn [ManifestRef.env ManifestRef.app_name ManifestRef.git_ref].
  assert (str_truthy (Some (head +:+ "/" +:+ tail)) = true) as ->.
  { destruct head; [by rewrite app_empty_l, app_cons | by rewrite app_cons]. }
  cbn [default]. unfold id. rewrite drop_prefix_slash.
  assert (PyText.endswith
            (prefix +:+ "/" +:+ env +:+ "/" +:+ app_name +:+ "/"
               +:+ (head +:+ "/" +:+ tail) +:+ "/_all.yaml") "/_all.yaml" = true) as ->
    by (do 6 apply endswith_app_l; apply endswith_app).
  rewrite (str_app_assoc head), (str_app_assoc "/" tail).
  rewrite !app_cons, !app_empty_l, split_char_app by done.
  rewrite split_char_app by done. rewrite split_char_app by done.
  pose proof (split_char_nonempty "/" (tail +:+ "/_all.yaml")) as Hne.
  by destruct (Py.split (tail +:+ "/_all.yaml") "/").
Qed.

Lemma list_manifests_truncates_git_ref_witness :
  S3StorageBackend.list_manifests "rendered-manifests"
    ["rendered-manifests/dev/web/feature/login/_all.yaml"]
  = [ManifestRef.Build "dev" "web" (Some "feature")].
Proof.
  apply (list_manifests_truncates_git_ref "rendered-manifests" "dev" "web"
           "feature" "login"); reflexivity.
Defined.

Lemma drop_last_app (s suffix : string) :
  PyText.drop_last (String.length suffix) (s +:+ suffix) = s.
Proof.
  unfold PyText.drop_last. rewrite str_length_app.
  replace (String.length s + String.length suffix - String.length suffix)%nat
    with (String.length s) by lia.
  apply str_take_app.
Qed.

(** X25. [list_cached_charts] reads back the charts whose keys
    [_get_chart_key] wrote, whatever the chart names, as long as the
    versions hold no [/]. *)
Theorem list_cached_charts_round_trip (prefix : string) (refs : list ChartRef.t) :
  Forall (fun ref => Py.contains (ChartRef.version ref) "/" = false) refs ->
  S3StorageBackend.list_cached_charts prefix
    (S3StorageBackend._get_chart_key prefix <$> refs)
  = refs.
Proof.
  intros Hrefs. unfold S3StorageBackend.list_cached_charts. rewrite foldl_append_Some.
  induction Hrefs as [|[chart_name version] refs Hversion _ IH]; [done|].
  cbn [fmap list_fmap omap list_omap] in IH |- *. rewrite IH.
  cbn [ChartRef.version] in Hversion.
  unfold S3StorageBackend.chart_ref_of_key, S3StorageBackend._get_chart_key, ChartRef.key.
  cbn [ChartRef.chart_name ChartRef.version].
  assert (PyText.endswith
            (prefix +:+ "/" +:+ "_chart_cache/" +:+ chart_name +:+ "/" +:+ version
               +:+ ".tgz") ".tgz" = true) as ->
    by (do 5 apply endswith_app_l; apply endswith_app).
  assert (prefix +:+ "/" +:+ "_chart_cache/" +:+ chart_name +:+ "/" +:+ version +:+ ".tgz"
          = (prefix +:+ "/_chart_cache/")
              +:+ (chart_name +:+ String "/" (version +:+ ".tgz"))) as ->.
  { rewrite !str_app_assoc. by rewrite !app_cons, !app_empty_l. }
  rewrite str_drop_app. unfold PyText.rsplit1.
  rewrite rpartition_last by (by rewrite contains_char_app, Hversion).
  pose proof (drop_last_app version ".tgz") as Hlast. cbn [String.length] in Hlast.
  by rewrite Hlast.
Qed.

Lemma list_cached_charts_round_trip_witness :
  S3StorageBackend.list_cached_charts "rendered-manifests"
    ["rendered-manifests/_chart_cache/helm-charts/web/1.2.3.tgz"]
  = [ChartRef.Build "helm-charts/web" "1.2.3"].
Proof.
  apply (list_cached_charts_round_trip "rendered-manifests"
           [ChartRef.Build "helm-charts/web" "1.2.3"]).
  repeat constructor.
Defined.

(** ** Token expiry *)

(** X26. The error that [download_cached_chart] raises for an expired
    token is itself recognised as one, for every profile and every
    cause: by [_is_token_expired_error] (its message says so), and by
    the class test of [render_recursive]. *)
Theorem token_expired_error_recognised (profile : option string) (cause : exn) :
  let e := raise_from (AWSTokenExpiredError_init profile) cause in
  _is_token_expired_error e = true
  /\ _is_token_expired_error (AWSTokenExpiredError_init profile) = true
  /\ is_token_expired e = true
  /\ exn_cause e = Some cause.
Proof.
  assert (Hmsg : forall c,
            _is_token_expired_error
              (Exn AWSTokenExpiredError
                 (if str_truthy profile
                  then "AWS SSO token has expired. Run: aws sso login --profile "
                         +:+ default "" profile
                  else "AWS SSO token has expired. Run: aws sso login") c) = true).
  { intros c. unfold _is_token_expired_error. cbn [exn_str].
    apply orb_true_iff. left. destruct (str_truthy profile); [|reflexivity].
    rewrite lower_app. apply andb_true_iff. split.
    - by apply contains_app_l.
    - apply orb_true_iff. left. by apply contains_app_l. }
  cbn zeta. unfold AWSTokenExpiredError_init, raise_from. by rewrite !Hmsg.
Qed.

(** X27. [download_cached_chart] lets no exception through but the
    token expiry: what it raises is an [AWSTokenExpiredError] for the
    profile of the cache, with the error it met as its cause, and that
    error is one [_is_token_expired_error] recognises.  When it returns,
    it returns a path exactly when it reports success, and then with the
    message [Chart loaded from S3 cache (vVERSION)]. *)
Theorem download_cached_chart_outcomes `{ChartCache} (chart_name version : string)
    (dest_dir : Path) :
  match download_cached_chart chart_name version dest_dir with
  | Raise e =>
      exists cause,
        e = raise_from (AWSTokenExpiredError_init cache_profile) cause
        /\ _is_token_expired_error cause = true
  | Ok (success, msg, chart_path) =>
      if success
      then is_Some chart_path
           /\ msg = "Chart loaded from S3 cache (v" +:+ version +:+ ")"
      else chart_path = None
  end.
Proof.
  assert (Hfail : forall label e,
            match cache_failure label e with
            | Raise e' =>
                exists cause,
                  e' = raise_from (AWSTokenExpiredError_init cache_profile) cause
                  /\ _is_token_expired_error cause = true
            | Ok (success, msg, chart_path) =>
                if success
                then is_Some chart_path
                     /\ msg = "Chart loaded from S3 cache (v" +:+ version +:+ ")"
                else chart_path = None
            end).
  { intros label e. unfold cache_failure.
    destruct (_is_token_expired_error e) eqn:He; [by exists e | done]. }
  unfold download_cached_chart.
  destruct (chart_exists _) as [[]|e]; [|done|apply Hfail].
  destruct (download_chart _ _) as [[]|e]; [|done|apply Hfail].
  destruct (extract_archive _ _) as [[]|e]; [|apply Hfail].
  destruct (directory_exists _) as [[]|e]; [by split; [eexists|] | |apply Hfail].
  destruct (subdirectories _) as [[|d ds]|e]; [done | by split; [eexists|] | apply Hfail].
Qed.

Example download_cached_chart_token_retrieval :
  @download_cached_chart (CacheFixture.failing CacheFixture.sso_error) "web" "1.0.0" "tmp"
  = Raise (Exn AWSTokenExpiredError
             "AWS SSO token has expired. Run: aws sso login --profile dev"
             (Some CacheFixture.sso_error)).
Proof. reflexivity. Qed.

(** ** Ages *)

(** X28. [format_timedelta] shows a duration of at least a minute in the
    largest unit that fits, rounded down: the number shown is between 1
    and 59 for minutes, between 1 and 23 for hours, at least 1 for days,
    and the duration lies between that many units and one more. *)
Theorem format_timedelta_units (total_seconds : Z) :
  60 <= total_seconds ->
  exists (n size : Z) (unit : string),
    format_timedelta total_seconds = pretty n +:+ unit +:+ " ago"
    /\ 1 <= n /\ n * size <= total_seconds < (n + 1) * size
    /\ ((unit = "m" /\ size = 60 /\ n < 60)
        \/ (unit = "h" /\ size = 3600 /\ n < 24)
        \/ (unit = "d" /\ size = 86400)).
Proof.
  intros Hmin. unfold format_timedelta. rewrite bool_decide_eq_false_2 by lia.
  case_bool_decide as Hm; [|case_bool_decide as Hh].
  - exists (total_seconds `div` 60), 60, "m". split; [done|].
    pose proof (Z.div_mod total_seconds 60 ltac:(lia)).
    pose proof (Z.mod_pos_bound total_seconds 60 ltac:(lia)). 
    split; [lia|]. split; [lia|]. left. repeat split; lia.
  - exists (total_seconds `div` 3600), 3600, "h". split; [done|].
    pose proof (Z.div_mod total_seconds 3600 ltac:(lia)).
    pose proof (Z.mod_pos_bound total_seconds 3600 ltac:(lia)).
    split; [lia|]. split; [lia|]. right. left. repeat split; lia.
  - exists (total_seconds `div` 86400), 86400, "d". split; [done|].
    pose proof (Z.div_mod total_seconds 86400 ltac:(lia)).
    pose proof (Z.mod_pos_bound total_seconds 86400 ltac:(lia)).
    split; [lia|]. split; [lia|]. right. right. done.
Qed.

Lemma format_timedelta_units_witness :
  exists (n size : Z) (unit : string),
    format_timedelta 7325 = pretty n +:+ unit +:+ " ago"
    /\ 1 <= n /\ n * size <= 7325 < (n + 1) * size
    /\ ((unit = "m" /\ size = 60 /\ n < 60)
        \/ (unit = "h" /\ size = 3600 /\ n < 24)
        \/ (unit = "d" /\ size = 86400)).
Proof. apply (format_timedelta_units 7325). lia. Defined.

(** ** Applications touched by a change *)

Lemma affected_in_env_omap (changed_files : list string) (env : string)
    (apps : list ArgoAppConfig.t)
    (affected : list (string * ArgoAppConfig.t * string)) :
  affected_in_env changed_files env apps affected
  = affected
    ++ omap (fun app => (fun changed_file => (env, app, changed_file))
                          <$> List.find (touches app) changed_files) apps.
Proof.
  unfold affected_in_env. revert affected.
  induction apps as [|app apps IH]; intros affected; cbn [foldl omap list_omap].
  - by rewrite app_nil_r.
  - rewrite IH. destruct (List.find _ _); [by rewrite <- app_assoc | done].
Qed.

Lemma affected_from_listed `{AppCatalog} (changed_files envs : list string)
    (apps : string -> list ArgoAppConfig.t)
    (affected : list (string * ArgoAppConfig.t * string)) :
  (forall env, env ∈ envs -> list_apps_for_env env = Ok (apps env)) ->
  affected_from changed_files envs affected
  = Ok (affected
        ++ concat ((fun env =>
                      omap (fun app => (fun changed_file => (env, app, changed_file))
                                         <$> List.find (touches app) changed_files)
                           (apps env)) <$> envs)).
Proof.
  revert affected. induction envs as [|env envs IH]; intros affected Hlisted.
  - cbn. by rewrite app_nil_r.
  - cbn [affected_from fmap list_fmap concat].
    rewrite (Hlisted env) by left. rewrite IH by (intros e He; apply Hlisted; by right).
    by rewrite affected_in_env_omap, <- app_assoc.
Qed.

(** X29. When the applications of every environment can be listed,
    [_find_affected_apps] reports an application of an environment
    exactly when some changed file touches it, once, with the first
    changed file that does; so it reports at most one file for each
    application of each environment. *)
Theorem find_affected_apps_first_file `{AppCatalog} (changed_files envs : list string)
    (apps : string -> list ArgoAppConfig.t) :
  (forall env, env ∈ envs -> list_apps_for_env env = Ok (apps env)) ->
  exists affected,
    _find_affected_apps changed_files envs = Ok affected
    /\ (forall env app changed_file,
          (env, app, changed_file) ∈ affected
          <-> env ∈ envs /\ app ∈ apps env
              /\ List.find (touches app) changed_files = Some changed_file)
    /\ (forall env app changed_file,
          (env, app, changed_file) ∈ affected ->
          changed_file ∈ changed_files /\ touches app changed_file = true)
    /\ (length affected <= length (concat (apps <$> envs)))%nat.
Proof.
  intros Hlisted. eexists. split.
  { unfold _find_affected_apps. by rewrite (affected_from_listed _ _ apps). }
  cbn [app].
  assert (Hin : forall env app changed_file,
            (env, app, changed_file)
              ∈ concat ((fun env =>
                           omap (fun app => (fun changed_file => (env, app, changed_file))
                                              <$> List.find (touches app) changed_files)
                                (apps env)) <$> envs)
            <-> env ∈ envs /\ app ∈ apps env
                /\ List.find (touches app) changed_files = Some changed_file).
  { intros env app changed_file. rewrite elem_of_concat. split.
    - intros (l & Hl & Hin). apply list_elem_of_fmap in Hin as (env' & -> & Henv).
      apply list_elem_of_omap in Hl as (app' & Happ & Hfind).
      destruct (List.find (touches app') changed_files) eqn:Hf; [|done].
      cbn in Hfind. by simplify_eq.
    - intros (Henv & Happ & Hfind).
      exists (omap (fun app => (fun changed_file => (env, app, changed_file))
                                 <$> List.find (touches app) changed_files)
                   (apps env)).
      split.
      + apply list_elem_of_omap. exists app. split; [done|]. by rewrite Hfind.
      + apply list_elem_of_fmap. by exists env. }
  split; [exact Hin|]. split.
  - intros env app changed_file (_ & _ & Hfind)%Hin.
    by apply find_Some_elem_of in Hfind.
  - clear Hin Hlisted. induction envs as [|env envs IH]; [done|].
    cbn [fmap list_fmap concat]. rewrite !length_app.
    assert (length (omap (fun app => (fun changed_file => (env, app, changed_file))
                                       <$> List.find (touches app) changed_files)
                         (apps env)) <= length (apps env))%nat; [|lia].
    clear IH. generalize (apps env). intros l. induction l as [|a l IHl]; [done|].
    cbn [omap list_omap]. destruct (List.find (touches a) changed_files);
      cbn [fmap option_fmap option_map length]; lia.
Qed.

Lemma find_affected_apps_first_file_witness :
  exists affected,
    @_find_affected_apps CatalogFixture.catalog
      ["README.md"; "kubernetes/api/values.yaml"; "charts/web-chart/Chart.yaml";
       "values/web.yaml"] ["dev"; "prod"] = Ok affected
    /\ ("dev", CatalogFixture.web, "charts/web-chart/Chart.yaml") ∈ affected.
Proof.
  destruct (@find_affected_apps_first_file CatalogFixture.catalog
              ["README.md"; "kubernetes/api/values.yaml"; "charts/web-chart/Chart.yaml";
               "values/web.yaml"] ["dev"; "prod"]
              (fun env => if decide (env = "dev")
                          then [CatalogFixture.web; CatalogFixture.api] else []))
    as (affected & Hrun & Hin & _).
  - intros env _. unfold list_apps_for_env, CatalogFixture.catalog.
    by destruct (decide (env = "dev")).
  - exists affected. split; [exact Hrun|]. apply Hin.
    split; [by left|]. split; [by left | reflexivity].
Defined.

(** ** Expansion of one ApplicationSet *)

Section expansion_of_appset.
Context `{YamlLoader} `{FileSystem} `{Renderer} `{OutputFiles}.


End expansion_of_appset.

